(** * MarkerLocator: a shallow embedding of the indoor marker tracker

    Source: fmSensors/global_sensing/indoor_tracker/src/indoor_tracker/MarkerLocator.py

    Python integers are [Z] (pixel coordinates, image sizes) or [nat]
    (symmetry orders, kernel sizes, list indices).  A call that raises is
    [None]; a call whose exception is caught inside the method returns the
    state reached when the handler finishes.

    Python floats are IEEE 754 doubles.  Where the source computes with
    [+], [-], [*], [/] and comparisons alone (the sample grid of
    [np.linspace], the loops of [limitAngleToRange]) the doubles are
    modelled as they are, by the primitive floats of [PrimFloat].  The
    functions of [math], [numpy] and OpenCV that round in ways their
    libraries fix ([cos], [sin], [atan2], [exp], complex powers, image
    filters) are taken exact over the real numbers ([R]), and so are the
    pixel values, the entries of the kernel matrices (which OpenCV stores
    in single precision) and the angles computed from them.  For the
    loops of [limitAngleToRange] both readings are given: over [R], for
    the angles that [determineMarkerOrientation] computes, and on doubles
    ([MarkerTracker.InDoubles]), where the properties of the method as
    such are stated. *)

From Stdlib Require Uint63.
From Stdlib Require Import Floats.
From Stdlib Require Import Reals ZArith List Lia Lra String Zfloor.
From stdpp Require Import base list option.
From Equations Require Import Equations.
Import ListNotations.
Open Scope R_scope.

(** ** Python and [math] built-ins *)

(** [int(x)] on a float truncates toward zero. *)
Definition py_int (x : R) : Z := if Rle_dec 0 x then Zfloor x else Zceil x.

(** [math.atan2(y, x)], the angle of the point [(x, y)] in (-pi, pi]. *)
Definition atan2 (y x : R) : R :=
  if Rlt_dec 0 x then atan (y / x)
  else if Rlt_dec x 0 then
    if Rle_dec 0 y then atan (y / x) + PI else atan (y / x) - PI
  else if Rlt_dec 0 y then PI / 2
  else if Rlt_dec y 0 then - (PI / 2)
  else 0.

(** [range(lo, lo + n)] over the integers. *)
Definition Zrange (lo : Z) (n : Z) : list Z :=
  map (fun i => (lo + Z.of_nat i)%Z) (seq 0 (Z.to_nat n)).

(** ** Complex numbers and the [numpy] array operations used *)

Definition C : Type := R * R.
Definition Re (z : C) : R := fst z.
Definition Im (z : C) : R := snd z.
Definition RtoC (x : R) : C := (x, 0).
Definition Ci : C := (0, 1).
Definition Cplus (a b : C) : C := (Re a + Re b, Im a + Im b).
Definition Cmult (a b : C) : C :=
  (Re a * Re b - Im a * Im b, Re a * Im b + Im a * Re b).
Definition Cabs (z : C) : R := sqrt (Re z * Re z + Im z * Im z).
Fixpoint Cpow (z : C) (n : nat) : C :=
  match n with
  | O => RtoC 1
  | S n' => Cmult z (Cpow z n')
  end.

(** ** Doubles *)

Module double.

(** [math.pi], the double nearest to pi. *)
Definition pi : float := 0x1.921fb54442d18p+1%float.

(** [float(n)] for a non-negative integer below 2^63. *)
Definition of_nat (n : nat) : float :=
  PrimFloat.of_uint63 (Uint63.of_Z (Z.of_nat n)).

(** The real number that a finite double stands for; infinities and NaN,
    which stand for none, are sent to 0. *)
Definition to_R (x : float) : R :=
  match Prim2SF x with
  | S754_finite s m e => IZR (cond_Zopp s (Zpos m)) * powerRZ 2 e
  | _ => 0
  end.

End double.

Module np.

(** A two-dimensional array is the list of its rows. *)
Definition array2 (A : Type) : Type := list (list A).

Definition map2 {A B} (f : A -> B) (a : array2 A) : array2 B := map (map f) a.

Definition zip2 {A B D} (f : A -> B -> D) (a : array2 A) (b : array2 B)
  : array2 D :=
  zip_with (zip_with f) a b.

(** [np.linspace(start, stop, num)] with the end point included:
    [arange(0, num) * step + start] in double arithmetic, the last sample
    then set to [stop]; one sample is the start point alone. *)
Definition linspace (start stop : float) (num : nat) : list float :=
  match num with
  | O => []
  | S O => [start]
  | S (S _) =>
      let step := ((stop - start) / double.of_nat (num - 1))%float in
      map (fun i => if (i =? num - 1)%nat then stop
                    else (double.of_nat i * step + start)%float)
          (seq 0 num)
  end.

(** [np.meshgrid(x, y)]: both results have [len(y)] rows and [len(x)]
    columns; the first repeats [x] along the rows, the second repeats [y]
    along the columns. *)
Definition meshgrid {A} (x y : list A) : array2 A * array2 A :=
  (map (fun _ => x) y, map (fun yi => map (fun _ => yi) x) y).

End np.

(** ** The OpenCV ([cv]) operations used *)

Module cv.

Inductive Depth := IPL_DEPTH_8U | IPL_DEPTH_32F.

Definition Depth_eqb (a b : Depth) : bool :=
  match a, b with
  | IPL_DEPTH_8U, IPL_DEPTH_8U | IPL_DEPTH_32F, IPL_DEPTH_32F => true
  | _, _ => false
  end.

(** An image (or the matrix header of a sub-rectangle): its geometry and
    the sample stored at row [y], column [x], channel [c]. *)
Record IplImage := mkImage {
  width : Z;
  height : Z;
  depth : Depth;
  nChannels : Z;
  data : Z -> Z -> Z -> R
}.

(** A filter kernel ([CvMat] of type [CV_32FC1]): the list of its rows. *)
Definition CvMat : Type := list (list R).

(** [cv.CreateMat(rows, cols, cv.CV_32FC1)]: a matrix without columns is
    refused ("Non-positive width or height"). *)
Definition CreateMat (rows cols : nat) : option CvMat :=
  if (cols =? 0)%nat then None else Some (repeat (repeat 0 cols) rows).

Definition CvScalar : Type := R * R * R * R.
Definition val0 (s : CvScalar) : R := fst (fst (fst s)).

Definition same_size (a b : IplImage) : bool :=
  (width a =? width b)%Z && (height a =? height b)%Z.

Definition same_type (a b : IplImage) : bool :=
  Depth_eqb (depth a) (depth b) && (nChannels a =? nChannels b)%Z.

Definition in_image (arr : IplImage) (row col : Z) : bool :=
  (0 <=? row)%Z && (row <? height arr)%Z && (0 <=? col)%Z && (col <? width arr)%Z.

(** [cv.CreateImage((w, h), depth, channels)]; the new buffer is not
    cleared, [mem] is what it happens to hold. *)
Definition CreateImage (mem : Z -> Z -> Z -> R) (size : Z * Z) (d : Depth)
    (channels : Z) : option IplImage :=
  if (fst size <? 0)%Z || (snd size <? 0)%Z then None
  else Some (mkImage (fst size) (snd size) d channels mem).

Definition CloneImage (img : IplImage) : IplImage := img.

(** [cv.Get2D(arr, idx0, idx1)]: the sample at row [idx0], column [idx1];
    indices outside the array raise. *)
Definition Get2D (arr : IplImage) (idx0 idx1 : Z) : option CvScalar :=
  if in_image arr idx0 idx1 then
    let ch c := if (c <? nChannels arr)%Z then data arr idx0 idx1 c else 0 in
    Some (ch 0%Z, ch 1%Z, ch 2%Z, ch 3%Z)
  else None.

Definition clamp (lo hi v : Z) : Z := Z.max lo (Z.min hi v).

Definition Rsum (l : list R) : R := foldr Rplus 0 l.

(** [cv.Filter2D(src, dst, kernel)] with [dst] of the geometry of [src]:
    correlation with the kernel anchored at its centre, border samples
    replicated. *)
Definition Filter2D (src : IplImage) (kernel : CvMat) : IplImage :=
  let ay := (Z.of_nat (length kernel) / 2)%Z in
  let ax := (Z.of_nat (length (hd [] kernel)) / 2)%Z in
  mkImage (width src) (height src) (depth src) (nChannels src)
    (fun y x c =>
       Rsum (imap (fun i row =>
         Rsum (imap (fun j k =>
           k * data src (clamp 0 (height src - 1) (y + Z.of_nat i - ay))
                        (clamp 0 (width src - 1) (x + Z.of_nat j - ax)) c)
           row)) kernel)).

(** [cv.Mul(src1, src2, dst)] and [cv.Add(src1, src2, dst)]: all three
    arrays must agree in size and type; the result is what [dst] holds
    afterwards. *)
Definition pointwise (op : R -> R -> R) (src1 src2 dst : IplImage)
  : option IplImage :=
  if same_size src1 src2 && same_type src1 src2
     && same_size src1 dst && same_type src1 dst
  then Some (mkImage (width dst) (height dst) (depth dst) (nChannels dst)
               (fun y x c => op (data src1 y x c) (data src2 y x c)))
  else None.

Definition Mul := pointwise Rmult.
Definition Add := pointwise Rplus.

(** Pixel positions [(x, y)] in scanning order: row by row. *)
Definition positions (arr : IplImage) : list (Z * Z) :=
  y ← Zrange 0 (height arr); x ← Zrange 0 (width arr); [(x, y)].

Definition sample (arr : IplImage) (p : Z * Z) : R := data arr (snd p) (fst p) 0%Z.

(** The first position in scanning order holding the largest (smallest)
    sample. *)
Definition argmax (arr : IplImage) (first : Z * Z) (rest : list (Z * Z)) : Z * Z :=
  fold_left (fun best p => if Rlt_dec (sample arr best) (sample arr p) then p else best)
            rest first.

Definition argmin (arr : IplImage) (first : Z * Z) (rest : list (Z * Z)) : Z * Z :=
  fold_left (fun best p => if Rlt_dec (sample arr p) (sample arr best) then p else best)
            rest first.

(** [cv.MinMaxLoc(arr)] = [(min_val, max_val, min_loc, max_loc)] of a
    single-channel array; locations are [(x, y)]. *)
Definition MinMaxLoc (arr : IplImage) : option (R * R * (Z * Z) * (Z * Z)) :=
  if (nChannels arr =? 1)%Z then
    match positions arr with
    | [] => None
    | p :: ps =>
        let min_loc := argmin arr p ps in
        let max_loc := argmax arr p ps in
        Some (sample arr min_loc, sample arr max_loc, min_loc, max_loc)
    end
  else None.

(** [cv.GetSubRect(arr, (x, y, w, h))]: the rectangle must lie inside the
    array. *)
Definition GetSubRect (arr : IplImage) (rect : Z * Z * Z * Z) : option IplImage :=
  let '(x, y, w, h) := rect in
  if (0 <=? x)%Z && (0 <=? y)%Z && (0 <=? w)%Z && (0 <=? h)%Z
     && (x + w <=? width arr)%Z && (y + h <=? height arr)%Z
  then Some (mkImage w h (depth arr) (nChannels arr)
               (fun r c ch => data arr (y + r) (x + c) ch))
  else None.

(** [cv.ConvertScale(src, dst)] with unit scale and no shift: the samples
    of [src] stored at the depth of [dst]; sizes and channel counts must
    agree. *)
Definition ConvertScale (src dst : IplImage) : option IplImage :=
  if same_size src dst && (nChannels src =? nChannels dst)%Z
  then Some (mkImage (width dst) (height dst) (depth dst) (nChannels dst) (data src))
  else None.

(** [cv.CvtColor(src, dst, cv.CV_RGB2GRAY)]: three channels to one, same
    size and depth. *)
Definition CvtColor_RGB2GRAY (src dst : IplImage) : option IplImage :=
  if same_size src dst && Depth_eqb (depth src) (depth dst)
     && (nChannels src =? 3)%Z && (nChannels dst =? 1)%Z
  then Some (mkImage (width dst) (height dst) (depth dst) 1
               (fun y x _ => 0.299 * data src y x 0%Z + 0.587 * data src y x 1%Z
                             + 0.114 * data src y x 2%Z))
  else None.

End cv.

(** What is taken from the OpenCV run time as it is: the content of a newly
    created buffer, the interpolation of [cv.Resize] and the rasterisation
    of [cv.Circle] and [cv.Line]. *)
Class CvRuntime := {
  uninitialised : Z -> Z -> Z -> R;
  resample : cv.IplImage -> Z -> Z -> Z -> Z -> Z -> R;
  circle : cv.IplImage -> Z * Z -> Z -> R * R * R -> Z -> Z -> Z -> Z -> R;
  line : cv.IplImage -> Z * Z -> Z * Z -> R * R * R -> Z -> Z -> Z -> Z -> R
}.

Section RunTime.
Context `{CvRuntime}.
Import cv.

(** [cv.Resize(src, dst)]: [src] resampled to the geometry of [dst];
    both must be non-empty and of one type. *)
Definition Resize (src dst : IplImage) : option IplImage :=
  if same_type src dst
     && (0 <? width src)%Z && (0 <? height src)%Z
     && (0 <? width dst)%Z && (0 <? height dst)%Z
  then Some (mkImage (width dst) (height dst) (depth dst) (nChannels dst)
               (resample src (width dst) (height dst)))
  else None.

(** [cv.Circle(img, center, radius, color, thickness)] *)
Definition Circle (img : IplImage) (center : Z * Z) (radius : Z)
    (color : R * R * R) (thickness : Z) : IplImage :=
  mkImage (width img) (height img) (depth img) (nChannels img)
    (circle img center radius color thickness).

(** [cv.Line(img, pt1, pt2, color, thickness)] *)
Definition Line (img : IplImage) (pt1 pt2 : Z * Z) (color : R * R * R)
    (thickness : Z) : IplImage :=
  mkImage (width img) (height img) (depth img) (nChannels img)
    (line img pt1 pt2 color thickness).
End RunTime.

(** ** class MarkerTracker *)

Module MarkerTracker.
Import cv.

Record state := mkState {
  order : nat;
  matReal : CvMat;
  matImag : CvMat;
  lastMarkerLocation : option (Z * Z);
  orientation : option R;
  newFrameImage32F : option IplImage;
  frameReal : option IplImage;
  frameImag : option IplImage;
  frameRealSq : option IplImage;
  frameImagSq : option IplImage;
  frameSumSq : option IplImage
}.

(** [generateSymmetryDetectorKernel(self, order, kernelsize)]; the method
    reads nothing of [self].  The grid is the array of doubles that
    [np.linspace] computes; the complex arithmetic on it is exact. *)
Definition generateSymmetryDetectorKernel (order kernelsize : nat)
  : np.array2 R * np.array2 R :=
  let valueRange := np.linspace (-1) 1 kernelsize in
  let temp1 := np.meshgrid valueRange valueRange in
  let kernel :=
    np.zip2 (fun x y => Cplus (RtoC (double.to_R x))
                              (Cmult Ci (RtoC (double.to_R y))))
            (fst temp1) (snd temp1) in
  let magni := np.map2 Cabs kernel in
  let kernel := np.map2 (fun z => Cpow z order) kernel in
  let kernel :=
    np.zip2 (fun z m => Cmult z (RtoC (exp (-8 * m ^ 2)))) kernel magni in
  (np.map2 Re kernel, np.map2 Im kernel).

(** The two nested [for] loops of [__init__], which store
    [kernel[i][j] / scaleFactor] at row [i], column [j]. *)
Definition scaled_entries (kernelSize : nat) (kernel : np.array2 R)
    (scaleFactor : R) : CvMat :=
  map (fun i => map (fun j => nth j (nth i kernel []) 0 / scaleFactor)
                    (seq 0 kernelSize))
      (seq 0 kernelSize).

(** The tracker that [__init__] leaves once both matrices exist: the
    loops assign every entry of them.  The scale factor is a non-zero
    number (dividing by 0.0 stores infinities and NaN, which [R] has
    not). *)
Definition built (order kernelSize : nat) (scaleFactor : R) : state :=
  let kernels := generateSymmetryDetectorKernel order kernelSize in
  let kernelReal := fst kernels in
  let kernelImag := snd kernels in
  {| order := order;
     matReal := scaled_entries kernelSize kernelReal scaleFactor;
     matImag := scaled_entries kernelSize kernelImag scaleFactor;
     lastMarkerLocation := None;
     orientation := None;
     newFrameImage32F := None;
     frameReal := None; frameImag := None;
     frameRealSq := None; frameImagSq := None; frameSumSq := None |}.

(** [__init__(self, order, kernelSize, scaleFactor)]; it raises when
    [cv.CreateMat] refuses the size. *)
Definition init (order kernelSize : nat) (scaleFactor : R) : option state :=
  _ ← CreateMat kernelSize kernelSize;
  _ ← CreateMat kernelSize kernelSize;
  Some (built order kernelSize scaleFactor).

(** [allocateSpaceGivenFirstFrame(self, frame)] *)
Definition allocateSpaceGivenFirstFrame `{CvRuntime} (self : state)
    (frame : IplImage) : option state :=
  let size := (width frame, height frame) in
  a ← CreateImage uninitialised size IPL_DEPTH_32F 3;
  b ← CreateImage uninitialised size IPL_DEPTH_32F 1;
  Some {| order := order self; matReal := matReal self; matImag := matImag self;
          lastMarkerLocation := lastMarkerLocation self;
          orientation := orientation self;
          newFrameImage32F := Some a;
          frameReal := Some b; frameImag := Some b;
          frameRealSq := Some b; frameImagSq := Some b; frameSumSq := Some b |}.

(** The number of turns still to add (to take away) bounds the iterations
    of the loops of [limitAngleToRange]. *)
Definition turns_below (angle : R) : nat :=
  Z.to_nat (Zceil ((PI - angle) / (2 * PI))).
Definition turns_above (angle : R) : nat :=
  Z.to_nat (Zceil ((angle - PI) / (2 * PI))).

(** [while(angle < math.pi): angle += 2*math.pi], on an angle taken as a
    real number, as are the angles that [determineMarkerOrientation]
    computes; the loop on doubles is [InDoubles.raise_loop]. *)
Equations? raise_loop (angle : R) : R by wf (turns_below angle) lt :=
  raise_loop angle with Rlt_dec angle PI := {
    | left _ => raise_loop (angle + 2 * PI);
    | right _ => angle }.
Proof.
  unfold turns_below.
  assert (Hpi := PI_RGT_0).
  replace ((PI - (angle + 2 * PI)) / (2 * PI))
    with ((PI - angle) / (2 * PI) + IZR (-1)) by (field; lra).
  rewrite Zceil_addz.
  assert (0 < (PI - angle) / (2 * PI)) by (apply Rdiv_lt_0_compat; lra).
  assert (0 < Zceil ((PI - angle) / (2 * PI)))%Z.
  { apply lt_IZR. destruct (Zceil_bound ((PI - angle) / (2 * PI))). lra. }
  lia.
Qed.

(** [while(angle > math.pi): angle -= 2*math.pi], on a real number; the
    loop on doubles is [InDoubles.lower_loop]. *)
Equations? lower_loop (angle : R) : R by wf (turns_above angle) lt :=
  lower_loop angle with Rgt_dec angle PI := {
    | left _ => lower_loop (angle - 2 * PI);
    | right _ => angle }.
Proof.
  unfold turns_above.
  assert (Hpi := PI_RGT_0).
  replace ((angle - 2 * PI - PI) / (2 * PI))
    with ((angle - PI) / (2 * PI) + IZR (-1)) by (field; lra).
  rewrite Zceil_addz.
  assert (0 < (angle - PI) / (2 * PI)) by (apply Rdiv_lt_0_compat; lra).
  assert (0 < Zceil ((angle - PI) / (2 * PI)))%Z.
  { apply lt_IZR. destruct (Zceil_bound ((angle - PI) / (2 * PI))). lra. }
  lia.
Qed.

(** [limitAngleToRange(self, angle)] *)
Definition limitAngleToRange (angle : R) : R := lower_loop (raise_loop angle).

(** The probe point of a candidate orientation. *)
Definition probe_point (xm ym : Z) (orient : R) : Z * Z :=
  (py_int (IZR xm + 30 * cos orient), py_int (IZR ym + 30 * sin orient)).

(** One pass through the body of the [for k in range(self.order)] loop of
    [determineMarkerOrientation]; [best] is [(maxValue, maxOrient)]. *)
Definition probe (frame : IplImage) (xm ym : Z) (base : R) (order : nat)
    (best : R * R) (k : nat) : R * R :=
  let orient := base + 2 * INR k * PI / INR order in
  let '(xm2, ym2) := probe_point xm ym orient in
  match Get2D frame ym2 xm2 with
  | Some intensity =>
      if Rgt_dec (val0 intensity) (fst best) then (val0 intensity, orient) else best
  | None => best
  end.

(** [determineMarkerOrientation(self, frame)] *)
Definition determineMarkerOrientation (self : state) (frame : IplImage)
  : option state :=
  '(xm, ym) ← lastMarkerLocation self;
  fR ← frameReal self;
  fI ← frameImag self;
  realval ← val0 <$> Get2D fR ym xm;
  imagval ← val0 <$> Get2D fI ym xm;
  if (order self =? 0)%nat then None else
  let base := (atan2 (- realval) imagval - PI / 2) / INR (order self) in
  let '(maxValue, maxOrient) :=
    fold_left (probe frame xm ym base (order self)) (seq 0 (order self)) (0, 0) in
  Some {| order := order self; matReal := matReal self; matImag := matImag self;
          lastMarkerLocation := lastMarkerLocation self;
          orientation := Some (limitAngleToRange maxOrient);
          newFrameImage32F := newFrameImage32F self;
          frameReal := frameReal self; frameImag := frameImag self;
          frameRealSq := frameRealSq self; frameImagSq := frameImagSq self;
          frameSumSq := frameSumSq self |}.

(** [locateMarker(self, frame)] *)
Definition locateMarker (self : state) (frame : IplImage)
  : option (state * (Z * Z)) :=
  let fR := Filter2D (CloneImage frame) (matReal self) in
  let fI := Filter2D (CloneImage frame) (matImag self) in
  realSq ← frameRealSq self ≫= Mul fR fR;
  imagSq ← frameImagSq self ≫= Mul fI fI;
  sumSq ← frameSumSq self ≫= Add realSq imagSq;
  '(min_val, max_val, min_loc, max_loc) ← MinMaxLoc sumSq;
  self' ← determineMarkerOrientation
    {| order := order self; matReal := matReal self; matImag := matImag self;
       lastMarkerLocation := Some max_loc;
       orientation := orientation self;
       newFrameImage32F := newFrameImage32F self;
       frameReal := Some fR; frameImag := Some fI;
       frameRealSq := Some realSq; frameImagSq := Some imagSq;
       frameSumSq := Some sumSq |} frame;
  Some (self', max_loc).

(** The same method on the doubles it is given.  The loops need not end:
    [fuel] bounds the number of times a loop condition is tested, and
    [None] says that a loop was still running when it was used up. *)
Module InDoubles.

(** [2*math.pi] *)
Definition two_pi : float := (2 * double.pi)%float.

(** [while(angle < math.pi): angle += 2*math.pi] *)
Fixpoint raise_loop (fuel : nat) (angle : float) : option float :=
  match fuel with
  | O => None
  | S fuel' =>
      if (angle <? double.pi)%float then raise_loop fuel' (angle + two_pi)%float
      else Some angle
  end.

(** [while(angle > math.pi): angle -= 2*math.pi] *)
Fixpoint lower_loop (fuel : nat) (angle : float) : option float :=
  match fuel with
  | O => None
  | S fuel' =>
      if (double.pi <? angle)%float then lower_loop fuel' (angle - two_pi)%float
      else Some angle
  end.

(** [limitAngleToRange(self, angle)] *)
Definition limitAngleToRange (fuel : nat) (angle : float) : option float :=
  angle ← raise_loop fuel angle; lower_loop fuel angle.

End InDoubles.

End MarkerTracker.

(** Lines written to the console. *)
Inductive ConsoleLine :=
| PrintFrame (d : cv.Depth)
| PrintOriginalImage (h w : Z)
| PrintFrameGray (h w : Z) (d : cv.Depth)
| PrintUnexpectedError
| PrintResetting
| PrintSavingImage
| PrintLocation (i x y : Z) (o : R).

(** [l[k] = v]; an index past the end raises. *)
Definition list_assign {A} (l : list A) (k : nat) (v : A) : option (list A) :=
  if (k <? length l)%nat then Some (<[k := v]> l) else None.

(** A [for] loop whose body may raise: the first exception ends it. *)
Fixpoint for_each {S : Type} (body : S -> nat -> option S) (ks : list nat)
    (s : S) : option S :=
  match ks with
  | [] => Some s
  | k :: ks' => body s k ≫= for_each body ks'
  end.

(** ** class ImageAnalyzer *)

Module ImageAnalyzer.
Import cv.

(** The attributes [tempImage] and [greyScaleImage] are set to [None] by
    the constructor and never used; they are left out. *)
Record state := mkState {
  downscaleFactor : Z;
  markerTrackers : list MarkerTracker.state;
  subClassesInitialized : bool;
  markerLocationsX : list Z;
  markerLocationsY : list Z;
  frameGray : option IplImage;
  originalImage : option IplImage;
  reducedImage : option IplImage
}.

(** [__init__(self, downscaleFactor = 2)] *)
Definition init (downscaleFactor : Z) : state :=
  {| downscaleFactor := downscaleFactor; markerTrackers := [];
     subClassesInitialized := false;
     markerLocationsX := []; markerLocationsY := [];
     frameGray := None; originalImage := None; reducedImage := None |}.

(** The analyzer with one more tracker [t] and one more location. *)
Definition with_tracker (self : state) (t : MarkerTracker.state) : state :=
  {| downscaleFactor := downscaleFactor self;
     markerTrackers := markerTrackers self ++ [t];
     subClassesInitialized := false;
     markerLocationsX := markerLocationsX self ++ [0%Z];
     markerLocationsY := markerLocationsY self ++ [0%Z];
     frameGray := frameGray self; originalImage := originalImage self;
     reducedImage := reducedImage self |}.

(** [addMarkerToTrack(self, order, kernelSize, scaleFactor)] *)
Definition addMarkerToTrack (self : state) (order kernelSize : nat)
    (scaleFactor : R) : option state :=
  t ← MarkerTracker.init order kernelSize scaleFactor;
  Some (with_tracker self t).

(** [initializeSubClasses(self, frame)]; the divisions are integer
    divisions, by zero they raise. *)
Definition initializeSubClasses `{CvRuntime} (self : state) (frame : IplImage)
  : option state :=
  if (downscaleFactor self =? 0)%Z then None else
  let reducedWidth := (width frame / downscaleFactor self)%Z in
  let reducedHeight := (height frame / downscaleFactor self)%Z in
  let reducedDimensions := (reducedWidth, reducedHeight) in
  gray ← CreateImage uninitialised reducedDimensions IPL_DEPTH_32F 1;
  orig ← CreateImage uninitialised reducedDimensions IPL_DEPTH_32F 3;
  red ← CreateImage uninitialised reducedDimensions (depth frame) (nChannels frame);
  trackers ← mapM (fun t => MarkerTracker.allocateSpaceGivenFirstFrame t red)
                  (markerTrackers self);
  Some {| downscaleFactor := downscaleFactor self;
          markerTrackers := trackers;
          subClassesInitialized := true;
          markerLocationsX := markerLocationsX self;
          markerLocationsY := markerLocationsY self;
          frameGray := Some gray; originalImage := Some orig;
          reducedImage := Some red |}.

(** The body of the [for k in range(len(self.markerTrackers))] loop of
    [analyzeImage]; [acc] holds the trackers and the two location lists. *)
Definition locate_kth (factor : Z) (gray : IplImage)
    (acc : list MarkerTracker.state * list Z * list Z) (k : nat)
  : option (list MarkerTracker.state * list Z * list Z) :=
  let '(trackers, xs, ys) := acc in
  t ← trackers !! k;
  '(t', (xm, ym)) ← MarkerTracker.locateMarker t gray;
  xs' ← list_assign xs k (factor * xm)%Z;
  ys' ← list_assign ys k (factor * ym)%Z;
  Some (<[k := t']> trackers, xs', ys').

(** [analyzeImage(self, frame)] *)
Definition analyzeImage `{CvRuntime} (self : state) (frame : IplImage)
  : option (state * IplImage) :=
  if negb (nChannels frame =? 3)%Z then None else
  self ← (if subClassesInitialized self then Some self
          else initializeSubClasses self frame);
  red ← reducedImage self ≫= Resize frame;
  orig ← originalImage self ≫= ConvertScale red;
  gray ← frameGray self ≫= CvtColor_RGB2GRAY orig;
  '(trackers, xs, ys) ←
    for_each (locate_kth (downscaleFactor self) gray)
             (seq 0 (length (markerTrackers self)))
             (markerTrackers self, markerLocationsX self, markerLocationsY self);
  Some ({| downscaleFactor := downscaleFactor self;
           markerTrackers := trackers;
           subClassesInitialized := subClassesInitialized self;
           markerLocationsX := xs; markerLocationsY := ys;
           frameGray := Some gray; originalImage := Some orig;
           reducedImage := Some red |}, frame).

End ImageAnalyzer.

(** ** class TrackerInWindowMode *)

Module TrackerInWindowMode.
Import cv.

(** [reducedImage] is either a buffer of its own or, after
    [cv.GetSubRect], a header over the pixels of the frame that was
    cropped: what is drawn into it is drawn into that frame. *)
Inductive image_ref :=
| Buffer (img : IplImage)
| SubRectOfFrame (rect : Z * Z * Z * Z).

Record state := mkState {
  windowWidth : Z;
  windowHeight : Z;
  frameGray : IplImage;
  originalImage : IplImage;
  markerTracker : MarkerTracker.state;
  trackerIsInitialized : bool;
  subImagePosition : option (Z * Z * Z * Z);
  reducedImage : option image_ref
}.

(** [__init__(self, order = 7)] *)
Definition init `{CvRuntime} (order : nat) : option state :=
  let windowWidth := 100%Z in
  let windowHeight := 100%Z in
  gray ← CreateImage uninitialised (windowWidth, windowHeight) IPL_DEPTH_32F 1;
  orig ← CreateImage uninitialised (windowWidth, windowHeight) IPL_DEPTH_32F 3;
  tracker ← MarkerTracker.init order 21 2500;
  Some {| windowWidth := windowWidth; windowHeight := windowHeight;
          frameGray := gray; originalImage := orig;
          markerTracker := tracker;
          trackerIsInitialized := false;
          subImagePosition := None; reducedImage := None |}.

(** What the [except] branch of [cropFrame] prints. *)
Definition failure_report (self : state) (frame : IplImage) : list ConsoleLine :=
  [ PrintFrame (depth frame);
    PrintOriginalImage (height (originalImage self)) (width (originalImage self));
    PrintFrameGray (height (frameGray self)) (width (frameGray self))
                   (depth (frameGray self));
    PrintUnexpectedError ].

(** The corner of the window that [cropFrame] computes before its [try]
    block. *)
Definition window_corner (self : state) (frame : IplImage)
    (lastMarkerLocationX lastMarkerLocationY : Z) : Z * Z :=
  let xCornerPos := (lastMarkerLocationX - windowWidth self / 2)%Z in
  let yCornerPos := (lastMarkerLocationY - windowHeight self / 2)%Z in
  let xCornerPos := if (xCornerPos <? 1)%Z then 1%Z else xCornerPos in
  let yCornerPos := if (yCornerPos <? 1)%Z then 1%Z else yCornerPos in
  let xCornerPos :=
    if (xCornerPos >? width frame - windowWidth self)%Z
    then (width frame - windowWidth self)%Z else xCornerPos in
  let yCornerPos :=
    if (yCornerPos >? height frame - windowHeight self)%Z
    then (height frame - windowHeight self)%Z else yCornerPos in
  (xCornerPos, yCornerPos).

(** The [try] block of [cropFrame]: each statement works on the state the
    previous ones left; the first that raises hands this state to the
    [except] branch. *)
Definition try_crop (self : state) (frame : IplImage) (rect : Z * Z * Z * Z)
  : state * list ConsoleLine :=
  let s1 := {| windowWidth := windowWidth self; windowHeight := windowHeight self;
               frameGray := frameGray self; originalImage := originalImage self;
               markerTracker := markerTracker self;
               trackerIsInitialized := trackerIsInitialized self;
               subImagePosition := Some rect;
               reducedImage := reducedImage self |} in
  match GetSubRect frame rect with
  | None => (s1, failure_report s1 frame)
  | Some sub =>
      let s2 := {| windowWidth := windowWidth s1; windowHeight := windowHeight s1;
                   frameGray := frameGray s1; originalImage := originalImage s1;
                   markerTracker := markerTracker s1;
                   trackerIsInitialized := trackerIsInitialized s1;
                   subImagePosition := subImagePosition s1;
                   reducedImage := Some (SubRectOfFrame rect) |} in
      match ConvertScale sub (originalImage s2) with
      | None => (s2, failure_report s2 frame)
      | Some orig =>
          let s3 := {| windowWidth := windowWidth s2; windowHeight := windowHeight s2;
                       frameGray := frameGray s2; originalImage := orig;
                       markerTracker := markerTracker s2;
                       trackerIsInitialized := trackerIsInitialized s2;
                       subImagePosition := subImagePosition s2;
                       reducedImage := reducedImage s2 |} in
          match CvtColor_RGB2GRAY orig (frameGray s3) with
          | None => (s3, failure_report s3 frame)
          | Some gray =>
              ({| windowWidth := windowWidth s3; windowHeight := windowHeight s3;
                  frameGray := gray; originalImage := originalImage s3;
                  markerTracker := markerTracker s3;
                  trackerIsInitialized := trackerIsInitialized s3;
                  subImagePosition := subImagePosition s3;
                  reducedImage := reducedImage s3 |}, [])
          end
      end
  end.

(** [cropFrame(self, frame, lastMarkerLocationX, lastMarkerLocationY)];
    [None] only if a statement before the [try] block raises. *)
Definition cropFrame `{CvRuntime} (self : state) (frame : IplImage)
    (lastMarkerLocationX lastMarkerLocationY : Z)
  : option (state * list ConsoleLine) :=
  self ← (if negb (trackerIsInitialized self) then
            mt ← MarkerTracker.allocateSpaceGivenFirstFrame
                   (markerTracker self) (originalImage self);
            red ← CreateImage uninitialised (windowWidth self, windowHeight self)
                              (depth frame) 3;
            Some {| windowWidth := windowWidth self;
                    windowHeight := windowHeight self;
                    frameGray := frameGray self;
                    originalImage := originalImage self;
                    markerTracker := mt;
                    trackerIsInitialized := trackerIsInitialized self;
                    subImagePosition := subImagePosition self;
                    reducedImage := Some (Buffer red) |}
          else Some self);
  let '(xCornerPos, yCornerPos) :=
    window_corner self frame lastMarkerLocationX lastMarkerLocationY in
  Some (try_crop self frame
          (xCornerPos, yCornerPos, windowWidth self, windowHeight self)).

(** The circle and the orientation line that [locateMarker] draws. *)
Definition draw_marker `{CvRuntime} (img : IplImage) (xm ym : Z) (orientation : R)
  : IplImage :=
  let img := Circle img (xm, ym) 4 (55, 55, 255) 2 in
  let xm2 := py_int (IZR xm + 50 * cos orientation) in
  let ym2 := py_int (IZR ym + 50 * sin orientation) in
  Line img (xm, ym) (xm2, ym2) (255, 0, 0) 2.

(** Writing through a sub-rectangle header: the pixels of [arr] inside
    [rect] become those of [sub]. *)
Definition write_through (arr : IplImage) (rect : Z * Z * Z * Z) (sub : IplImage)
  : IplImage :=
  let '(x0, y0, w, h) := rect in
  mkImage (width arr) (height arr) (depth arr) (nChannels arr)
    (fun y x c =>
       if (x0 <=? x)%Z && (x <? x0 + w)%Z && (y0 <=? y)%Z && (y <? y0 + h)%Z
       then data sub (y - y0) (x - x0) c else data arr y x c).

(** [locateMarker(self)]; [frame] is the frame last given to [cropFrame],
    returned with what was drawn into it. *)
Definition locateMarker `{CvRuntime} (self : state) (frame : IplImage)
  : option (state * IplImage * (Z * Z * R)) :=
  '(mt, (xm, ym)) ← MarkerTracker.locateMarker (markerTracker self) (frameGray self);
  orientation ← MarkerTracker.orientation mt;
  ref ← reducedImage self;
  '(ref', frame') ←
    match ref with
    | Buffer img => Some (Buffer (draw_marker img xm ym orientation), frame)
    | SubRectOfFrame rect =>
        sub ← GetSubRect frame rect;
        Some (ref, write_through frame rect (draw_marker sub xm ym orientation))
    end;
  '(x0, y0, _, _) ← subImagePosition self;
  Some ({| windowWidth := windowWidth self; windowHeight := windowHeight self;
           frameGray := frameGray self; originalImage := originalImage self;
           markerTracker := mt;
           trackerIsInitialized := trackerIsInitialized self;
           subImagePosition := subImagePosition self;
           reducedImage := Some ref' |},
        frame', ((xm + x0)%Z, (ym + y0)%Z, orientation)).

(** [showCroppedImage(self)] does nothing. *)
Definition showCroppedImage (self : state) : state := self.

End TrackerInWindowMode.

(** ** class CameraDriver *)

Module CameraDriver.
Import cv.

(** A marker location [[x, y, orientation]]. *)
Abbreviation location := (Z * Z * R)%type.

(** [processedFrame] is the object that [analyzeImage] returned, which is
    the frame it was given: the current frame itself until [getImage]
    stores a new one. *)
Inductive processed_ref :=
| TheCurrentFrame
| EarlierFrame (img : IplImage).

Inductive Effect :=
| Console (l : ConsoleLine)
| ShowImage (window : string) (img : IplImage)
| SaveImage (number : Z) (img : IplImage).

Record state := mkState {
  currentFrame : option IplImage;
  processedFrame : option processed_ref;
  running : bool;
  trackers : list ImageAnalyzer.state;
  windowedTrackers : list TrackerInWindowMode.state;
  oldLocations : list (option location);
  cnt : Z;
  defaultOrientation : R
}.

Definition set_frames (self : state) (cur : option IplImage)
    (proc : option processed_ref) : state :=
  {| currentFrame := cur; processedFrame := proc;
     running := running self; trackers := trackers self;
     windowedTrackers := windowedTrackers self;
     oldLocations := oldLocations self; cnt := cnt self;
     defaultOrientation := defaultOrientation self |}.

Definition set_oldLocations (self : state) (locs : list (option location))
  : state :=
  {| currentFrame := currentFrame self; processedFrame := processedFrame self;
     running := running self; trackers := trackers self;
     windowedTrackers := windowedTrackers self;
     oldLocations := locs; cnt := cnt self;
     defaultOrientation := defaultOrientation self |}.

(** The body of the [for markerOrder in markerOrders] loop of [__init__]. *)
Definition add_marker `{CvRuntime} (defaultKernelSize : nat)
    (scalingParameter : R) (acc : option state) (markerOrder : nat)
  : option state :=
  self ← acc;
  let temp := ImageAnalyzer.init 1 in
  temp ← ImageAnalyzer.addMarkerToTrack temp markerOrder defaultKernelSize
                                        scalingParameter;
  w ← TrackerInWindowMode.init markerOrder;
  Some {| currentFrame := currentFrame self;
          processedFrame := processedFrame self;
          running := running self;
          trackers := trackers self ++ [temp];
          windowedTrackers := windowedTrackers self ++ [w];
          oldLocations := oldLocations self ++ [None];
          cnt := cnt self;
          defaultOrientation := defaultOrientation self |}.

(** [__init__(self, markerOrders = [7, 8], defaultKernelSize = 21,
    scalingParameter = 2500)] *)
Definition init `{CvRuntime} (markerOrders : list nat) (defaultKernelSize : nat)
    (scalingParameter : R) : option state :=
  fold_left (add_marker defaultKernelSize scalingParameter) markerOrders
    (Some {| currentFrame := None; processedFrame := None; running := true;
             trackers := []; windowedTrackers := []; oldLocations := [];
             cnt := 0; defaultOrientation := 0 |}).

(** [getImage(self)]; [frame] is what [cv.QueryFrame] delivers. *)
Definition getImage (self : state) (frame : option IplImage) : state :=
  let proc :=
    match processedFrame self, currentFrame self with
    | Some TheCurrentFrame, Some old => Some (EarlierFrame old)
    | Some TheCurrentFrame, None => None
    | other, _ => other
    end in
  set_frames self frame proc.

(** The body of the [for k in range(len(self.trackers))] loop of
    [processFrame]. *)
Definition process_kth `{CvRuntime} (acc : state * list ConsoleLine) (k : nat)
  : option (state * list ConsoleLine) :=
  let '(self, out) := acc in
  old ← oldLocations self !! k;
  match old with
  | None =>
      tracker ← trackers self !! k;
      frame ← currentFrame self;
      '(tracker', frame') ← ImageAnalyzer.analyzeImage tracker frame;
      markerX ← ImageAnalyzer.markerLocationsX tracker' !! 0%nat;
      markerY ← ImageAnalyzer.markerLocationsY tracker' !! 0%nat;
      locs ← list_assign (oldLocations self) k
                 (Some (markerX, markerY, defaultOrientation self));
      Some ({| currentFrame := Some frame';
               processedFrame := Some TheCurrentFrame;
               running := running self;
               trackers := <[k := tracker']> (trackers self);
               windowedTrackers := windowedTrackers self;
               oldLocations := locs; cnt := cnt self;
               defaultOrientation := defaultOrientation self |}, out)
  | Some (x, y, _) =>
      w ← windowedTrackers self !! k;
      frame ← currentFrame self;
      '(w1, printed) ← TrackerInWindowMode.cropFrame w frame x y;
      '(w2, frame', loc) ← TrackerInWindowMode.locateMarker w1 frame;
      locs ← list_assign (oldLocations self) k (Some loc);
      Some ({| currentFrame := Some frame';
               processedFrame := processedFrame self;
               running := running self;
               trackers := trackers self;
               windowedTrackers :=
                 <[k := TrackerInWindowMode.showCroppedImage w2]>
                   (windowedTrackers self);
               oldLocations := locs; cnt := cnt self;
               defaultOrientation := defaultOrientation self |},
            out ++ printed)
  end.

(** [processFrame(self)] *)
Definition processFrame `{CvRuntime} (self : state)
  : option (state * list ConsoleLine) :=
  for_each process_kth (seq 0 (length (trackers self))) (self, []).

(** The body of the loop of [drawDetectedMarkers], drawing into [img]. *)
Definition draw_kth `{CvRuntime} (locs : list (option location))
    (img : IplImage) (k : nat) : option IplImage :=
  '(xm, ym, _) ← mjoin (locs !! k);
  let img := Circle img (xm, ym) 4 (55, 55, 255) 2 in
  let xm2 := (xm + 20)%Z in
  let ym2 := (ym + 20)%Z in
  Some (Line img (xm, ym) (xm2, ym2) (255, 0, 0) 2).

(** [drawDetectedMarkers(self)] *)
Definition drawDetectedMarkers `{CvRuntime} (self : state) : option state :=
  let ks := seq 0 (length (trackers self)) in
  match ks with
  | [] => Some self
  | _ =>
      match processedFrame self with
      | None => None
      | Some TheCurrentFrame =>
          img ← currentFrame self;
          img' ← for_each (draw_kth (oldLocations self)) ks img;
          Some (set_frames self (Some img') (Some TheCurrentFrame))
      | Some (EarlierFrame img) =>
          img' ← for_each (draw_kth (oldLocations self)) ks img;
          Some (set_frames self (currentFrame self) (Some (EarlierFrame img')))
      end
  end.

(** [showProcessedFrame(self)] *)
Definition showProcessedFrame (self : state) : option (list Effect) :=
  match processedFrame self with
  | None => None
  | Some TheCurrentFrame => img ← currentFrame self; Some [ShowImage "filterdemo" img]
  | Some (EarlierFrame img) => Some [ShowImage "filterdemo" img]
  end.

(** [resetAllLocations(self)] *)
Definition resetAllLocations (self : state) : option state :=
  locs ← for_each (fun locs k => list_assign locs k None)
            (seq 0 (length (trackers self))) (oldLocations self);
  Some (set_oldLocations self locs).

(** [handleKeyboardEvents(self)]; [key] is what [cv.WaitKey(20)] returns.
    The image is saved under ["output/filename%03d.png" % self.cnt]. *)
Definition handleKeyboardEvents (self : state) (key : Z)
  : option (state * list Effect) :=
  let key := Z.land key 255 in
  let self :=
    if (key =? 27)%Z then
      {| currentFrame := currentFrame self; processedFrame := processedFrame self;
         running := false; trackers := trackers self;
         windowedTrackers := windowedTrackers self;
         oldLocations := oldLocations self; cnt := cnt self;
         defaultOrientation := defaultOrientation self |}
    else self in
  '(self, out) ←
    (if (key =? 114)%Z then
       self' ← resetAllLocations self; Some (self', [Console PrintResetting])
     else Some (self, []));
  if (key =? 115)%Z then
    frame ← currentFrame self;
    Some ({| currentFrame := currentFrame self;
             processedFrame := processedFrame self;
             running := running self; trackers := trackers self;
             windowedTrackers := windowedTrackers self;
             oldLocations := oldLocations self; cnt := (cnt self + 1)%Z;
             defaultOrientation := defaultOrientation self |},
          out ++ [Console PrintSavingImage; SaveImage (cnt self) frame])
  else Some (self, out).

(** [returnPositions(self)] *)
Definition returnPositions (self : state) : list (option location) :=
  oldLocations self.

End CameraDriver.

(** ** The ROS interfaces used *)

Module ros.

Record Quaternion := mkQuaternion { qx : R; qy : R; qz : R; qw : R }.

Record Point := mkPoint { px : R; py : R; pz : R }.

(** The fields of [nav_msgs/Odometry] that the publisher sets; the others
    keep the values of a new message. *)
Record Odometry := mkOdometry {
  stamp : Z;
  position : Point;
  orientation : Quaternion
}.

(** [geometry_msgs/TransformStamped] *)
Record TransformStamped := mkTransform {
  header_stamp : Z;
  header_frame_id : string;
  child_frame_id : string;
  translation : R * R * R;
  rotation : Quaternion
}.

(** [tf.transformations.quaternion_from_euler(ai, aj, ak)] with the default
    axes ['sxyz']; the result is ordered [(x, y, z, w)]. *)
Definition quaternion_from_euler (ai aj ak : R) : Quaternion :=
  let ai := ai / 2 in
  let aj := aj / 2 in
  let ak := ak / 2 in
  let ci := cos ai in
  let si := sin ai in
  let cj := cos aj in
  let sj := sin aj in
  let ck := cos ak in
  let sk := sin ak in
  let cc := ci * ck in
  let cs := ci * sk in
  let sc := si * ck in
  let ss := si * sk in
  mkQuaternion (cj * sc - sj * cs) (cj * ss + sj * cc)
               (cj * cs - sj * sc) (cj * cc + sj * ss).

(** [tf.TransformBroadcaster.sendTransform(translation, rotation, time,
    child, parent)]: the message broadcast on [/tf]. *)
Definition sendTransform (translation : R * R * R) (rotation : Quaternion)
    (time : Z) (child parent : string) : TransformStamped :=
  {| header_stamp := time; header_frame_id := parent; child_frame_id := child;
     translation := translation; rotation := rotation |}.

End ros.

(** ** class RosPublisher *)

Module RosPublisher.
Import ros.

Inductive Effect :=
| Console (l : ConsoleLine)
| Publish (marker : Z) (msg : Odometry)
| Broadcast (msg : TransformStamped).

(** [pup] holds one publisher per marker, on the topic
    ['positionPuplisher' + str(i)]; a publisher is identified by its [i]. *)
Record state := mkState {
  pup : list Z;
  markers : list Z;
  odom : Odometry
}.

(** [__init__(self, markers)] *)
Definition init (markers : list Z) : state :=
  {| pup := fold_left (fun pup i => pup ++ [i]) markers [];
     markers := markers;
     odom := mkOdometry 0 (mkPoint 0 0 0) (mkQuaternion 0 0 0 0) |}.

(** What a call did before it returned or raised. *)
Inductive run (A : Type) :=
| Done (a : A) (out : list Effect)
| Raised (out : list Effect).
Arguments Done {A} a out.
Arguments Raised {A} out.

Definition effects {A} (r : run A) : list Effect :=
  match r with Done _ out | Raised out => out end.

(** The body of the [for i in self.markers] loop of
    [publishMarkerLocations] for the marker [i] at index [j]; [now n] is
    what the call number [n] of [rospy.Time.now()] returns, [clock] the
    number of calls made so far.  The orientation of a location is a
    float, or the integer 0 that [processFrame] seeds, whose half is 0 in
    integer division as well. *)
Definition publish_ith (now : nat -> Z)
    (locations : list (option CameraDriver.location))
    (self : state) (j clock : nat) (i : Z) : run state :=
  match mjoin (locations !! j) with
  | None => Raised []
  | Some (x, y, o) =>
      let printed := [Console (PrintLocation i x y o)] in
      let msg :=
        {| stamp := now clock;
           position := mkPoint (IZR x / 100) (IZR y / 100) 0;
           orientation := mkQuaternion (cos (o / 2)) 0 0 (sin (o / 2)) |} in
      match pup self !! j with
      | None => Raised printed
      | Some topic =>
          Done {| pup := pup self; markers := markers self; odom := msg |}
               (printed ++
                [ Publish topic msg;
                  Broadcast (sendTransform (IZR x / 100, IZR y / 100, 0)
                                           (quaternion_from_euler 0 0 o)
                                           (now (S clock)) "/odom" "/base_link") ])
      end
  end.

(** The loop itself, entered with index [j] for the markers [todo]. *)
Fixpoint publish_loop (now : nat -> Z)
    (locations : list (option CameraDriver.location))
    (todo : list Z) (self : state) (j clock : nat) : run state :=
  match todo with
  | [] => Done self []
  | i :: todo' =>
      match publish_ith now locations self j clock i with
      | Raised out => Raised out
      | Done self' out =>
          match publish_loop now locations todo' self' (S j) (S (S clock)) with
          | Raised out' => Raised (out ++ out')
          | Done self'' out' => Done self'' (out ++ out')
          end
      end
  end.

(** [publishMarkerLocations(self, locations)] *)
Definition publishMarkerLocations (now : nat -> Z) (self : state)
    (locations : list (option CameraDriver.location)) (clock : nat)
  : run state :=
  publish_loop now locations (markers self) self 0 clock.

End RosPublisher.

(** ** Example inputs *)

Module Examples.
Import cv.

(** A run time whose new buffers are cleared, whose [cv.Resize] takes the
    nearest sample and whose drawing leaves the image as it is. *)
Definition plain_runtime : CvRuntime :=
  {| uninitialised := fun _ _ _ => 0;
     resample := fun src w h y x c =>
       data src (y * height src / h)%Z (x * width src / w)%Z c;
     circle := fun img _ _ _ _ => data img;
     line := fun img _ _ _ _ => data img |}.

(** A black colour frame of the given size, as a camera delivers it. *)
Definition black_frame (w h : Z) : IplImage :=
  mkImage w h IPL_DEPTH_8U 3 (fun _ _ _ => 0).

(** The windowed tracker of a marker, as its constructor leaves it. *)
Definition window_tracker (order : nat) : TrackerInWindowMode.state :=
  {| TrackerInWindowMode.windowWidth := 100;
     TrackerInWindowMode.windowHeight := 100;
     TrackerInWindowMode.frameGray := mkImage 100 100 IPL_DEPTH_32F 1 (fun _ _ _ => 0);
     TrackerInWindowMode.originalImage := mkImage 100 100 IPL_DEPTH_32F 3 (fun _ _ _ => 0);
     TrackerInWindowMode.markerTracker := MarkerTracker.built order 21 2500;
     TrackerInWindowMode.trackerIsInitialized := false;
     TrackerInWindowMode.subImagePosition := None;
     TrackerInWindowMode.reducedImage := None |}.

Definition new_window_tracker : TrackerInWindowMode.state := window_tracker 7.

(** A grey image of 200 by 200 pixels, dark except for the pixel in column
    115 of row 126. *)
Definition spot_frame : IplImage :=
  mkImage 200 200 IPL_DEPTH_32F 1
    (fun y x _ => if (x =? 115)%Z && (y =? 126)%Z then 1 else 0).

(** A dark grey image of the size of the search window. *)
Definition dark_window : IplImage :=
  mkImage 100 100 IPL_DEPTH_32F 1 (fun _ _ _ => 0).

(** A marker tracker of order 7 with buffers for the search window, which
    last found its marker at (50, 50). *)
Definition window_marker_tracker : MarkerTracker.state :=
  {| MarkerTracker.order := 7;
     MarkerTracker.matReal := MarkerTracker.matReal (MarkerTracker.built 7 21 2500);
     MarkerTracker.matImag := MarkerTracker.matImag (MarkerTracker.built 7 21 2500);
     MarkerTracker.lastMarkerLocation := Some (50%Z, 50%Z);
     MarkerTracker.orientation := Some 0;
     MarkerTracker.newFrameImage32F :=
       Some (mkImage 100 100 IPL_DEPTH_32F 3 (fun _ _ _ => 0));
     MarkerTracker.frameReal := Some dark_window;
     MarkerTracker.frameImag := Some dark_window;
     MarkerTracker.frameRealSq := Some dark_window;
     MarkerTracker.frameImagSq := Some dark_window;
     MarkerTracker.frameSumSq := Some dark_window |}.

(** The driver of one marker of order 7 which found its marker at (0, 0)
    in a black frame of 80 by 60 pixels and still holds this frame. *)
Definition small_frame_driver : CameraDriver.state :=
  {| CameraDriver.currentFrame := Some (black_frame 80 60);
     CameraDriver.processedFrame := Some CameraDriver.TheCurrentFrame;
     CameraDriver.running := true;
     CameraDriver.trackers :=
       [ImageAnalyzer.with_tracker (ImageAnalyzer.init 1)
          (MarkerTracker.built 7 21 2500)];
     CameraDriver.windowedTrackers := [new_window_tracker];
     CameraDriver.oldLocations := [Some (0%Z, 0%Z, 0)];
     CameraDriver.cnt := 0;
     CameraDriver.defaultOrientation := 0 |}.

(** The driver of the default markers 7 and 8 after its constructor and
    a first [getImage] that delivered a black frame of 640 by 480. *)
Definition new_driver : CameraDriver.state :=
  {| CameraDriver.currentFrame := Some (black_frame 640 480);
     CameraDriver.processedFrame := None;
     CameraDriver.running := true;
     CameraDriver.trackers :=
       [ImageAnalyzer.with_tracker (ImageAnalyzer.init 1)
          (MarkerTracker.built 7 21 2500);
        ImageAnalyzer.with_tracker (ImageAnalyzer.init 1)
          (MarkerTracker.built 8 21 2500)];
     CameraDriver.windowedTrackers := [window_tracker 7; window_tracker 8];
     CameraDriver.oldLocations := [None; None];
     CameraDriver.cnt := 0;
     CameraDriver.defaultOrientation := 0 |}.

End Examples.

(** * Properties *)

(** ** Loops *)

Definition Rltb (a b : R) : bool := if Rlt_dec a b then true else false.

Lemma Rltb_true (a b : R) : Rltb a b = true <-> a < b.
Proof. unfold Rltb. destruct (Rlt_dec a b); split; intros; try lra; congruence. Qed.

Lemma Rltb_false (a b : R) : Rltb a b = false <-> b <= a.
Proof. unfold Rltb. destruct (Rlt_dec a b); split; intros; try lra; congruence. Qed.

Section FirstExit.
Context {S : Type} (cond : S -> bool) (body : S -> S).

(** If the condition of a loop fails after some number of iterations, it
    fails first after a least number [n] of them. *)
Lemma first_exit (N : nat) : forall s : S,
  cond (Nat.iter N body s) = false ->
  exists n, (n <= N)%nat /\ cond (Nat.iter n body s) = false /\
            forall m, (m < n)%nat -> cond (Nat.iter m body s) = true.
Proof.
  induction N as [|N IH]; intros s HN.
  - exists 0%nat. split; [lia|]. split; [exact HN|]. intros m Hm; lia.
  - destruct (cond s) eqn:E.
    + rewrite Nat.iter_succ_r in HN.
      destruct (IH _ HN) as (n & Hn & Hc & Hb).
      exists (Datatypes.S n). split; [lia|]. split.
      * rewrite Nat.iter_succ_r. exact Hc.
      * intros [|m] Hm; [exact E|]. rewrite Nat.iter_succ_r. apply Hb. lia.
    + exists 0%nat. split; [lia|]. split; [exact E|]. intros m Hm; lia.
Qed.
End FirstExit.

Lemma nat_above (x : R) : exists N : nat, x <= INR N.
Proof.
  exists (Z.to_nat (up x)).
  destruct (archimed x) as [Hup _].
  rewrite INR_IZR_INZ.
  destruct (Z_le_gt_dec 0 (up x)) as [Hz|Hz].
  - rewrite Z2Nat.id by exact Hz. lra.
  - assert (Hneg : IZR (up x) <= 0) by (apply IZR_le; lia).
    assert (H0 : 0 <= IZR (Z.of_nat (Z.to_nat (up x)))) by (apply IZR_le; lia).
    lra.
Qed.

Lemma iter_add_2pi (n : nat) (a : R) :
  Nat.iter n (fun a => a + 2 * PI) a = a + 2 * PI * INR n.
Proof.
  induction n as [|n IH].
  - simpl. lra.
  - rewrite Nat.iter_succ, IH, S_INR. lra.
Qed.

Lemma iter_sub_2pi (n : nat) (a : R) :
  Nat.iter n (fun a => a - 2 * PI) a = a - 2 * PI * INR n.
Proof.
  induction n as [|n IH].
  - simpl. lra.
  - rewrite Nat.iter_succ, IH, S_INR. lra.
Qed.

Module MarkerTrackerFacts.
Import MarkerTracker.

Lemma raise_loop_unfold (angle : R) :
  raise_loop angle = if Rlt_dec angle PI then raise_loop (angle + 2 * PI) else angle.
Proof. rewrite raise_loop_equation_1. now destruct (Rlt_dec angle PI). Qed.

Lemma lower_loop_unfold (angle : R) :
  lower_loop angle = if Rgt_dec angle PI then lower_loop (angle - 2 * PI) else angle.
Proof. rewrite lower_loop_equation_1. now destruct (Rgt_dec angle PI). Qed.

(** [n] passes through the body, each entered with the condition true, and
    then the condition false: the loop returns after exactly these. *)
Lemma raise_loop_passes (n : nat) : forall angle : R,
  (forall m, (m < n)%nat -> angle + 2 * PI * INR m < PI) ->
  PI <= angle + 2 * PI * INR n ->
  raise_loop angle = angle + 2 * PI * INR n.
Proof.
  induction n as [|n IH]; intros angle Hb Hc; rewrite raise_loop_unfold.
  - cbn [INR] in *. destruct (Rlt_dec angle PI); lra.
  - assert (H0 := Hb 0%nat ltac:(lia)). simpl in H0.
    destruct (Rlt_dec angle PI); [|lra].
    rewrite IH.
    + rewrite S_INR. lra.
    + intros m Hm. assert (Hm' := Hb (Datatypes.S m) ltac:(lia)).
      rewrite S_INR in Hm'. lra.
    + rewrite S_INR in Hc. lra.
Qed.

Lemma lower_loop_passes (n : nat) : forall angle : R,
  (forall m, (m < n)%nat -> angle - 2 * PI * INR m > PI) ->
  angle - 2 * PI * INR n <= PI ->
  lower_loop angle = angle - 2 * PI * INR n.
Proof.
  induction n as [|n IH]; intros angle Hb Hc; rewrite lower_loop_unfold.
  - cbn [INR] in *. destruct (Rgt_dec angle PI); lra.
  - assert (H0 := Hb 0%nat ltac:(lia)). simpl in H0.
    destruct (Rgt_dec angle PI); [|lra].
    rewrite IH.
    + rewrite S_INR. lra.
    + intros m Hm. assert (Hm' := Hb (Datatypes.S m) ltac:(lia)).
      rewrite S_INR in Hm'. lra.
    + rewrite S_INR in Hc. lra.
Qed.

(** The first loop makes a least number [n] of passes. *)
Lemma raise_loop_run (angle : R) :
  exists n : nat,
    (forall m, (m < n)%nat -> angle + 2 * PI * INR m < PI) /\
    PI <= angle + 2 * PI * INR n /\
    raise_loop angle = angle + 2 * PI * INR n.
Proof.
  assert (Hpi := PI_RGT_0).
  destruct (nat_above ((PI - angle) / (2 * PI))) as [N HN].
  assert (HN' : PI <= angle + 2 * PI * INR N).
  { apply (Rmult_le_compat_r (2 * PI)) in HN; [|lra].
    unfold Rdiv in HN. rewrite Rmult_assoc, Rinv_l in HN by lra. lra. }
  destruct (first_exit (fun a => Rltb a PI) (fun a => a + 2 * PI) N angle)
    as (n & Hn & Hc & Hb).
  { apply Rltb_false. rewrite iter_add_2pi. exact HN'. }
  apply Rltb_false in Hc. rewrite iter_add_2pi in Hc.
  assert (Hb' : forall m, (m < n)%nat -> angle + 2 * PI * INR m < PI).
  { intros m Hm. rewrite <- iter_add_2pi. apply Rltb_true, Hb, Hm. }
  exists n. split; [exact Hb'|]. split; [exact Hc|].
  now apply raise_loop_passes.
Qed.

(** So does the second. *)
Lemma lower_loop_run (angle : R) :
  exists n : nat,
    (forall m, (m < n)%nat -> angle - 2 * PI * INR m > PI) /\
    angle - 2 * PI * INR n <= PI /\
    lower_loop angle = angle - 2 * PI * INR n.
Proof.
  assert (Hpi := PI_RGT_0).
  destruct (nat_above ((angle - PI) / (2 * PI))) as [N HN].
  assert (HN' : angle - 2 * PI * INR N <= PI).
  { apply (Rmult_le_compat_r (2 * PI)) in HN; [|lra].
    unfold Rdiv in HN. rewrite Rmult_assoc, Rinv_l in HN by lra. lra. }
  destruct (first_exit (fun a => Rltb PI a) (fun a => a - 2 * PI) N angle)
    as (n & Hn & Hc & Hb).
  { apply Rltb_false. rewrite iter_sub_2pi. exact HN'. }
  apply Rltb_false in Hc. rewrite iter_sub_2pi in Hc.
  assert (Hb' : forall m, (m < n)%nat -> angle - 2 * PI * INR m > PI).
  { intros m Hm. rewrite <- iter_sub_2pi. apply Rltb_true, Hb, Hm. }
  exists n. split; [exact Hb'|]. split; [exact Hc|].
  now apply lower_loop_passes.
Qed.

End MarkerTrackerFacts.

(** ** Binary64 arithmetic *)

Module Binary64.

(** The power of two of an integer exponent. *)
Definition bpow (e : Z) : R := powerRZ 2 e.

(** The real number that a finite value of the specification stands
    for. *)
Definition SF2R (x : spec_float) : R :=
  match x with
  | S754_finite s m e => IZR (cond_Zopp s (Zpos m)) * bpow e
  | _ => 0
  end.

(** Neither an infinity nor NaN. *)
Definition SFfinite (x : spec_float) : bool :=
  match x with
  | S754_finite _ _ _ | S754_zero _ => true
  | _ => false
  end.

(** [not (math.isinf(x) or math.isnan(x))] *)
Definition is_finite (x : float) : bool := SFfinite (Prim2SF x).

(** The exponent of a finite value other than zero. *)
Definition SFexp (x : spec_float) : Z :=
  match x with
  | S754_finite _ _ e => e
  | _ => 0
  end.

Lemma to_R_SF2R (x : float) : double.to_R x = SF2R (Prim2SF x).
Proof. reflexivity. Qed.

Lemma bpow_gt_0 (e : Z) : 0 < bpow e.
Proof. apply powerRZ_lt. lra. Qed.

Lemma bpow_add (a b : Z) : bpow (a + b) = bpow a * bpow b.
Proof. apply powerRZ_add. lra. Qed.

Lemma bpow_IZR (k : Z) : (0 <= k)%Z -> bpow k = IZR (2 ^ k).
Proof.
  intros Hk. unfold bpow.
  rewrite <- (Z2Nat.id k) by exact Hk.
  rewrite <- pow_powerRZ, pow_IZR. reflexivity.
Qed.

Lemma bpow_le (a b : Z) : (a <= b)%Z -> bpow a <= bpow b.
Proof.
  intros Hab. replace b with (a + (b - a))%Z by lia.
  rewrite bpow_add, (bpow_IZR (b - a)) by lia.
  assert (Ha := bpow_gt_0 a).
  assert (H1 : 1 <= IZR (2 ^ (b - a))).
  { apply IZR_le. assert (0 < 2 ^ (b - a))%Z by (apply Z.pow_pos_nonneg; lia).
    lia. }
  nra.
Qed.

Lemma bpow_lt (a b : Z) : (a < b)%Z -> bpow a < bpow b.
Proof.
  intros Hab. assert (H := bpow_le (a + 1) b ltac:(lia)).
  rewrite bpow_add in H. change (bpow 1) with (2 * 1) in H.
  assert (Ha := bpow_gt_0 a). lra.
Qed.

Lemma bpow_0 : bpow 0 = 1.
Proof. reflexivity. Qed.

Lemma bpow_succ (e : Z) : bpow (e + 1) = 2 * bpow e.
Proof. rewrite bpow_add. change (bpow 1) with (2 * 1). lra. Qed.

(** The exponent function of the format. *)
Lemma fexp_eq (e : Z) : fexp prec emax e = Z.max (e - 53) (-1074).
Proof. reflexivity. Qed.

(** *** Digits *)

Lemma digits2_pos_bounds (m : positive) :
  (2 ^ (Zpos (digits2_pos m) - 1) <= Zpos m < 2 ^ Zpos (digits2_pos m))%Z.
Proof.
  induction m as [m IH|m IH|]; cbn [digits2_pos].
  - rewrite Pos2Z.inj_succ, (Pos2Z.inj_xI m).
    set (d := Zpos (digits2_pos m)) in *.
    replace (Z.succ d - 1)%Z with (Z.succ (d - 1)) by lia.
    rewrite (Z.pow_succ_r 2 (d - 1)), (Z.pow_succ_r 2 d) by lia. lia.
  - rewrite Pos2Z.inj_succ, (Pos2Z.inj_xO m).
    set (d := Zpos (digits2_pos m)) in *.
    replace (Z.succ d - 1)%Z with (Z.succ (d - 1)) by lia.
    rewrite (Z.pow_succ_r 2 (d - 1)), (Z.pow_succ_r 2 d) by lia. lia.
  - cbn. lia.
Qed.

(** The number of digits is fixed by the powers of two around. *)
Lemma digits2_pos_unique (m : positive) (d : Z) :
  (2 ^ (d - 1) <= Zpos m < 2 ^ d)%Z -> Zpos (digits2_pos m) = d.
Proof.
  intros [Hlo Hhi].
  destruct (digits2_pos_bounds m) as [Hlo' Hhi'].
  assert (Hd : (0 < d)%Z).
  { destruct (Z_lt_le_dec 0%Z d) as [H|H]; [exact H|].
    destruct (Z.eq_dec d 0%Z) as [->|Hne]; [cbn in Hhi; lia|].
    rewrite Z.pow_neg_r in Hhi by lia. lia. }
  destruct (Z_lt_le_dec (Zpos (digits2_pos m)) d) as [H1|H1].
  - assert (2 ^ Zpos (digits2_pos m) <= 2 ^ (d - 1))%Z
      by (apply Z.pow_le_mono_r; lia).
    lia.
  - destruct (Z_lt_le_dec d (Zpos (digits2_pos m))) as [H2|H2]; [|lia].
    assert (2 ^ d <= 2 ^ (Zpos (digits2_pos m) - 1))%Z
      by (apply Z.pow_le_mono_r; lia).
    lia.
Qed.

Lemma iter_xO (m d : positive) :
  Zpos (Pos.iter xO m d) = (Zpos m * 2 ^ Zpos d)%Z.
Proof.
  induction d as [|d IH] using Pos.peano_ind.
  - cbn. lia.
  - rewrite Pos.iter_succ, (Pos2Z.inj_xO (Pos.iter xO m d)), IH, Pos2Z.inj_succ,
      (Z.pow_succ_r 2 (Zpos d)) by lia.
    lia.
Qed.

(** *** Alignment *)

Lemma shl_align_spec (mx : positive) (ex ex' : Z) :
  exists mz,
    shl_align mx ex ex' = (mz, Z.min ex ex') /\
    Zpos mz = (Zpos mx * 2 ^ (ex - Z.min ex ex'))%Z.
Proof.
  unfold shl_align.
  destruct (ex' - ex)%Z as [|d|d] eqn:Hd.
  - exists mx. replace (Z.min ex ex') with ex by lia.
    rewrite Z.sub_diag. split; [reflexivity|]. cbn. lia.
  - exists mx. replace (Z.min ex ex') with ex by lia.
    rewrite Z.sub_diag. split; [reflexivity|]. cbn. lia.
  - exists (Pos.iter xO mx d). replace (Z.min ex ex') with ex' by lia.
    split; [reflexivity|]. rewrite iter_xO. f_equal. f_equal. lia.
Qed.

(** *** Shifting right *)

Lemma shr_1_m (mrs : shr_record) :
  (0 <= shr_m mrs)%Z -> shr_m (shr_1 mrs) = (shr_m mrs / 2)%Z.
Proof.
  destruct mrs as [m r s]. cbn [shr_m]. intros Hm.
  destruct m as [|[p|p|]|p]; cbn [shr_1 shr_m].
  - reflexivity.
  - rewrite (Pos2Z.inj_xI p). apply Z.div_unique with 1%Z; lia.
  - rewrite (Pos2Z.inj_xO p). apply Z.div_unique with 0%Z; lia.
  - reflexivity.
  - lia.
Qed.

Lemma iter_pos_shr_m (p : positive) : forall mrs : shr_record,
  (0 <= shr_m mrs)%Z ->
  shr_m (SpecFloat.iter_pos shr_1 p mrs) = (shr_m mrs / 2 ^ Zpos p)%Z.
Proof.
  induction p as [p IH|p IH|]; intros mrs Hm; cbn [SpecFloat.iter_pos].
  - assert (H1 : (0 <= shr_m (shr_1 mrs))%Z)
      by (rewrite shr_1_m by exact Hm; apply Z.div_pos; lia).
    assert (H2 : (0 <= shr_m (SpecFloat.iter_pos shr_1 p (shr_1 mrs)))%Z)
      by (rewrite IH by exact H1; apply Z.div_pos; [exact H1|];
          apply Z.pow_pos_nonneg; lia).
    rewrite IH by exact H2. rewrite IH by exact H1. rewrite shr_1_m by exact Hm.
    assert (Hp : (0 < 2 ^ Zpos p)%Z) by (apply Z.pow_pos_nonneg; lia).
    rewrite !Z.div_div by lia.
    f_equal. rewrite (Pos2Z.inj_xI p).
    replace (2 * Zpos p + 1)%Z with (1 + Zpos p + Zpos p)%Z by lia.
    rewrite !Z.pow_add_r by lia. change (2 ^ 1)%Z with 2%Z. lia.
  - assert (H1 : (0 <= shr_m (SpecFloat.iter_pos shr_1 p mrs))%Z)
      by (rewrite IH by exact Hm; apply Z.div_pos; [exact Hm|];
          apply Z.pow_pos_nonneg; lia).
    rewrite IH by exact H1. rewrite IH by exact Hm.
    assert (Hp : (0 < 2 ^ Zpos p)%Z) by (apply Z.pow_pos_nonneg; lia).
    rewrite !Z.div_div by lia.
    f_equal. rewrite (Pos2Z.inj_xO p).
    replace (2 * Zpos p)%Z with (Zpos p + Zpos p)%Z by lia.
    rewrite !Z.pow_add_r by lia. lia.
  - rewrite shr_1_m by exact Hm. reflexivity.
Qed.

Lemma round_nearest_even_cases (m : Z) (l : location) :
  round_nearest_even m l = m \/ round_nearest_even m l = (m + 1)%Z.
Proof.
  destruct l as [|[ | | ]]; cbn [round_nearest_even]; auto.
  destruct (Z.even m); auto.
Qed.

(** *** Rounding to nearest, ties to even *)

Lemma shr_fexp_unshifted (m e : Z) :
  fexp prec emax (Zdigits2 m + e) = e ->
  shr_fexp prec emax m e loc_Exact
    = ({| shr_m := m; shr_r := false; shr_s := false |}, e).
Proof.
  intros Hf. unfold shr_fexp. rewrite Hf, Z.sub_diag. reflexivity.
Qed.

(** A mantissa that fits the format is kept as it is. *)
Lemma binary_round_aux_exact (sx : bool) (mz : positive) (ez : Z) :
  fexp prec emax (Zpos (digits2_pos mz) + ez) = ez -> (ez <= 971)%Z ->
  binary_round_aux prec emax sx (Zpos mz) ez loc_Exact = S754_finite sx mz ez.
Proof.
  intros Hf He. unfold binary_round_aux.
  rewrite (shr_fexp_unshifted (Zpos mz) ez) by exact Hf.
  cbn [shr_m loc_of_shr_record round_nearest_even].
  rewrite (shr_fexp_unshifted (Zpos mz) ez) by exact Hf.
  cbn [shr_m].
  change (emax - prec)%Z with 971%Z.
  destruct (Z.leb_spec ez 971); [reflexivity|lia].
Qed.

(** A mantissa of more than 53 digits loses its low digits: the result is
    the quotient [q] by the power of two dropped, or [q + 1]. *)
Lemma binary_round_aux_inexact (sx : bool) (mz : positive) (ez : Z) :
  let d := Zpos (digits2_pos mz) in
  let q := (Zpos mz / 2 ^ (d - 53))%Z in
  (53 < d)%Z -> (-1074 <= ez)%Z -> (d + ez <= 1023)%Z ->
  exists (m' : positive) (e' m1 : Z),
    binary_round_aux prec emax sx (Zpos mz) ez loc_Exact = S754_finite sx m' e' /\
    (m1 = q \/ m1 = q + 1)%Z /\
    (2 ^ 52 <= q < 2 ^ 53)%Z /\
    IZR (Zpos m') * bpow e' = IZR m1 * bpow (d + ez - 53).
Proof.
  intros d q Hd Hez Hmax.
  destruct (digits2_pos_bounds mz) as [Hlo Hhi]. fold d in Hlo, Hhi.
  assert (Hn : (0 < d - 53)%Z) by lia.
  assert (Hpn : (0 < 2 ^ (d - 53))%Z) by (apply Z.pow_pos_nonneg; lia).
  assert (Hq : (2 ^ 52 <= q < 2 ^ 53)%Z).
  { unfold q. split.
    - apply Z.div_le_lower_bound; [exact Hpn|].
      rewrite <- Z.pow_add_r by lia.
      replace (d - 53 + 52)%Z with (d - 1)%Z by lia. exact Hlo.
    - apply Z.div_lt_upper_bound; [exact Hpn|].
      rewrite <- Z.pow_add_r by lia.
      replace (d - 53 + 53)%Z with d by lia. exact Hhi. }
  unfold binary_round_aux.
  assert (Hshift : shr_fexp prec emax (Zpos mz) ez loc_Exact
                   = (SpecFloat.iter_pos shr_1 (Z.to_pos (d - 53))
                        {| shr_m := Zpos mz; shr_r := false; shr_s := false |},
                      (d + ez - 53)%Z)).
  { unfold shr_fexp. cbn [Zdigits2 shr_record_of_loc]. fold d.
    rewrite fexp_eq.
    replace (Z.max (d + ez - 53) (-1074) - ez)%Z with (d - 53)%Z by lia.
    unfold shr. destruct (d - 53)%Z as [|p|p] eqn:Hp; try lia.
    cbn [Z.to_pos]. f_equal. lia. }
  rewrite Hshift.
  set (mrs := SpecFloat.iter_pos shr_1 (Z.to_pos (d - 53)) _).
  assert (Hmrs : shr_m mrs = q).
  { unfold mrs. rewrite iter_pos_shr_m by (cbn; lia).
    cbn [shr_m]. rewrite Z2Pos.id by lia. reflexivity. }
  set (m1 := round_nearest_even (shr_m mrs) (loc_of_shr_record mrs)).
  assert (Hm1 : (m1 = q \/ m1 = q + 1)%Z).
  { unfold m1. rewrite <- Hmrs. apply round_nearest_even_cases. }
  assert (Hpos : (0 < m1)%Z) by lia.
  destruct m1 as [|p1|p1] eqn:Ep1; try lia.
  destruct (Z_lt_le_dec (Zpos p1) (2 ^ 53)) as [Hlt|Hge].
  - assert (Hd1 : Zpos (digits2_pos p1) = 53%Z)
      by (apply digits2_pos_unique; change (53 - 1)%Z with 52%Z; lia).
    rewrite (shr_fexp_unshifted (Zpos p1) (d + ez - 53)).
    2:{ cbn [Zdigits2]. rewrite Hd1, fexp_eq. lia. }
    cbn [shr_m]. change (emax - prec)%Z with 971%Z.
    destruct (Z.leb_spec (d + ez - 53) 971); [|lia].
    exists p1, (d + ez - 53)%Z, (Zpos p1).
    split; [reflexivity|]. split; [exact Hm1|]. split; [exact Hq|reflexivity].
  - assert (Hp1 : Zpos p1 = (2 ^ 53)%Z) by lia.
    assert (Hd1 : Zpos (digits2_pos p1) = 54%Z)
      by (apply digits2_pos_unique; rewrite Hp1; cbn; lia).
    assert (Hshift2 : shr_fexp prec emax (Zpos p1) (d + ez - 53) loc_Exact
                      = ({| shr_m := 2 ^ 52; shr_r := false; shr_s := false |},
                         (d + ez - 53 + 1)%Z)).
    { unfold shr_fexp. cbn [Zdigits2 shr_record_of_loc]. rewrite Hd1, fexp_eq.
      replace (Z.max (54 + (d + ez - 53) - 53) (-1074) - (d + ez - 53))%Z
        with 1%Z by lia.
      injection Hp1 as ->. reflexivity. }
    rewrite Hshift2. cbn [shr_m].
    change (2 ^ 52)%Z with (Zpos (2 ^ 52)). cbv iota.
    change (emax - prec)%Z with 971%Z.
    destruct (Z.leb_spec (d + ez - 53 + 1) 971); [|lia].
    exists (2 ^ 52)%positive, (d + ez - 53 + 1)%Z, (Zpos p1).
    split; [reflexivity|]. split; [exact Hm1|]. split; [exact Hq|].
    rewrite Hp1, bpow_succ. change (Zpos (2 ^ 52)) with (2 ^ 52)%Z.
    change (2 ^ 53)%Z with (2 * 2 ^ 52)%Z. rewrite mult_IZR. lra.
Qed.

Lemma bpow_m52 : bpow (-52) * IZR (2 ^ 52) = 1.
Proof.
  rewrite <- (bpow_IZR 52) by lia. rewrite <- bpow_add. reflexivity.
Qed.

(** [binary_round]: the result is finite, within 2^-52 of the value
    rounded, relatively, and equal to it when the mantissa has no more
    than 53 digits. *)
Lemma binary_round_spec (sx : bool) (mx : positive) (ex : Z) :
  (-1074 <= ex)%Z -> (Zpos (digits2_pos mx) + ex <= 1023)%Z ->
  exists (m' : positive) (e' : Z),
    binary_round prec emax sx mx ex = S754_finite sx m' e' /\
    Rabs (IZR (Zpos m') * bpow e' - IZR (Zpos mx) * bpow ex)
      <= bpow (-52) * (IZR (Zpos mx) * bpow ex) /\
    ((Zpos mx < 2 ^ 53)%Z ->
     IZR (Zpos m') * bpow e' = IZR (Zpos mx) * bpow ex).
Proof.
  intros Hex Hmax. unfold binary_round.
  set (d := Zpos (digits2_pos mx)) in *.
  destruct (digits2_pos_bounds mx) as [Hlo Hhi]. fold d in Hlo, Hhi.
  assert (Hd : (0 < d)%Z) by (unfold d; lia).
  rewrite fexp_eq. set (t := Z.max (d + ex - 53) (-1074)).
  destruct (shl_align_spec mx ex t) as (mz & Hal & Hmz). rewrite Hal.
  assert (Hv : 0 < IZR (Zpos mx) * bpow ex).
  { apply Rmult_lt_0_compat; [apply IZR_lt; lia|apply bpow_gt_0]. }
  destruct (Z_le_gt_dec t ex) as [Hle|Hgt].
  - replace (Z.min ex t) with t in * by lia.
    assert (Hp : (0 < 2 ^ (ex - t))%Z) by (apply Z.pow_pos_nonneg; lia).
    assert (Hdz : Zpos (digits2_pos mz) = (d + (ex - t))%Z).
    { apply digits2_pos_unique. rewrite Hmz.
      replace (d + (ex - t) - 1)%Z with (d - 1 + (ex - t))%Z by lia.
      rewrite !Z.pow_add_r by lia. nia. }
    rewrite binary_round_aux_exact.
    + exists mz, t. split; [reflexivity|].
      assert (Hval : IZR (Zpos mz) * bpow t = IZR (Zpos mx) * bpow ex).
      { rewrite Hmz, mult_IZR, <- (bpow_IZR (ex - t)) by lia.
        rewrite Rmult_assoc, <- bpow_add. f_equal. f_equal. lia. }
      rewrite Hval. split; [|auto].
      replace (IZR (Zpos mx) * bpow ex - IZR (Zpos mx) * bpow ex) with 0 by lra.
      rewrite Rabs_R0. assert (H52 := bpow_gt_0 (-52)). nra.
    + rewrite Hdz, fexp_eq. unfold t. lia.
    + unfold t. lia.
  - replace (Z.min ex t) with ex in * by lia.
    rewrite Z.sub_diag in Hmz. cbn [Z.pow] in Hmz.
    assert (mz = mx) as -> by lia. clear Hmz Hal.
    assert (Ht : t = (d + ex - 53)%Z) by (unfold t; lia).
    destruct (binary_round_aux_inexact sx mx ex)
      as (m' & e' & m1 & Hrun & Hm1 & Hq & Hval); fold d; try lia.
    fold d in Hval, Hm1, Hq.
    set (q := (Zpos mx / 2 ^ (d - 53))%Z) in *.
    exists m', e'. split; [exact Hrun|]. rewrite Hval.
    assert (Hp : (0 < 2 ^ (d - 53))%Z) by (apply Z.pow_pos_nonneg; lia).
    assert (Hq1 : (q * 2 ^ (d - 53) <= Zpos mx)%Z).
    { unfold q. rewrite Z.mul_comm. apply Z.mul_div_le. exact Hp. }
    assert (Hq2 : (Zpos mx < (q + 1) * 2 ^ (d - 53))%Z).
    { unfold q. rewrite Z.mul_comm.
      apply (Z.mul_succ_div_gt (Zpos mx) (2 ^ (d - 53))). exact Hp. }
    assert (Hb : bpow (d + ex - 53) = IZR (2 ^ (d - 53)) * bpow ex).
    { rewrite <- (bpow_IZR (d - 53)) by lia. rewrite <- bpow_add.
      f_equal. lia. }
    rewrite Hb.
    apply IZR_le in Hq1. apply IZR_lt in Hq2.
    rewrite mult_IZR in Hq1, Hq2. rewrite plus_IZR in Hq2.
    assert (HP : 0 < IZR (2 ^ (d - 53))) by (apply IZR_lt; exact Hp).
    assert (Hex0 := bpow_gt_0 ex).
    assert (H52 := bpow_m52).
    assert (Hq52 : IZR (2 ^ 52) <= IZR q) by (apply IZR_le; lia).
    assert (Hb52 := bpow_gt_0 (-52)).
    split.
    + set (P := IZR (2 ^ (d - 53))) in *. set (E := bpow ex) in *.
      set (X := IZR (Zpos mx)) in *. set (Q := IZR q) in *.
      assert (Hunit : P * E <= bpow (-52) * (X * E)).
      { assert (P * E = bpow (-52) * (IZR (2 ^ 52) * P * E)) by
          (rewrite <- !Rmult_assoc, H52; ring).
        assert (IZR (2 ^ 52) * P * E <= X * E) by nra.
        nra. }
      assert (Hm1R : IZR m1 = Q \/ IZR m1 = Q + 1).
      { destruct Hm1 as [->| ->]; [left; reflexivity|right].
        rewrite plus_IZR. reflexivity. }
      apply Rabs_le.
      destruct Hm1R as [-> | ->]; split; nra.
    + intros Hsmall. exfalso.
      assert (d - 1 < 53)%Z; [|lia].
      apply (Z.pow_lt_mono_r_iff 2); lia.
Qed.

(** [binary_normalize] of an integer at an exponent. *)
Lemma binary_normalize_spec (z ez : Z) :
  (-1074 <= ez)%Z -> Rabs (IZR z * bpow ez) < bpow 1023 ->
  let r := binary_normalize prec emax z ez false in
  SFfinite r = true /\
  Rabs (SF2R r - IZR z * bpow ez) <= bpow (-52) * Rabs (IZR z * bpow ez) /\
  ((Z.abs z < 2 ^ 53)%Z -> SF2R r = IZR z * bpow ez).
Proof.
  intros Hez Hmag. cbv zeta.
  assert (Hdig : forall m : positive,
            Rabs (IZR (Zpos m) * bpow ez) < bpow 1023 ->
            (Zpos (digits2_pos m) + ez <= 1023)%Z).
  { intros m Hm.
    destruct (digits2_pos_bounds m) as [Hlo _].
    destruct (Z_le_gt_dec (Zpos (digits2_pos m) + ez) 1023) as [H|H]; [exact H|].
    exfalso.
    assert (Hb : bpow 1023 <= bpow (Zpos (digits2_pos m) - 1 + ez))
      by (apply bpow_le; lia).
    rewrite bpow_add, (bpow_IZR (Zpos (digits2_pos m) - 1)) in Hb by lia.
    apply IZR_le in Hlo. assert (He := bpow_gt_0 ez).
    rewrite Rabs_pos_eq in Hm.
    - assert (IZR (2 ^ (Zpos (digits2_pos m) - 1)) * bpow ez
              <= IZR (Zpos m) * bpow ez) by nra.
      lra.
    - apply Rmult_le_pos; [apply IZR_le; lia|lra]. }
  assert (He := bpow_gt_0 ez).
  destruct z as [|m|m]; cbn [binary_normalize].
  - cbn [SFfinite SF2R]. rewrite Rmult_0_l, Rminus_0_r, Rabs_R0.
    split; [reflexivity|]. split; [lra|reflexivity].
  - destruct (binary_round_spec false m ez Hez (Hdig m Hmag))
      as (m' & e' & -> & Herr & Hexact).
    cbn [SFfinite SF2R cond_Zopp].
    assert (Hpos : 0 < IZR (Zpos m) * bpow ez)
      by (apply Rmult_lt_0_compat; [apply IZR_lt; lia|exact He]).
    rewrite (Rabs_pos_eq (IZR (Zpos m) * bpow ez)) by lra.
    split; [reflexivity|]. split; [exact Herr|].
    intros Habs. apply Hexact. lia.
  - assert (Hmag' : Rabs (IZR (Zpos m) * bpow ez) < bpow 1023).
    { change (Zneg m) with (- Zpos m)%Z in Hmag. rewrite opp_IZR in Hmag.
      rewrite Ropp_mult_distr_l_reverse, Rabs_Ropp in Hmag. exact Hmag. }
    destruct (binary_round_spec true m ez Hez (Hdig m Hmag'))
      as (m' & e' & -> & Herr & Hexact).
    cbn [SFfinite SF2R cond_Zopp].
    change (Zneg m) with (- Zpos m)%Z. change (Zneg m') with (- Zpos m')%Z.
    rewrite !opp_IZR.
    assert (Hpos : 0 < IZR (Zpos m) * bpow ez)
      by (apply Rmult_lt_0_compat; [apply IZR_lt; lia|exact He]).
    replace (- IZR (Zpos m') * bpow e' - - IZR (Zpos m) * bpow ez)
      with (- (IZR (Zpos m') * bpow e' - IZR (Zpos m) * bpow ez)) by ring.
    rewrite Rabs_Ropp.
    replace (- IZR (Zpos m) * bpow ez) with (- (IZR (Zpos m) * bpow ez)) by ring.
    rewrite Rabs_Ropp, (Rabs_pos_eq (IZR (Zpos m) * bpow ez)) by lra.
    split; [reflexivity|]. split; [exact Herr|].
    intros Habs.
    replace (- IZR (Zpos m') * bpow e') with (- (IZR (Zpos m') * bpow e')) by ring.
    rewrite Hexact by lia. ring.
Qed.

(** *** Valid values *)

Lemma bounded_facts (m : positive) (e : Z) :
  SpecFloat.bounded prec emax m e = true ->
  (Zpos m < 2 ^ 53)%Z /\ (-1074 <= e <= 971)%Z /\
  ((2 ^ 52 <= Zpos m)%Z \/ e = (-1074)%Z).
Proof.
  unfold SpecFloat.bounded, canonical_mantissa. rewrite fexp_eq. intros H.
  apply andb_prop in H. destruct H as [H1 H2].
  apply Z.eqb_eq in H1. apply Z.leb_le in H2.
  change (emax - prec)%Z with 971%Z in H2.
  destruct (digits2_pos_bounds m) as [Hlo Hhi].
  set (d := Zpos (digits2_pos m)) in *.
  assert (Hd : (d <= 53)%Z) by lia.
  split.
  - assert (2 ^ d <= 2 ^ 53)%Z by (apply Z.pow_le_mono_r; lia). lia.
  - split; [lia|].
    destruct (Z.eq_dec e (-1074)%Z) as [He|He]; [right; exact He|left].
    assert (d = 53%Z) as Hd53 by lia. rewrite Hd53 in Hlo. exact Hlo.
Qed.

Lemma cond_Zopp_IZR (s : bool) (z : Z) :
  IZR (cond_Zopp s z) = (if s then - IZR z else IZR z).
Proof. destruct s; cbn [cond_Zopp]; [apply opp_IZR|reflexivity]. Qed.

Lemma aligned_value (s : bool) (mx mz : positive) (ex ez : Z) :
  (ez <= ex)%Z -> Zpos mz = (Zpos mx * 2 ^ (ex - ez))%Z ->
  IZR (cond_Zopp s (Zpos mz)) * bpow ez = IZR (cond_Zopp s (Zpos mx)) * bpow ex.
Proof.
  intros Hle Hmz. rewrite !cond_Zopp_IZR, Hmz, mult_IZR.
  rewrite <- (bpow_IZR (ex - ez)) by lia.
  replace (bpow ex) with (bpow (ex - ez) * bpow ez)
    by (rewrite <- bpow_add; f_equal; lia).
  destruct s; ring.
Qed.

Lemma SFopp_facts (y : spec_float) :
  SF2R (SFopp y) = - SF2R y /\ SFfinite (SFopp y) = SFfinite y /\
  valid_binary (SFopp y) = valid_binary y /\ SFexp (SFopp y) = SFexp y.
Proof.
  destruct y as [s|s| |s m e]; cbn [SFopp SF2R SFfinite SFexp];
    repeat split; try lra.
  rewrite !cond_Zopp_IZR. destruct s; cbn [negb]; lra.
Qed.

Lemma SFsub_add_opp (x y : spec_float) : SF64sub x y = SF64add x (SFopp y).
Proof.
  unfold SF64sub, SF64add.
  destruct x as [sx|sx| |sx mx ex], y as [sy|sy| |sy my ey];
    cbn [SFsub SFadd SFopp]; try reflexivity;
    destruct sx, sy; reflexivity.
Qed.

(** *** Addition and subtraction *)

(** The sum of two finite doubles: finite unless it overflows, within
    2^-52 of the exact sum, relatively, and equal to it when the exact sum
    has at most 53 digits at the smaller of the two exponents. *)
Lemma SFadd_spec (x y : spec_float) :
  valid_binary x = true -> valid_binary y = true ->
  SFfinite x = true -> SFfinite y = true ->
  Rabs (SF2R x + SF2R y) < bpow 1023 ->
  SFfinite (SF64add x y) = true /\
  Rabs (SF2R (SF64add x y) - (SF2R x + SF2R y))
    <= bpow (-52) * Rabs (SF2R x + SF2R y) /\
  (Rabs (SF2R x + SF2R y) < bpow (53 + Z.min (SFexp x) (SFexp y)) ->
   SF2R (SF64add x y) = SF2R x + SF2R y).
Proof.
  intros Hvx Hvy Hfx Hfy Hmag.
  assert (H52 := bpow_gt_0 (-52)).
  assert (Hsame : forall r v : R, r = v ->
            Rabs (r - v) <= bpow (-52) * Rabs v).
  { intros r v ->. replace (v - v) with 0 by lra. rewrite Rabs_R0.
    assert (H := Rabs_pos v). nra. }
  unfold SF64add.
  destruct x as [sx|sx| |sx mx ex]; try discriminate;
    destruct y as [sy|sy| |sy my ey]; try discriminate.
  - assert (Hz : SF2R (SFadd prec emax (S754_zero sx) (S754_zero sy)) = 0)
      by (destruct sx, sy; reflexivity).
    assert (Hf : SFfinite (SFadd prec emax (S754_zero sx) (S754_zero sy)) = true)
      by (destruct sx, sy; reflexivity).
    cbn [SF2R] in *. rewrite Hz. rewrite Rplus_0_l.
    split; [exact Hf|]. split; [apply Hsame; reflexivity|reflexivity].
  - cbn [SFadd SF2R SFfinite]. rewrite Rplus_0_l.
    split; [reflexivity|]. split; [apply Hsame; reflexivity|reflexivity].
  - cbn [SFadd SF2R SFfinite]. rewrite Rplus_0_r.
    split; [reflexivity|]. split; [apply Hsame; reflexivity|reflexivity].
  - cbn [valid_binary] in Hvx, Hvy.
    destruct (bounded_facts mx ex Hvx) as (_ & Hex & _).
    destruct (bounded_facts my ey Hvy) as (_ & Hey & _).
    cbn [SFadd SF2R SFexp] in *.
    set (ez := Z.min ex ey) in *.
    destruct (shl_align_spec mx ex ez) as (mzx & Hax & Hmx).
    destruct (shl_align_spec my ey ez) as (mzy & Hay & Hmy).
    replace (Z.min ex ez) with ez in * by lia.
    replace (Z.min ey ez) with ez in * by lia.
    rewrite Hax, Hay. cbn [fst].
    set (z := (cond_Zopp sx (Zpos mzx) + cond_Zopp sy (Zpos mzy))%Z).
    assert (Hval : IZR z * bpow ez
                   = IZR (cond_Zopp sx (Zpos mx)) * bpow ex
                     + IZR (cond_Zopp sy (Zpos my)) * bpow ey).
    { unfold z. rewrite plus_IZR, Rmult_plus_distr_r.
      rewrite (aligned_value sx mx mzx ex ez) by (unfold ez; lia || exact Hmx).
      rewrite (aligned_value sy my mzy ey ez) by (unfold ez; lia || exact Hmy).
      reflexivity. }
    rewrite <- Hval in *.
    destruct (binary_normalize_spec z ez) as (Hfin & Herr & Hexact);
      [lia|exact Hmag|].
    split; [exact Hfin|]. split; [exact Herr|].
    intros Hsmall. apply Hexact.
    rewrite bpow_add, (bpow_IZR 53) in Hsmall by lia.
    assert (He := bpow_gt_0 ez).
    rewrite Rabs_mult, (Rabs_pos_eq (bpow ez)) in Hsmall by lra.
    apply Rmult_lt_reg_r in Hsmall; [|exact He].
    rewrite <- abs_IZR in Hsmall. apply lt_IZR in Hsmall. exact Hsmall.
Qed.

Lemma SFsub_spec (x y : spec_float) :
  valid_binary x = true -> valid_binary y = true ->
  SFfinite x = true -> SFfinite y = true ->
  Rabs (SF2R x - SF2R y) < bpow 1023 ->
  SFfinite (SF64sub x y) = true /\
  Rabs (SF2R (SF64sub x y) - (SF2R x - SF2R y))
    <= bpow (-52) * Rabs (SF2R x - SF2R y) /\
  (Rabs (SF2R x - SF2R y) < bpow (53 + Z.min (SFexp x) (SFexp y)) ->
   SF2R (SF64sub x y) = SF2R x - SF2R y).
Proof.
  intros Hvx Hvy Hfx Hfy Hmag.
  destruct (SFopp_facts y) as (Hv & Hf & Hval & He).
  rewrite SFsub_add_opp.
  unfold Rminus in *. rewrite <- Hv in *. rewrite <- He.
  apply SFadd_spec; try assumption; congruence.
Qed.

(** *** Comparison *)

Lemma canonical_lt (m1 m2 : positive) (e1 e2 : Z) :
  SpecFloat.bounded prec emax m1 e1 = true ->
  SpecFloat.bounded prec emax m2 e2 = true ->
  (e1 < e2)%Z ->
  IZR (Zpos m1) * bpow e1 < IZR (Zpos m2) * bpow e2.
Proof.
  intros H1 H2 Hlt.
  destruct (bounded_facts m1 e1 H1) as (Hm1 & He1 & _).
  destruct (bounded_facts m2 e2 H2) as (_ & He2 & [Hm2|Hm2]); [|lia].
  apply IZR_lt in Hm1. apply IZR_le in Hm2.
  assert (Hb : bpow (e1 + 1) <= bpow e2) by (apply bpow_le; lia).
  rewrite bpow_succ in Hb.
  assert (Hp1 := bpow_gt_0 e1). assert (Hp2 := bpow_gt_0 e2).
  change (2 ^ 53)%Z with (2 * 2 ^ 52)%Z in Hm1. rewrite mult_IZR in Hm1.
  assert (H52 : 0 < IZR (2 ^ 52)) by (apply IZR_lt; reflexivity).
  assert (H0 : 0 < IZR (Zpos m1)) by (apply IZR_lt; lia).
  apply Rlt_le_trans with (IZR (2 ^ 52) * (2 * bpow e1)); nra.
Qed.

(** [<] on finite doubles is [<] on the numbers they stand for. *)
Lemma SFltb_spec (x y : spec_float) :
  valid_binary x = true -> valid_binary y = true ->
  SFfinite x = true -> SFfinite y = true ->
  (SFltb x y = true -> SF2R x < SF2R y) /\
  (SFltb x y = false -> SF2R y <= SF2R x).
Proof.
  intros Hvx Hvy Hfx Hfy. unfold SFltb.
  assert (Hpos : forall (m : positive) (e : Z), 0 < IZR (Zpos m) * bpow e).
  { intros m e. apply Rmult_lt_0_compat; [apply IZR_lt; lia|apply bpow_gt_0]. }
  destruct x as [sx|sx| |sx mx ex]; try discriminate;
    destruct y as [sy|sy| |sy my ey]; try discriminate;
    cbn [SFcompare SF2R].
  - split; [discriminate|lra].
  - assert (H := Hpos my ey). rewrite cond_Zopp_IZR.
    destruct sy; (split; [try discriminate|try discriminate]); intros _; lra.
  - assert (H := Hpos mx ex). rewrite cond_Zopp_IZR.
    destruct sx; (split; [try discriminate|try discriminate]); intros _; lra.
  - cbn [valid_binary] in Hvx, Hvy.
    assert (Hx := Hpos mx ex). assert (Hy := Hpos my ey).
    rewrite !cond_Zopp_IZR.
    assert (Hcmp : forall (m1 m2 : positive) (e1 e2 : Z),
              SpecFloat.bounded prec emax m1 e1 = true ->
              SpecFloat.bounded prec emax m2 e2 = true ->
              match
                match (e1 ?= e2)%Z with
                | Eq => Pos.compare_cont Eq m1 m2
                | Lt => Lt
                | Gt => Gt
                end
              with
              | Lt => IZR (Zpos m1) * bpow e1 < IZR (Zpos m2) * bpow e2
              | Eq => IZR (Zpos m1) * bpow e1 = IZR (Zpos m2) * bpow e2
              | Gt => IZR (Zpos m2) * bpow e2 < IZR (Zpos m1) * bpow e1
              end).
    { intros m1 m2 e1 e2 H1 H2.
      destruct (Z.compare_spec e1 e2) as [->|Hlt|Hgt].
      - change (Pos.compare_cont Eq m1 m2) with (Pos.compare m1 m2).
        assert (He := bpow_gt_0 e2).
        destruct (Pos.compare_spec m1 m2) as [->|Hm|Hm].
        + reflexivity.
        + apply Rmult_lt_compat_r; [exact He|]. apply IZR_lt. lia.
        + apply Rmult_lt_compat_r; [exact He|]. apply IZR_lt. lia.
      - now apply canonical_lt.
      - apply canonical_lt; [exact H2|exact H1|lia]. }
    assert (Hxy := Hcmp mx my ex ey Hvx Hvy).
    destruct sx, sy; cbn [SFcompare];
      destruct (ex ?= ey)%Z;
      try destruct (Pos.compare_cont Eq mx my);
      cbn [CompOpp];
      (split; [try discriminate|try discriminate]); intros _; lra.
Qed.

(** *** The primitive operations *)

Lemma ltb_true (x y : float) :
  is_finite x = true -> is_finite y = true ->
  (x <? y)%float = true -> double.to_R x < double.to_R y.
Proof.
  intros Hx Hy. rewrite ltb_spec.
  apply SFltb_spec; auto using Prim2SF_valid.
Qed.

Lemma ltb_false (x y : float) :
  is_finite x = true -> is_finite y = true ->
  (x <? y)%float = false -> double.to_R y <= double.to_R x.
Proof.
  intros Hx Hy. rewrite ltb_spec.
  apply SFltb_spec; auto using Prim2SF_valid.
Qed.

Lemma add_finite (x y : float) :
  is_finite x = true -> is_finite y = true ->
  Rabs (double.to_R x + double.to_R y) < bpow 1023 ->
  is_finite (x + y) = true /\
  Rabs (double.to_R (x + y) - (double.to_R x + double.to_R y))
    <= bpow (-52) * Rabs (double.to_R x + double.to_R y).
Proof.
  intros Hx Hy Hmag. unfold is_finite. rewrite !to_R_SF2R, add_spec.
  destruct (SFadd_spec (Prim2SF x) (Prim2SF y)) as (Hf & He & _);
    auto using Prim2SF_valid.
Qed.

Lemma sub_finite (x y : float) :
  is_finite x = true -> is_finite y = true ->
  Rabs (double.to_R x - double.to_R y) < bpow 1023 ->
  is_finite (x - y) = true /\
  Rabs (double.to_R (x - y) - (double.to_R x - double.to_R y))
    <= bpow (-52) * Rabs (double.to_R x - double.to_R y) /\
  (Rabs (double.to_R x - double.to_R y)
     < bpow (53 + Z.min (SFexp (Prim2SF x)) (SFexp (Prim2SF y))) ->
   double.to_R (x - y) = double.to_R x - double.to_R y).
Proof.
  intros Hx Hy Hmag. unfold is_finite. rewrite !to_R_SF2R, sub_spec.
  apply SFsub_spec; auto using Prim2SF_valid.
Qed.

(** The exponent of a finite double that is at least 2. *)
Lemma exponent_from_2 (x : float) :
  is_finite x = true -> 2 <= double.to_R x -> (-51 <= SFexp (Prim2SF x))%Z.
Proof.
  unfold is_finite. rewrite to_R_SF2R. intros Hf Hx.
  assert (Hv := Prim2SF_valid x).
  destruct (Prim2SF x) as [s|s| |s m e]; cbn [SF2R SFexp] in *; try lra.
  destruct (bounded_facts m e Hv) as (Hm & _ & _).
  destruct (Z_le_gt_dec (-51) e) as [H|H]; [exact H|exfalso].
  apply IZR_lt in Hm.
  assert (Hb : bpow e <= bpow (-52)) by (apply bpow_le; lia).
  assert (He := bpow_gt_0 e).
  assert (H0 : 0 < IZR (Zpos m)) by (apply IZR_lt; lia).
  rewrite cond_Zopp_IZR in Hx.
  change (2 ^ 53)%Z with (2 * 2 ^ 52)%Z in Hm. rewrite mult_IZR in Hm.
  assert (H52 := bpow_m52).
  assert (HP : 0 < IZR (2 ^ 52)) by (apply IZR_lt; reflexivity).
  destruct s.
  - nra.
  - assert (IZR (Zpos m) * bpow e < 2 * IZR (2 ^ 52) * bpow (-52)) by nra.
    nra.
Qed.

End Binary64.

(** ** [limitAngleToRange] on doubles *)

Module DoubleAngleFacts.
Import Binary64 MarkerTracker.InDoubles.

Ltac split_Rabs :=
  repeat match goal with
         | |- context [Rabs ?x] =>
             let H := fresh in
             destruct (Rcase_abs x) as [H|H];
             [rewrite (Rabs_left x H) in *|rewrite (Rabs_right x H) in *]
         | _ : context [Rabs ?x] |- _ =>
             let H := fresh in
             destruct (Rcase_abs x) as [H|H];
             [rewrite (Rabs_left x H) in *|rewrite (Rabs_right x H) in *]
         end.

Ltac split_Rmax :=
  repeat match goal with
         | |- context [Rmax ?x ?y] =>
             let H := fresh in
             destruct (Rle_dec x y) as [H|H];
             [rewrite (Rmax_right x y H) in *
             |rewrite (Rmax_left x y ltac:(lra)) in *]
         | _ : context [Rmax ?x ?y] |- _ =>
             let H := fresh in
             destruct (Rle_dec x y) as [H|H];
             [rewrite (Rmax_right x y H) in *
             |rewrite (Rmax_left x y ltac:(lra)) in *]
         end.

Lemma pi_SF : Prim2SF double.pi = S754_finite false 7074237752028440 (-51).
Proof. reflexivity. Qed.

Lemma two_pi_SF : Prim2SF two_pi = S754_finite false 7074237752028440 (-50).
Proof. reflexivity. Qed.

Lemma pi_finite : is_finite double.pi = true.
Proof. reflexivity. Qed.

Lemma two_pi_finite : is_finite two_pi = true.
Proof. reflexivity. Qed.

Lemma bpow_neg (k : Z) : (0 <= k)%Z -> bpow (- k) = / IZR (2 ^ k).
Proof.
  intros Hk. unfold bpow. rewrite powerRZ_neg'. f_equal. now apply bpow_IZR.
Qed.

(** [2*math.pi] is twice [math.pi] exactly. *)
Lemma two_pi_value : double.to_R two_pi = 2 * double.to_R double.pi.
Proof.
  rewrite !to_R_SF2R, pi_SF, two_pi_SF. cbn [SF2R cond_Zopp].
  change (-50)%Z with (-51 + 1)%Z. rewrite bpow_succ. ring.
Qed.

Lemma pi_value : double.to_R double.pi = 7074237752028440 / 2251799813685248.
Proof.
  rewrite to_R_SF2R, pi_SF. cbn [SF2R cond_Zopp].
  replace (bpow (-51)) with (/ IZR (2 ^ 51))
    by (symmetry; apply (bpow_neg 51); lia).
  reflexivity.
Qed.

Lemma ulp_52 : bpow (-52) = / 4503599627370496.
Proof. apply (bpow_neg 52). lia. Qed.

Lemma bpow_53 : bpow 53 = 9007199254740992.
Proof. rewrite bpow_IZR by lia. reflexivity. Qed.

Lemma above_2_53 : bpow 54 <= bpow 1023.
Proof. apply bpow_le. lia. Qed.

(** One pass through the body of the first loop. *)
Lemma raise_step (x : float) :
  is_finite x = true ->
  - bpow 53 <= double.to_R x -> double.to_R x < double.to_R double.pi ->
  let x' := (x + two_pi)%float in
  let M := Rmax (Rabs (double.to_R x)) 10 in
  is_finite x' = true /\
  double.to_R x + 4 <= double.to_R x' /\ double.to_R x' <= 10 /\
  Rabs (double.to_R x') <= M /\
  Rabs (double.to_R x' - (double.to_R x + double.to_R two_pi))
    <= bpow (-52) * M.
Proof.
  intros Hf Hlo Hhi. cbv zeta.
  assert (H54 := above_2_53). rewrite (bpow_IZR 54) in H54 by lia.
  change (2 ^ 54)%Z with 18014398509481984%Z in H54.
  destruct (add_finite x two_pi Hf two_pi_finite) as (Hfin & Herr).
  { rewrite two_pi_value, pi_value in *. rewrite bpow_53 in Hlo.
    split_Rabs; lra. }
  split; [exact Hfin|].
  rewrite two_pi_value, pi_value, ulp_52, ?bpow_53 in *.
  set (a := double.to_R x) in *. set (b := double.to_R (x + two_pi)) in *.
  clearbody a b.
  split_Rabs; split_Rmax; repeat split; lra.
Qed.

(** One pass through the body of the second loop. *)
Lemma lower_step (x : float) :
  is_finite x = true ->
  double.to_R double.pi < double.to_R x -> double.to_R x <= bpow 53 ->
  let x' := (x - two_pi)%float in
  let M := Rmax (Rabs (double.to_R x)) 10 in
  is_finite x' = true /\
  - double.to_R double.pi < double.to_R x' /\
  double.to_R x' <= double.to_R x - 4 /\
  Rabs (double.to_R x') <= M /\
  Rabs (double.to_R x' - (double.to_R x - double.to_R two_pi))
    <= bpow (-52) * M.
Proof.
  intros Hf Hlo Hhi. cbv zeta.
  assert (H54 := above_2_53). rewrite (bpow_IZR 54) in H54 by lia.
  change (2 ^ 54)%Z with 18014398509481984%Z in H54.
  destruct (sub_finite x two_pi Hf two_pi_finite) as (Hfin & Herr & Hexact).
  { rewrite two_pi_value, pi_value in *. rewrite bpow_53 in Hhi.
    split_Rabs; lra. }
  split; [exact Hfin|].
  assert (Hsmall : double.to_R x <= 10 ->
            double.to_R (x - two_pi) = double.to_R x - double.to_R two_pi).
  { intros H10. apply Hexact.
    assert (He := exponent_from_2 x Hf).
    rewrite pi_value in Hlo. specialize (He ltac:(lra)).
    rewrite two_pi_SF. cbn [SFexp].
    apply Rlt_le_trans with (bpow 2).
    - change (bpow 2) with (2 * (2 * 1)).
      rewrite two_pi_value, pi_value. split_Rabs; lra.
    - apply bpow_le. lia. }
  clear Hexact.
  rewrite two_pi_value, pi_value, ulp_52, ?bpow_53 in *.
  set (a := double.to_R x) in *. set (b := double.to_R (x - two_pi)) in *.
  clearbody a b.
  destruct (Rle_dec a 10) as [H10|H10].
  - rewrite (Hsmall H10) in *. clear Hsmall.
    split_Rabs; split_Rmax; repeat split; lra.
  - clear Hsmall. split_Rabs; split_Rmax; repeat split; lra.
Qed.

(** The bodies of the two loops. *)
Definition add_2pi (a : float) : float := (a + two_pi)%float.
Definition sub_2pi (a : float) : float := (a - two_pi)%float.

(** More fuel does not change a result. *)
Lemma raise_loop_more (fuel : nat) : forall (x r : float) (fuel' : nat),
  raise_loop fuel x = Some r -> (fuel <= fuel')%nat ->
  raise_loop fuel' x = Some r.
Proof.
  induction fuel as [|fuel IH]; intros x r fuel' Hrun Hle; [discriminate|].
  destruct fuel' as [|fuel']; [lia|].
  cbn [raise_loop] in *.
  destruct (x <? double.pi)%float; [|exact Hrun].
  apply IH; [exact Hrun|lia].
Qed.

Lemma lower_loop_more (fuel : nat) : forall (x r : float) (fuel' : nat),
  lower_loop fuel x = Some r -> (fuel <= fuel')%nat ->
  lower_loop fuel' x = Some r.
Proof.
  induction fuel as [|fuel IH]; intros x r fuel' Hrun Hle; [discriminate|].
  destruct fuel' as [|fuel']; [lia|].
  cbn [lower_loop] in *.
  destruct (double.pi <? x)%float; [|exact Hrun].
  apply IH; [exact Hrun|lia].
Qed.

(** [n] passes, each entered with the test true, and then the test false:
    the loop returns after exactly these. *)
Lemma raise_passes (n : nat) : forall x : float,
  (forall m, (m < n)%nat ->
     (Nat.iter m add_2pi x <? double.pi)%float = true) ->
  (Nat.iter n add_2pi x <? double.pi)%float = false ->
  raise_loop (S n) x = Some (Nat.iter n add_2pi x).
Proof.
  induction n as [|n IH]; intros x Hb Hc.
  - cbn in *. now rewrite Hc.
  - assert (H0 := Hb 0%nat ltac:(lia)). change (Nat.iter 0 add_2pi x) with x in H0.
    cbn [raise_loop]. rewrite H0.
    rewrite Nat.iter_succ_r. apply (IH (add_2pi x)).
    + intros m Hm. rewrite <- Nat.iter_succ_r. apply Hb. lia.
    + rewrite <- Nat.iter_succ_r. exact Hc.
Qed.

Lemma lower_passes (n : nat) : forall x : float,
  (forall m, (m < n)%nat ->
     (double.pi <? Nat.iter m sub_2pi x)%float = true) ->
  (double.pi <? Nat.iter n sub_2pi x)%float = false ->
  lower_loop (S n) x = Some (Nat.iter n sub_2pi x).
Proof.
  induction n as [|n IH]; intros x Hb Hc.
  - cbn in *. now rewrite Hc.
  - assert (H0 := Hb 0%nat ltac:(lia)). change (Nat.iter 0 sub_2pi x) with x in H0.
    cbn [lower_loop]. rewrite H0.
    rewrite Nat.iter_succ_r. apply (IH (sub_2pi x)).
    + intros m Hm. rewrite <- Nat.iter_succ_r. apply Hb. lia.
    + rewrite <- Nat.iter_succ_r. exact Hc.
Qed.

(** An angle below [math.pi] that absorbs [2*math.pi] keeps the first
    loop running. *)
Lemma raise_loop_absorbed (x : float) :
  (x <? double.pi)%float = true -> (x + two_pi)%float = x ->
  forall fuel, raise_loop fuel x = None.
Proof.
  intros Hlt Habs fuel. induction fuel as [|fuel IH]; [reflexivity|].
  cbn [raise_loop]. now rewrite Hlt, Habs.
Qed.

Lemma lower_loop_absorbed (x : float) :
  (double.pi <? x)%float = true -> (x - two_pi)%float = x ->
  forall fuel, lower_loop fuel x = None.
Proof.
  intros Hlt Habs fuel. induction fuel as [|fuel IH]; [reflexivity|].
  cbn [lower_loop]. now rewrite Hlt, Habs.
Qed.

(** A natural number just above a real number that is not negative. *)
Lemma nat_ceil (y : R) : 0 <= y -> exists N : nat, y <= INR N <= y + 1.
Proof.
  intros Hy. exists (Z.to_nat (up y)).
  destruct (archimed y) as [Hup Hup1].
  assert (Hz : (0 <= up y)%Z) by (apply le_IZR; lra).
  rewrite INR_IZR_INZ, Z2Nat.id by exact Hz. lra.
Qed.

(** The first loop on a finite double not below -2^53: it gains at least
    4 with every pass and so ends within [N] passes, where [4 * N] bounds
    the distance from [math.pi]. *)
Lemma raise_run (N : nat) : forall x : float,
  is_finite x = true -> - bpow 53 <= double.to_R x ->
  double.to_R double.pi - double.to_R x <= 4 * INR N ->
  exists n : nat,
    (n <= N)%nat /\
    (forall m, (m < n)%nat ->
       (Nat.iter m add_2pi x <? double.pi)%float = true) /\
    (Nat.iter n add_2pi x <? double.pi)%float = false /\
    is_finite (Nat.iter n add_2pi x) = true /\
    double.to_R double.pi <= double.to_R (Nat.iter n add_2pi x) /\
    double.to_R (Nat.iter n add_2pi x) <= Rmax (double.to_R x) 10 /\
    Rabs (double.to_R (Nat.iter n add_2pi x)
          - (double.to_R x + INR n * double.to_R two_pi))
      <= INR n * (bpow (-52) * Rmax (Rabs (double.to_R x)) 10).
Proof.
  induction N as [|N IH]; intros x Hf Hlo HN;
    destruct (x <? double.pi)%float eqn:E.
  - apply (ltb_true x double.pi Hf pi_finite) in E. cbn [INR] in HN. lra.
  - exists 0%nat. cbn [Nat.iter nat_rect INR].
    apply (ltb_false x double.pi Hf pi_finite) in E as Hge.
    split; [lia|]. split; [intros m Hm; lia|]. split; [exact E|].
    split; [exact Hf|]. split; [exact Hge|]. split; [apply Rmax_l|].
    replace (double.to_R x - (double.to_R x + 0 * double.to_R two_pi))
      with 0 by ring.
    rewrite Rabs_R0. lra.
  - apply (ltb_true x double.pi Hf pi_finite) in E as Hlt.
    destruct (raise_step x Hf Hlo Hlt) as (Hf' & Hgain & Hten & Hmag & Herr).
    fold (add_2pi x) in Hf', Hgain, Hten, Hmag, Herr.
    rewrite S_INR in HN.
    destruct (IH (add_2pi x) Hf') as (n & Hn & Hb & Hc & Hfn & Hge & Hle & He);
      [lra|lra|].
    exists (S n). rewrite !Nat.iter_succ_r.
    split; [lia|]. split.
    { intros [|m] Hm; [exact E|]. rewrite Nat.iter_succ_r. apply Hb. lia. }
    split; [exact Hc|]. split; [exact Hfn|]. split; [exact Hge|].
    assert (H52 := bpow_gt_0 (-52)). assert (Hn0 := pos_INR n).
    rewrite S_INR.
    set (a := double.to_R x) in *.
    set (b := double.to_R (add_2pi x)) in *.
    set (r := double.to_R (Nat.iter n add_2pi (add_2pi x))) in *.
    set (c := double.to_R two_pi) in *.
    set (u := bpow (-52)) in *.
    assert (HM : Rmax (Rabs b) 10 <= Rmax (Rabs a) 10).
    { apply Rmax_lub; [exact Hmag|apply Rmax_r]. }
    split.
    { apply Rle_trans with (Rmax b 10); [exact Hle|].
      apply Rmax_lub; [|apply Rmax_r].
      apply Rle_trans with 10; [exact Hten|apply Rmax_r]. }
    replace (r - (a + (INR n + 1) * c))
      with ((r - (b + INR n * c)) + (b - (a + c))) by ring.
    apply Rle_trans with (1 := Rabs_triang _ _).
    assert (INR n * (u * Rmax (Rabs b) 10) <= INR n * (u * Rmax (Rabs a) 10)).
    { apply Rmult_le_compat_l; [exact Hn0|].
      apply Rmult_le_compat_l; [lra|exact HM]. }
    lra.
  - exists 0%nat. cbn [Nat.iter nat_rect INR].
    apply (ltb_false x double.pi Hf pi_finite) in E as Hge.
    split; [lia|]. split; [intros m Hm; lia|]. split; [exact E|].
    split; [exact Hf|]. split; [exact Hge|]. split; [apply Rmax_l|].
    replace (double.to_R x - (double.to_R x + 0 * double.to_R two_pi))
      with 0 by ring.
    rewrite Rabs_R0. lra.
Qed.

(** The second loop on a finite double in (-pi, 2^53]: it loses at least
    4 with every pass, never falls to -[math.pi] or below, and ends within
    [N] passes. *)
Lemma lower_run (N : nat) : forall x : float,
  is_finite x = true ->
  - double.to_R double.pi < double.to_R x -> double.to_R x <= bpow 53 ->
  double.to_R x - double.to_R double.pi <= 4 * INR N ->
  exists n : nat,
    (n <= N)%nat /\
    (forall m, (m < n)%nat ->
       (double.pi <? Nat.iter m sub_2pi x)%float = true) /\
    (double.pi <? Nat.iter n sub_2pi x)%float = false /\
    is_finite (Nat.iter n sub_2pi x) = true /\
    - double.to_R double.pi < double.to_R (Nat.iter n sub_2pi x) /\
    double.to_R (Nat.iter n sub_2pi x) <= double.to_R double.pi /\
    Rabs (double.to_R (Nat.iter n sub_2pi x)
          - (double.to_R x - INR n * double.to_R two_pi))
      <= INR n * (bpow (-52) * Rmax (Rabs (double.to_R x)) 10).
Proof.
  induction N as [|N IH]; intros x Hf Hlo Hhi HN;
    destruct (double.pi <? x)%float eqn:E.
  - apply (ltb_true double.pi x pi_finite Hf) in E. cbn [INR] in HN. lra.
  - exists 0%nat. cbn [Nat.iter nat_rect INR].
    apply (ltb_false double.pi x pi_finite Hf) in E as Hge.
    split; [lia|]. split; [intros m Hm; lia|]. split; [exact E|].
    split; [exact Hf|]. split; [exact Hlo|]. split; [exact Hge|].
    replace (double.to_R x - (double.to_R x - 0 * double.to_R two_pi))
      with 0 by ring.
    rewrite Rabs_R0. lra.
  - apply (ltb_true double.pi x pi_finite Hf) in E as Hlt.
    destruct (lower_step x Hf Hlt Hhi) as (Hf' & Hkeep & Hloss & Hmag & Herr).
    fold (sub_2pi x) in Hf', Hkeep, Hloss, Hmag, Herr.
    rewrite S_INR in HN.
    destruct (IH (sub_2pi x) Hf') as (n & Hn & Hb & Hc & Hfn & Hgt & Hle & He);
      [lra|lra|lra|].
    exists (S n). rewrite !Nat.iter_succ_r.
    split; [lia|]. split.
    { intros [|m] Hm; [exact E|]. rewrite Nat.iter_succ_r. apply Hb. lia. }
    split; [exact Hc|]. split; [exact Hfn|]. split; [exact Hgt|].
    split; [exact Hle|].
    assert (H52 := bpow_gt_0 (-52)). assert (Hn0 := pos_INR n).
    rewrite S_INR.
    set (a := double.to_R x) in *.
    set (b := double.to_R (sub_2pi x)) in *.
    set (r := double.to_R (Nat.iter n sub_2pi (sub_2pi x))) in *.
    set (c := double.to_R two_pi) in *.
    set (u := bpow (-52)) in *.
    assert (HM : Rmax (Rabs b) 10 <= Rmax (Rabs a) 10).
    { apply Rmax_lub; [exact Hmag|apply Rmax_r]. }
    replace (r - (a - (INR n + 1) * c))
      with ((r - (b - INR n * c)) + (b - (a - c))) by ring.
    apply Rle_trans with (1 := Rabs_triang _ _).
    assert (INR n * (u * Rmax (Rabs b) 10) <= INR n * (u * Rmax (Rabs a) 10)).
    { apply Rmult_le_compat_l; [exact Hn0|].
      apply Rmult_le_compat_l; [lra|exact HM]. }
    lra.
  - exists 0%nat. cbn [Nat.iter nat_rect INR].
    apply (ltb_false double.pi x pi_finite Hf) in E as Hge.
    split; [lia|]. split; [intros m Hm; lia|]. split; [exact E|].
    split; [exact Hf|]. split; [exact Hlo|]. split; [exact Hge|].
    replace (double.to_R x - (double.to_R x - 0 * double.to_R two_pi))
      with 0 by ring.
    rewrite Rabs_R0. lra.
Qed.

Lemma limitAngleToRange_more (fuel fuel' : nat) (x r : float) :
  limitAngleToRange fuel x = Some r -> (fuel <= fuel')%nat ->
  limitAngleToRange fuel' x = Some r.
Proof.
  unfold limitAngleToRange. intros Hrun Hle.
  destruct (raise_loop fuel x) as [a1|] eqn:H1;
    cbn [mbind option_bind] in Hrun; [|discriminate].
  rewrite (raise_loop_more fuel x a1 fuel' H1 Hle). cbn [mbind option_bind].
  exact (lower_loop_more fuel a1 r fuel' Hrun Hle).
Qed.

(** Both loops on a finite double of magnitude at most 2^53. *)
Lemma both_loops_run (angle : float) :
  is_finite angle = true -> Rabs (double.to_R angle) <= bpow 53 ->
  exists n1 n2 : nat,
    let a1 := Nat.iter n1 add_2pi angle in
    let a2 := Nat.iter n2 sub_2pi a1 in
    (forall m, (m < n1)%nat ->
       (Nat.iter m add_2pi angle <? double.pi)%float = true) /\
    (a1 <? double.pi)%float = false /\
    (forall m, (m < n2)%nat ->
       (double.pi <? Nat.iter m sub_2pi a1)%float = true) /\
    (double.pi <? a2)%float = false /\
    is_finite a2 = true /\
    - double.to_R double.pi < double.to_R a2 <= double.to_R double.pi /\
    4 * INR n1 <= Rmax 0 (double.to_R double.pi - double.to_R angle) + 4 /\
    4 * INR n2 <= Rmax 0 (double.to_R a1 - double.to_R double.pi) + 4 /\
    Rabs (double.to_R a1 - (double.to_R angle + INR n1 * double.to_R two_pi))
      <= INR n1 * (bpow (-52) * Rmax (Rabs (double.to_R angle)) 10) /\
    Rabs (double.to_R a2 - (double.to_R a1 - INR n2 * double.to_R two_pi))
      <= INR n2 * (bpow (-52) * Rmax (Rabs (double.to_R angle)) 10).
Proof.
  intros Hf Hmag. cbv zeta.
  assert (Hpi := pi_value). assert (H53 := bpow_53).
  destruct (nat_ceil (Rmax 0 ((double.to_R double.pi - double.to_R angle) / 4)))
    as (N1 & HN1 & HN1'); [apply Rmax_l|].
  destruct (raise_run N1 angle Hf) as (n1 & Hn1 & Hb1 & Hc1 & Hf1 & Hge & Hle & He1).
  { split_Rabs; lra. }
  { assert (H := Rmax_r 0 ((double.to_R double.pi - double.to_R angle) / 4)).
    lra. }
  set (a1 := Nat.iter n1 add_2pi angle) in *.
  assert (Ha1 : double.to_R a1 <= bpow 53).
  { apply Rle_trans with (1 := Hle). apply Rmax_lub; [split_Rabs; lra|lra]. }
  destruct (nat_ceil (Rmax 0 ((double.to_R a1 - double.to_R double.pi) / 4)))
    as (N2 & HN2 & HN2'); [apply Rmax_l|].
  destruct (lower_run N2 a1 Hf1) as (n2 & Hn2 & Hb2 & Hc2 & Hf2 & Hgt & Hle2 & He2).
  { lra. }
  { exact Ha1. }
  { assert (H := Rmax_r 0 ((double.to_R a1 - double.to_R double.pi) / 4)). lra. }
  exists n1, n2. fold a1.
  split; [exact Hb1|]. split; [exact Hc1|]. split; [exact Hb2|].
  split; [exact Hc2|]. split; [exact Hf2|]. split; [split; assumption|].
  assert (Hn1R : INR n1 <= INR N1) by (apply le_INR; exact Hn1).
  assert (Hn2R : INR n2 <= INR N2) by (apply le_INR; exact Hn2).
  split.
  { assert (Rmax 0 ((double.to_R double.pi - double.to_R angle) / 4) * 4
            = Rmax 0 (double.to_R double.pi - double.to_R angle))
      by (split_Rmax; lra).
    lra. }
  split.
  { assert (Rmax 0 ((double.to_R a1 - double.to_R double.pi) / 4) * 4
            = Rmax 0 (double.to_R a1 - double.to_R double.pi))
      by (split_Rmax; lra).
    lra. }
  split; [exact He1|].
  apply Rle_trans with (1 := He2).
  apply Rmult_le_compat_l; [apply pos_INR|].
  apply Rmult_le_compat_l; [apply Rlt_le, bpow_gt_0|].
  apply Rmax_lub; [|apply Rmax_r].
  rewrite Rabs_pos_eq by lra.
  apply Rle_trans with (1 := Hle).
  apply Rmax_lub; [|apply Rmax_r].
  apply Rle_trans with (Rabs (double.to_R angle)); [apply Rle_abs|apply Rmax_l].
Qed.

(** C6: on the doubles of the code.  For every finite double of magnitude
    at most 2^53, [limitAngleToRange] returns a finite double [r] with
    -[math.pi] < [r] <= [math.pi]; [r] is the angle after [n1] additions
    and then [n2] subtractions of the double [2*math.pi], each rounded to
    the nearest double, so that [r] differs from the angle by [n1 - n2]
    times [2*math.pi] up to a rounding error of at most [n1 + n2] times
    2^-52 times the larger of 10 and the magnitude of the angle. *)
Theorem limitAngleToRange_in_range (angle : float) :
  is_finite angle = true -> Rabs (double.to_R angle) <= bpow 53 ->
  exists (n1 n2 : nat) (r : float),
    (forall fuel, (Nat.max n1 n2 < fuel)%nat ->
       limitAngleToRange fuel angle = Some r) /\
    r = Nat.iter n2 sub_2pi (Nat.iter n1 add_2pi angle) /\
    is_finite r = true /\
    - double.to_R double.pi < double.to_R r <= double.to_R double.pi /\
    Rabs (double.to_R r
          - (double.to_R angle + (INR n1 - INR n2) * double.to_R two_pi))
      <= (INR n1 + INR n2)
         * (bpow (-52) * Rmax (Rabs (double.to_R angle)) 10).
Proof.
  intros Hf Hmag.
  destruct (both_loops_run angle Hf Hmag)
    as (n1 & n2 & Hb1 & Hc1 & Hb2 & Hc2 & Hf2 & Hrange & _ & _ & He1 & He2).
  set (a1 := Nat.iter n1 add_2pi angle) in *.
  set (r := Nat.iter n2 sub_2pi a1) in *.
  exists n1, n2, r.
  split.
  { intros fuel Hfuel. unfold limitAngleToRange.
    rewrite (raise_loop_more (S n1) angle a1 fuel
               (raise_passes n1 angle Hb1 Hc1)) by lia.
    cbn [mbind option_bind].
    apply (lower_loop_more (S n2) a1 r fuel
             (lower_passes n2 a1 Hb2 Hc2)). lia. }
  split; [reflexivity|]. split; [exact Hf2|]. split; [exact Hrange|].
  replace (double.to_R r
           - (double.to_R angle + (INR n1 - INR n2) * double.to_R two_pi))
    with ((double.to_R r - (double.to_R a1 - INR n2 * double.to_R two_pi))
          + (double.to_R a1
             - (double.to_R angle + INR n1 * double.to_R two_pi))) by ring.
  apply Rle_trans with (1 := Rabs_triang _ _). lra.
Qed.

(** C10: on the doubles of the code.  For every finite double of
    magnitude at most 2^53 [limitAngleToRange] terminates: its first loop
    makes exactly [n1] passes (the test [angle < math.pi] holds before
    each of them and fails after the last), its second loop exactly [n2]
    passes, and the call returns the value reached; every pass of the
    first loop gains at least 4 and every pass of the second loses at
    least 4, so [4 * n1] and [4 * n2] exceed the distance to [math.pi] at
    the start of the loop by 4 at most.  An angle below [math.pi] that is
    not changed by adding [2*math.pi] keeps the first loop running for
    ever, and so does in the second loop an angle above [math.pi] that is
    not changed by subtracting it. *)
Theorem limitAngleToRange_terminates (angle : float) :
  is_finite angle = true -> Rabs (double.to_R angle) <= bpow 53 ->
  (exists (n1 n2 : nat) (a1 a2 : float),
     a1 = Nat.iter n1 add_2pi angle /\
     a2 = Nat.iter n2 sub_2pi a1 /\
     (forall m, (m < n1)%nat ->
        (Nat.iter m add_2pi angle <? double.pi)%float = true) /\
     (a1 <? double.pi)%float = false /\
     (forall m, (m < n2)%nat ->
        (double.pi <? Nat.iter m sub_2pi a1)%float = true) /\
     (double.pi <? a2)%float = false /\
     raise_loop (S n1) angle = Some a1 /\
     lower_loop (S n2) a1 = Some a2 /\
     limitAngleToRange (S (Nat.max n1 n2)) angle = Some a2 /\
     4 * INR n1 <= Rmax 0 (double.to_R double.pi - double.to_R angle) + 4 /\
     4 * INR n2 <= Rmax 0 (double.to_R a1 - double.to_R double.pi) + 4) /\
  (forall x : float,
     (x <? double.pi)%float = true -> (x + two_pi)%float = x ->
     forall fuel, raise_loop fuel x = None /\
                  limitAngleToRange fuel x = None) /\
  (forall x : float,
     (double.pi <? x)%float = true -> (x - two_pi)%float = x ->
     forall fuel, lower_loop fuel x = None).
Proof.
  intros Hf Hmag. split; [|split].
  - destruct (both_loops_run angle Hf Hmag)
      as (n1 & n2 & Hb1 & Hc1 & Hb2 & Hc2 & _ & _ & Hn1 & Hn2 & _).
    set (a1 := Nat.iter n1 add_2pi angle) in *.
    set (a2 := Nat.iter n2 sub_2pi a1) in *.
    assert (H1 := raise_passes n1 angle Hb1 Hc1). fold a1 in H1.
    assert (H2 := lower_passes n2 a1 Hb2 Hc2). fold a2 in H2.
    exists n1, n2, a1, a2.
    split; [reflexivity|]. split; [reflexivity|]. split; [exact Hb1|].
    split; [exact Hc1|]. split; [exact Hb2|]. split; [exact Hc2|].
    split; [exact H1|]. split; [exact H2|]. split; [|split; assumption].
    unfold limitAngleToRange.
    rewrite (raise_loop_more (S n1) angle a1 (S (Nat.max n1 n2)) H1) by lia.
    cbn [mbind option_bind].
    apply (lower_loop_more (S n2) a1 a2 (S (Nat.max n1 n2)) H2). lia.
  - intros x Hlt Habs fuel.
    assert (Hnone := raise_loop_absorbed x Hlt Habs fuel).
    split; [exact Hnone|]. unfold limitAngleToRange. now rewrite Hnone.
  - intros x Hlt Habs fuel. exact (lower_loop_absorbed x Hlt Habs fuel).
Qed.

Lemma tenth_value :
  double.to_R 0x1.999999999999ap-4 = 7205759403792794 / 72057594037927936.
Proof.
  rewrite to_R_SF2R.
  change (Prim2SF 0x1.999999999999ap-4)
    with (S754_finite false 7205759403792794 (-56)).
  cbn [SF2R cond_Zopp].
  replace (bpow (-56)) with (/ IZR (2 ^ 56))
    by (symmetry; apply (bpow_neg 56); lia).
  reflexivity.
Qed.

Lemma tenth_limited_value :
  double.to_R 0x1.999999999998p-4 = 7205759403792768 / 72057594037927936.
Proof.
  rewrite to_R_SF2R.
  change (Prim2SF 0x1.999999999998p-4)
    with (S754_finite false 7205759403792768 (-56)).
  cbn [SF2R cond_Zopp].
  replace (bpow (-56)) with (/ IZR (2 ^ 56))
    by (symmetry; apply (bpow_neg 56); lia).
  reflexivity.
Qed.

(** C6, counterexample: the double nearest to 0.1 comes back as
    0.09999999999999964, which differs from it by no multiple of 2*pi;
    and -1e17 does not come back at all, the first loop adding
    [2*math.pi] to it without effect. *)
Lemma limitAngleToRange_rounds :
  limitAngleToRange 2 0x1.999999999999ap-4 = Some 0x1.999999999998p-4%float /\
  (~ exists k : Z,
       double.to_R 0x1.999999999998p-4
       = double.to_R 0x1.999999999999ap-4 + IZR k * (2 * PI)) /\
  (~ exists (fuel : nat) (r : float),
       limitAngleToRange fuel (-1e17)%float = Some r).
Proof.
  split; [reflexivity|]. split.
  - intros [k Hk]. rewrite tenth_value, tenth_limited_value in Hk.
    assert (Hpi : 3 < PI) by (assert (H := PI2_3_2); lra).
    destruct (Z_lt_le_dec k 0) as [Hneg|Hnn].
    + assert (IZR k <= -1) by (apply IZR_le; lia). nra.
    + destruct (Z_lt_le_dec 0 k) as [Hpos|Hzero].
      * assert (1 <= IZR k) by (apply IZR_le; lia). nra.
      * assert (k = 0%Z) as -> by lia. lra.
  - intros (fuel & r & Hrun). unfold limitAngleToRange in Hrun.
    rewrite (raise_loop_absorbed (-1e17)%float) in Hrun by reflexivity.
    discriminate.
Qed.

(** C10, counterexample: neither loop ends on an angle that absorbs
    [2*math.pi]: the first on -1e17 and on minus infinity, the second on
    1e17 and on infinity. *)
Lemma limitAngleToRange_runs_forever :
  (~ exists (fuel : nat) (r : float), raise_loop fuel (-1e17)%float = Some r) /\
  (~ exists (fuel : nat) (r : float), lower_loop fuel 1e17%float = Some r) /\
  (~ exists (fuel : nat) (r : float),
       limitAngleToRange fuel 1e17%float = Some r) /\
  (~ exists (fuel : nat) (r : float),
       limitAngleToRange fuel infinity = Some r) /\
  (~ exists (fuel : nat) (r : float),
       limitAngleToRange fuel neg_infinity = Some r).
Proof.
  assert (Hup : forall x : float,
            (x <? double.pi)%float = false ->
            (double.pi <? x)%float = true -> (x - two_pi)%float = x ->
            ~ exists (fuel : nat) (r : float),
                limitAngleToRange fuel x = Some r).
  { intros x H1 H2 H3 (fuel & r & Hrun). unfold limitAngleToRange in Hrun.
    destruct fuel as [|fuel]; [discriminate|].
    cbn [raise_loop] in Hrun. rewrite H1 in Hrun.
    cbn [mbind option_bind] in Hrun.
    rewrite (lower_loop_absorbed x H2 H3) in Hrun. discriminate. }
  split; [|split; [|split; [|split]]].
  - intros (fuel & r & Hrun).
    rewrite (raise_loop_absorbed (-1e17)%float) in Hrun by reflexivity.
    discriminate.
  - intros (fuel & r & Hrun).
    rewrite (lower_loop_absorbed 1e17%float) in Hrun by reflexivity.
    discriminate.
  - apply Hup; reflexivity.
  - apply Hup; reflexivity.
  - intros (fuel & r & Hrun). unfold limitAngleToRange in Hrun.
    rewrite (raise_loop_absorbed neg_infinity) in Hrun by reflexivity.
    discriminate.
Qed.

Lemma limitAngleToRange_in_range_witness :
  limitAngleToRange 2 0x1.999999999999ap-4 = Some 0x1.999999999998p-4%float /\
  - double.to_R double.pi < double.to_R 0x1.999999999998p-4
    <= double.to_R double.pi.
Proof.
  destruct (limitAngleToRange_in_range 0x1.999999999999ap-4)
    as (n1 & n2 & r & Hrun & _ & _ & Hrange & _).
  - reflexivity.
  - rewrite tenth_value, bpow_53. split_Rabs; lra.
  - assert (H2 : limitAngleToRange 2 0x1.999999999999ap-4
                 = Some 0x1.999999999998p-4%float) by reflexivity.
    split; [exact H2|].
    assert (Hr := Hrun (S (S (S (Nat.max n1 n2)))) ltac:(lia)).
    rewrite (limitAngleToRange_more 2 _ _ _ H2) in Hr by lia.
    injection Hr as <-. exact Hrange.
Defined.

Lemma minus_hundred_value : double.to_R (-100)%float = -100.
Proof.
  rewrite to_R_SF2R.
  change (Prim2SF (-100)%float) with (S754_finite true 7036874417766400 (-46)).
  cbn [SF2R cond_Zopp]. rewrite opp_IZR.
  replace (bpow (-46)) with (/ IZR (2 ^ 46))
    by (symmetry; apply (bpow_neg 46); lia).
  change (2 ^ 46)%Z with 70368744177664%Z. lra.
Qed.

Lemma limitAngleToRange_terminates_witness :
  exists (n1 n2 : nat) (a1 a2 : float),
    raise_loop (S n1) (-100)%float = Some a1 /\
    lower_loop (S n2) a1 = Some a2 /\
    limitAngleToRange (S (Nat.max n1 n2)) (-100)%float = Some a2 /\
    4 * INR n1 <= 108.
Proof.
  destruct (limitAngleToRange_terminates (-100)%float)
    as ((n1 & n2 & a1 & a2 & _ & _ & _ & _ & _ & _ & H1 & H2 & Hrun & Hn1 & _) & _).
  - reflexivity.
  - rewrite minus_hundred_value, bpow_53. split_Rabs; lra.
  - exists n1, n2, a1, a2. split; [exact H1|]. split; [exact H2|].
    split; [exact Hrun|].
    rewrite minus_hundred_value, pi_value in Hn1. revert Hn1.
    split_Rmax; lra.
Defined.

End DoubleAngleFacts.

(** ** The search window *)

Module TrackerInWindowModeFacts.
Import cv TrackerInWindowMode.

Lemma new_window_tracker_init :
  @init Examples.plain_runtime 7 = Some Examples.new_window_tracker.
Proof. reflexivity. Qed.

(** Whatever happens in the [try] block, the rectangle is stored. *)
Lemma try_crop_subImagePosition (self : state) (frame : IplImage)
    (rect : Z * Z * Z * Z) :
  subImagePosition (fst (try_crop self frame rect)) = Some rect.
Proof.
  unfold try_crop.
  destruct (GetSubRect frame rect) as [sub|]; [|reflexivity]. cbn.
  destruct (ConvertScale sub (originalImage self)) as [orig|]; [|reflexivity]. cbn.
  destruct (CvtColor_RGB2GRAY orig (frameGray self)); reflexivity.
Qed.

(** [cropFrame] stores the corner it computed, with the window size. *)
Lemma cropFrame_subImagePosition `{CvRuntime} (self self' : state)
    (frame : IplImage) (x y : Z) (out : list ConsoleLine) :
  cropFrame self frame x y = Some (self', out) ->
  subImagePosition self' =
    Some (fst (window_corner self frame x y), snd (window_corner self frame x y),
          windowWidth self, windowHeight self).
Proof.
  unfold cropFrame. intros Hc.
  destruct (negb (trackerIsInitialized self)).
  - destruct (MarkerTracker.allocateSpaceGivenFirstFrame _ _) as [mt|];
      [|discriminate].
    destruct (CreateImage _ _ _ _) as [red|]; [|discriminate].
    cbn [mbind option_bind] in Hc.
    match type of Hc with
    | context [try_crop ?s _ _] => set (self0 := s) in Hc
    end.
    change (window_corner self0 frame x y) with (window_corner self frame x y) in Hc.
    change (windowWidth self0) with (windowWidth self) in Hc.
    change (windowHeight self0) with (windowHeight self) in Hc.
    destruct (window_corner self frame x y) as [cx cy].
    injection Hc as Hc.
    pose proof (try_crop_subImagePosition self0 frame
                  (cx, cy, windowWidth self, windowHeight self)) as P.
    now rewrite Hc in P.
  - cbn [mbind option_bind] in Hc.
    destruct (window_corner self frame x y) as [cx cy].
    injection Hc as Hc.
    pose proof (try_crop_subImagePosition self frame
                  (cx, cy, windowWidth self, windowHeight self)) as P.
    now rewrite Hc in P.
Qed.

(** The claim of C4 as the specification words it: the corner lies in
    [1, frameDim - windowDim] on each axis. *)
Definition corner_in_range (self : state) (frame : IplImage) (x y : Z) : Prop :=
  let '(cx, cy) := window_corner self frame x y in
  (1 <= cx <= width frame - windowWidth self)%Z /\
  (1 <= cy <= height frame - windowHeight self)%Z.

(** C4, counterexample: in a frame of 80 by 60 pixels the corner computed
    for the last location (40, 30) is (-20, -40). *)
Lemma corner_in_range_small_frame :
  window_corner Examples.new_window_tracker (Examples.black_frame 80 60) 40 30
    = ((-20)%Z, (-40)%Z) /\
  ~ corner_in_range Examples.new_window_tracker (Examples.black_frame 80 60) 40 30.
Proof.
  split; [reflexivity|].
  unfold corner_in_range. cbn. lia.
Qed.

(** C4, amended: for every frame that is larger than the window on both
    axes and every last marker location, the corner computed by
    [cropFrame] lies in [1, frameDim - windowDim] on each axis, it is the
    corner [cropFrame] stores, and the window at this corner lies inside
    the frame. *)
Theorem window_corner_in_range `{CvRuntime} (self : state) (frame : IplImage)
    (x y : Z) :
  (0 <= windowWidth self < width frame)%Z ->
  (0 <= windowHeight self < height frame)%Z ->
  corner_in_range self frame x y /\
  (forall self' out, cropFrame self frame x y = Some (self', out) ->
     subImagePosition self' =
       Some (fst (window_corner self frame x y),
             snd (window_corner self frame x y),
             windowWidth self, windowHeight self)) /\
  is_Some (GetSubRect frame (fst (window_corner self frame x y),
                             snd (window_corner self frame x y),
                             windowWidth self, windowHeight self)).
Proof.
  intros Hw Hh.
  assert (Hrange : corner_in_range self frame x y).
  { unfold corner_in_range, window_corner.
    repeat match goal with
           | |- context [(?a <? ?b)%Z] => destruct (Z.ltb_spec a b)
           | |- context [(?a >? ?b)%Z] =>
               rewrite (Z.gtb_ltb a b); destruct (Z.ltb_spec b a)
           end; lia. }
  split; [exact Hrange|]. split.
  - intros self' out. apply cropFrame_subImagePosition.
  - unfold corner_in_range in Hrange.
    destruct (window_corner self frame x y) as [cx cy]. cbn [fst snd].
    unfold GetSubRect.
    destruct Hrange as [Hx Hy].
    repeat match goal with
           | |- context [(?a <=? ?b)%Z] =>
               let E := fresh in destruct (Z.leb_spec a b) as [E|E]; [|lia]
           end.
    cbn. eauto.
Qed.

Lemma window_corner_in_range_witness :
  corner_in_range Examples.new_window_tracker (Examples.black_frame 640 480) 0 0 /\
  window_corner Examples.new_window_tracker (Examples.black_frame 640 480) 640 480
    = (540%Z, 380%Z).
Proof.
  split; [|reflexivity].
  apply (@window_corner_in_range Examples.plain_runtime
           Examples.new_window_tracker (Examples.black_frame 640 480) 0 0);
    cbn; lia.
Defined.

End TrackerInWindowModeFacts.

(** ** The publisher *)

Module RosPublisherFacts.
Import ros RosPublisher.

(** For roll = pitch = 0 the conversion leaves the rotation on [z], [w]. *)
Lemma quaternion_from_yaw (yaw : R) :
  quaternion_from_euler 0 0 yaw = mkQuaternion 0 0 (sin (yaw / 2)) (cos (yaw / 2)).
Proof.
  unfold quaternion_from_euler.
  replace (0 / 2) with 0 by lra. rewrite cos_0, sin_0.
  f_equal; ring.
Qed.

(** The pose message built for a location. *)
Definition pose_message (t : Z) (loc : CameraDriver.location) : Odometry :=
  let '(x, y, o) := loc in
  {| stamp := t;
     position := mkPoint (IZR x / 100) (IZR y / 100) 0;
     orientation := mkQuaternion (cos (o / 2)) 0 0 (sin (o / 2)) |}.

(** The transform broadcast for a location: [sendTransform] is given
    ["/odom"] as its [child] and ["/base_link"] as its [parent]. *)
Definition transform_message (t : Z) (loc : CameraDriver.location)
  : TransformStamped :=
  let '(x, y, o) := loc in
  {| header_stamp := t;
     header_frame_id := "/base_link";
     child_frame_id := "/odom";
     translation := (IZR x / 100, IZR y / 100, 0);
     rotation := mkQuaternion 0 0 (sin (o / 2)) (cos (o / 2)) |}.

Lemma publish_ith_done now locations self j clock i loc topic :
  locations !! j = Some (Some loc) ->
  pup self !! j = Some topic ->
  exists self',
    publish_ith now locations self j clock i =
      Done self' [ Console (PrintLocation i loc.1.1 loc.1.2 loc.2);
                   Publish topic (pose_message (now clock) loc);
                   Broadcast (transform_message (now (S clock)) loc) ] /\
    pup self' = pup self.
Proof.
  intros Hloc Hpup. destruct loc as [[x y] o].
  unfold publish_ith, sendTransform.
  rewrite Hloc, Hpup. cbn [mjoin option_join].
  rewrite quaternion_from_yaw.
  eexists. split; reflexivity.
Qed.

(** While locations and publishers are there, each pass through the loop
    prints one line, publishes one pose and broadcasts one transform. *)
Lemma publish_loop_nth now locations (todo : list Z) :
  forall (self : state) (j0 clock : nat) (n : nat) (i : Z) loc topic,
    todo !! n = Some i ->
    (forall m, (m <= n)%nat ->
       exists l t, locations !! (j0 + m)%nat = Some (Some l) /\
                   pup self !! (j0 + m)%nat = Some t) ->
    locations !! (j0 + n)%nat = Some (Some loc) ->
    pup self !! (j0 + n)%nat = Some topic ->
    let out := effects (publish_loop now locations todo self j0 clock) in
    out !! (3 * n + 1)%nat =
      Some (Publish topic (pose_message (now (clock + 2 * n)%nat) loc)) /\
    out !! (3 * n + 2)%nat =
      Some (Broadcast (transform_message (now (S (clock + 2 * n))) loc)).
Proof.
  induction todo as [|i0 todo IH]; intros self j0 clock n i loc topic Hn Hall Hloc Hpup.
  - discriminate.
  - destruct (Hall 0%nat ltac:(lia)) as (l0 & t0 & Hl0 & Ht0).
    rewrite Nat.add_0_r in Hl0, Ht0.
    destruct (publish_ith_done now locations self j0 clock i0 l0 t0 Hl0 Ht0)
      as (self' & Hdone & Hpup').
    cbn [publish_loop]. rewrite Hdone.
    destruct n as [|n].
    + rewrite Nat.add_0_r in Hloc, Hpup.
      rewrite Hl0 in Hloc. injection Hloc as ->.
      rewrite Ht0 in Hpup. injection Hpup as ->.
      rewrite !Nat.mul_0_r, !Nat.add_0_r. cbn.
      destruct (publish_loop _ _ _ _ _ _); cbn; auto.
    + cbn in Hn.
      specialize (IH self' (S j0) (S (S clock)) n i loc topic Hn).
      destruct IH as [IH1 IH2].
      * intros m Hm. destruct (Hall (S m) ltac:(lia)) as (l & t & Hl & Ht).
        exists l, t. rewrite Hpup'.
        replace (S j0 + m)%nat with (j0 + S m)%nat by lia. auto.
      * replace (S j0 + n)%nat with (j0 + S n)%nat by lia. exact Hloc.
      * rewrite Hpup'.
        replace (S j0 + n)%nat with (j0 + S n)%nat by lia. exact Hpup.
      * replace (S (S clock) + 2 * n)%nat with (clock + 2 * S n)%nat in IH1, IH2 by lia.
        replace (3 * S n + 1)%nat with (3 + (3 * n + 1))%nat by lia.
        replace (3 * S n + 2)%nat with (3 + (3 * n + 2))%nat by lia.
        destruct (publish_loop now locations todo self' (S j0) (S (S clock)));
          cbn in *; auto.
Qed.

(** C1: for every marker location [(x, y, orientation)] that
    [publishMarkerLocations] publishes (the one at index [j], the locations
    and publishers up to [j] being there), the pose message has position
    (x/100, y/100, 0) and quaternion x = cos(orientation/2), y = 0, z = 0,
    w = sin(orientation/2). *)
Theorem publishMarkerLocations_pose (now : nat -> Z) (self : state)
    (locations : list (option CameraDriver.location)) (clock j : nat)
    (i x y : Z) (o : R) (topic : Z) :
  markers self !! j = Some i ->
  (forall m, (m <= j)%nat ->
     exists l t, locations !! m = Some (Some l) /\ pup self !! m = Some t) ->
  locations !! j = Some (Some (x, y, o)) ->
  pup self !! j = Some topic ->
  effects (publishMarkerLocations now self locations clock) !! (3 * j + 1)%nat =
    Some (Publish topic
            {| stamp := now (clock + 2 * j)%nat;
               position := mkPoint (IZR x / 100) (IZR y / 100) 0;
               orientation :=
                 {| qx := cos (o / 2); qy := 0; qz := 0; qw := sin (o / 2) |} |}).
Proof.
  intros Hi Hall Hloc Hpup.
  apply (publish_loop_nth now locations (markers self) self 0 clock j i
           (x, y, o) topic Hi Hall Hloc Hpup).
Qed.

Lemma publishMarkerLocations_pose_witness :
  effects (publishMarkerLocations (fun _ => 0%Z) (init [7%Z])
             [Some (250%Z, 500%Z, PI / 2)] 0) !! 1%nat =
    Some (Publish 7
            {| stamp := 0;
               position := mkPoint (250 / 100) (500 / 100) 0;
               orientation :=
                 {| qx := cos (PI / 2 / 2); qy := 0; qz := 0;
                    qw := sin (PI / 2 / 2) |} |}).
Proof.
  apply (publishMarkerLocations_pose (fun _ => 0%Z) (init [7%Z])
           [Some (250%Z, 500%Z, PI / 2)] 0 0 7 250 500 (PI / 2) 7).
  - reflexivity.
  - intros m Hm. assert (m = 0%nat) as -> by lia.
    exists (250%Z, 500%Z, PI / 2), 7%Z. split; reflexivity.
  - reflexivity.
  - reflexivity.
Defined.

(** C2, on the code: the transform broadcast for the location
    (250, 500, pi/2) has the translation (250/100, 500/100, 0) and the
    rotation (0, 0, sin(pi/4), cos(pi/4)) of the standard conversion, but
    its parent frame ([header.frame_id]) is "/base_link" and its child
    frame is "/odom". *)
Theorem publishMarkerLocations_transform_frames :
  exists msg,
    effects (publishMarkerLocations (fun _ => 0%Z) (init [7%Z])
               [Some (250%Z, 500%Z, PI / 2)] 0) !! 2%nat = Some (Broadcast msg) /\
    header_frame_id msg = "/base_link"%string /\
    child_frame_id msg = "/odom"%string /\
    translation msg = (250 / 100, 500 / 100, 0) /\
    rotation msg = quaternion_from_euler 0 0 (PI / 2) /\
    rotation msg = mkQuaternion 0 0 (sin (PI / 4)) (cos (PI / 4)).
Proof.
  eexists. split; [reflexivity|]. cbn.
  split; [reflexivity|]. split; [reflexivity|]. split; [reflexivity|].
  split; [reflexivity|].
  rewrite quaternion_from_yaw. now replace (PI / 2 / 2) with (PI / 4) by lra.
Qed.

End RosPublisherFacts.
(** ** The symmetry detector kernel *)

Module KernelFacts.
Import MarkerTracker.





























End KernelFacts.

(** ** Orientation of the marker *)

Module OrientationFacts.
Import cv MarkerTracker MarkerTrackerFacts.

(** [p] is [e] with its fraction cut off. *)
Definition truncates (e : R) (p : Z) : Prop :=
  (0 <= e -> IZR p <= e < IZR p + 1) /\ (e < 0 -> IZR p - 1 < e <= IZR p).

(** [p] is an integer nearest to [e]. *)
Definition nearest (e : R) (p : Z) : Prop := Rabs (IZR p - e) <= 1 / 2.

Lemma py_int_truncates (e : R) : truncates e (py_int e).
Proof.
  unfold truncates, py_int. destruct (Rle_dec 0 e) as [Hp|Hn].
  - split; [intros _; apply Zfloor_bound|lra].
  - split; [lra|intros _; apply Zceil_bound].
Qed.

Lemma py_int_IZR (z : Z) : py_int (IZR z) = z.
Proof.
  unfold py_int. destruct (Rle_dec 0 (IZR z)).
  - apply ZfloorZ.
  - unfold Zceil. rewrite <- opp_IZR, ZfloorZ. lia.
Qed.

Lemma limitAngleToRange_0 : limitAngleToRange 0 = 0.
Proof.
  assert (Hpi := PI_RGT_0). unfold limitAngleToRange.
  rewrite (raise_loop_passes 1 0).
  - rewrite (lower_loop_passes 1).
    + cbn [INR]. lra.
    + intros m Hm. assert (m = 0%nat) as -> by lia. cbn [INR]. lra.
    + cbn [INR]. lra.
  - intros m Hm. assert (m = 0%nat) as -> by lia. cbn [INR]. lra.
  - cbn [INR]. lra.
Qed.

Section Probes.
Variables (frame : IplImage) (xm ym : Z) (base : R) (n : nat).

(** The candidate orientation number [k]. *)
Definition candidate (k : nat) : R := base + 2 * INR k * PI / INR n.

(** What the probe of candidate [k] reads, if its point is in the image. *)
Definition reading (k : nat) : option R :=
  let p := probe_point xm ym (candidate k) in
  val0 <$> Get2D frame (snd p) (fst p).

Lemma probe_cases (best : R * R) (k : nat) :
  (probe frame xm ym base n best k = best /\
   forall v, reading k = Some v -> v <= fst best) \/
  (exists v, reading k = Some v /\ fst best < v /\
             probe frame xm ym base n best k = (v, candidate k)).
Proof.
  unfold probe, reading. fold (candidate k).
  destruct (probe_point xm ym (candidate k)) as [xm2 ym2]. cbn [fst snd].
  destruct (Get2D frame ym2 xm2) as [s|]; cbn [fmap option_fmap option_map].
  - destruct (Rgt_dec (val0 s) (fst best)) as [Hgt|Hle].
    + right. exists (val0 s). split; [reflexivity|]. split; [lra|reflexivity].
    + left. split; [reflexivity|]. intros v [= <-]. lra.
  - left. split; [reflexivity|]. intros v [=].
Qed.

(** The loop keeps the first candidate whose reading is the largest one
    above the start value, or the start pair if no reading is above it. *)
Lemma probe_loop (ks : list nat) : forall best0 : R * R,
  let best := fold_left (probe frame xm ym base n) ks best0 in
  (best = best0 /\
   forall k v, In k ks -> reading k = Some v -> v <= fst best0) \/
  (exists ks1 k ks2,
      ks = ks1 ++ k :: ks2 /\ best = (fst best, candidate k) /\
      reading k = Some (fst best) /\ fst best0 < fst best /\
      (forall k' v, In k' ks1 -> reading k' = Some v -> v < fst best) /\
      (forall k' v, In k' ks2 -> reading k' = Some v -> v <= fst best)).
Proof.
  induction ks as [|k0 ks IH]; intros best0; cbn [fold_left].
  - left. split; [reflexivity|]. intros k v [].
  - destruct (probe_cases best0 k0) as [[Hsame Hle0]|(v0 & Hr0 & Hgt0 & Hnew)].
    + rewrite Hsame.
      destruct (IH best0) as [[Heq Hall]|(ks1 & k & ks2 & -> & Hb & Hr & Hgt & H1 & H2)].
      * left. split; [exact Heq|].
        intros k v [<-|Hin] Hv; [now apply Hle0|now apply (Hall k)].
      * right. exists (k0 :: ks1), k, ks2.
        split; [reflexivity|]. split; [exact Hb|]. split; [exact Hr|].
        split; [exact Hgt|]. split; [|exact H2].
        intros k' v [<-|Hin] Hv; [|now apply (H1 k')].
        specialize (Hle0 v Hv). lra.
    + rewrite Hnew.
      destruct (IH (v0, candidate k0))
        as [[Heq Hall]|(ks1 & k & ks2 & -> & Hb & Hr & Hgt & H1 & H2)].
      * right. exists [], k0, ks. rewrite Heq. cbn [fst snd] in *.
        split; [reflexivity|]. split; [reflexivity|]. split; [exact Hr0|].
        split; [exact Hgt0|]. split; [intros k' v []|exact Hall].
      * right. exists (k0 :: ks1), k, ks2. cbn [fst snd] in Hgt.
        split; [reflexivity|]. split; [exact Hb|]. split; [exact Hr|].
        split; [lra|]. split; [|exact H2].
        intros k' v [<-|Hin] Hv; [|now apply (H1 k')].
        rewrite Hr0 in Hv. injection Hv as <-. exact Hgt.
Qed.
End Probes.

Lemma seq_split_at (n k : nat) (ks1 ks2 : list nat) :
  seq 0 n = ks1 ++ k :: ks2 ->
  (k < n)%nat /\ (forall k', (k' < k)%nat -> In k' ks1) /\
  (forall k', (k < k' < n)%nat -> In k' ks2).
Proof.
  intros Hs.
  assert (Hlen : (length ks1 + S (length ks2) = n)%nat).
  { rewrite <- (length_seq n 0), Hs, length_app. reflexivity. }
  assert (Hk : k = length ks1).
  { assert (Hn : nth (length ks1) (seq 0 n) 0%nat = k).
    { rewrite Hs, app_nth2, Nat.sub_diag by lia. reflexivity. }
    rewrite seq_nth in Hn by lia. lia. }
  split; [lia|]. split.
  - intros k' Hk'.
    assert (Hn : nth k' (seq 0 n) 0%nat = nth k' ks1 0%nat).
    { rewrite Hs, app_nth1 by lia. reflexivity. }
    rewrite seq_nth in Hn by lia. cbn in Hn. rewrite Hn at 1.
    apply nth_In. lia.
  - intros k' Hk'.
    assert (Hn : nth k' (seq 0 n) 0%nat = nth (k' - S (length ks1)) ks2 0%nat).
    { rewrite Hs, app_nth2 by lia.
      replace (k' - length ks1)%nat with (S (k' - S (length ks1))) by lia.
      reflexivity. }
    rewrite seq_nth in Hn by lia. cbn in Hn. rewrite Hn at 1.
    apply nth_In. lia.
Qed.

(** The claim of C5 about the probe point, as the specification words it:
    both coordinates are rounded to the nearest pixel. *)
Definition probe_point_rounded (xm ym : Z) (orient : R) : Prop :=
  nearest (IZR xm + 30 * cos orient) (fst (probe_point xm ym orient)) /\
  nearest (IZR ym + 30 * sin orient) (snd (probe_point xm ym orient)).

Lemma sqrt3_bounds : 17 / 10 < sqrt 3 < 26 / 15.
Proof.
  assert (H3 : sqrt 3 * sqrt 3 = 3) by (apply sqrt_sqrt; lra).
  assert (H0 : 0 <= sqrt 3) by apply sqrt_pos.
  split; nra.
Qed.

(** C5, counterexample: for the peak (100, 100) and the second candidate
    of a marker of order 6 with base angle 0, the exact probe point is
    (115, 100 + 15*sqrt 3), about (115, 125.98); the code probes pixel
    (115, 125), not the nearest pixel (115, 126), and so does not see a
    spot that lies there. *)
Lemma probe_point_not_rounded :
  candidate 0 6 1 = PI / 3 /\
  probe_point 100 100 (PI / 3) = (115%Z, 125%Z) /\
  nearest (100 + 30 * sin (PI / 3)) 126 /\
  ~ probe_point_rounded 100 100 (PI / 3) /\
  probe Examples.spot_frame 100 100 0 6 (0, 0) 1 = (0, 0) /\
  val0 <$> Get2D Examples.spot_frame 126 115 = Some 1.
Proof.
  assert (Hs := sqrt3_bounds).
  assert (Hc : candidate 0 6 1 = PI / 3).
  { unfold candidate. cbn [INR]. field. }
  assert (Hx : IZR 100 + 30 * cos (PI / 3) = IZR 115) by (rewrite cos_PI3; lra).
  assert (Hy : 125 <= IZR 100 + 30 * sin (PI / 3) < 125 + 1)
    by (rewrite sin_PI3; lra).
  assert (Hp : probe_point 100 100 (PI / 3) = (115%Z, 125%Z)).
  { unfold probe_point. rewrite Hx, py_int_IZR. f_equal.
    unfold py_int. destruct (Rle_dec 0 (IZR 100 + 30 * sin (PI / 3))); [|lra].
    apply Zfloor_eq. exact Hy. }
  split; [exact Hc|]. split; [exact Hp|]. split; [|split; [|split]].
  - unfold nearest. rewrite sin_PI3. apply Rabs_le. lra.
  - unfold probe_point_rounded, nearest. rewrite Hp. cbn [fst snd].
    intros [_ Hn]. rewrite sin_PI3 in Hn. rewrite Rabs_left in Hn by lra. lra.
  - unfold probe. fold (candidate 0 6 1). rewrite Hc, Hp.
    cbn. destruct (Rgt_dec 0 0); [lra|reflexivity].
  - reflexivity.
Qed.

(** C5, amended: the disambiguation examines exactly [order] candidate
    angles [base + 2*pi*k/order], [k] from 0 to [order - 1]; each is probed
    at distance 30 from the peak, the coordinates of the probe point cut
    to integers toward zero; probes outside the image are skipped and the
    call does not raise for them; starting from intensity 0 and angle 0,
    the first candidate with the highest intensity above 0 is kept; and
    the orientation is 0 when every probe is outside the image. *)
Theorem determineMarkerOrientation_probes (self : state) (frame fR fI : IplImage)
    (xm ym : Z) (sR sI : CvScalar) :
  lastMarkerLocation self = Some (xm, ym) ->
  frameReal self = Some fR -> frameImag self = Some fI ->
  Get2D fR ym xm = Some sR -> Get2D fI ym xm = Some sI ->
  order self <> 0%nat ->
  let n := order self in
  let base := (atan2 (- val0 sR) (val0 sI) - PI / 2) / INR n in
  exists (self' : state) (maxValue maxOrient : R),
    determineMarkerOrientation self frame = Some self' /\
    orientation self' = Some (limitAngleToRange maxOrient) /\
    (maxValue, maxOrient) =
      fold_left (probe frame xm ym base n) (seq 0 n) (0, 0) /\
    length (seq 0 n) = n /\
    (forall k, truncates (IZR xm + 30 * cos (candidate base n k))
                         (fst (probe_point xm ym (candidate base n k))) /\
               truncates (IZR ym + 30 * sin (candidate base n k))
                         (snd (probe_point xm ym (candidate base n k)))) /\
    ((maxValue = 0 /\ maxOrient = 0) \/
     (exists k, (k < n)%nat /\ maxOrient = candidate base n k /\
                reading frame xm ym base n k = Some maxValue /\ 0 < maxValue /\
                forall k' v, (k' < k)%nat ->
                  reading frame xm ym base n k' = Some v -> v < maxValue)) /\
    (forall k v, (k < n)%nat ->
       reading frame xm ym base n k = Some v -> v <= maxValue) /\
    ((forall k, (k < n)%nat -> reading frame xm ym base n k = None) ->
     orientation self' = Some 0).
Proof.
  intros Hloc HfR HfI HsR HsI Hn n base.
  unfold determineMarkerOrientation.
  rewrite Hloc, HfR, HfI. cbn [mbind option_bind].
  rewrite HsR, HsI. cbn [fmap option_fmap option_map mbind option_bind].
  destruct (Nat.eqb_spec (order self) 0) as [H0|_]; [contradiction|].
  fold n. fold base.
  destruct (fold_left (probe frame xm ym base n) (seq 0 n) (0, 0))
    as [maxValue maxOrient] eqn:Hfold.
  eexists _, maxValue, maxOrient.
  split; [reflexivity|]. cbn [orientation].
  split; [reflexivity|]. split; [reflexivity|].
  split; [apply length_seq|].
  split; [intros k; split; apply py_int_truncates|].
  pose proof (probe_loop frame xm ym base n (seq 0 n) (0, 0)) as Hloop.
  cbn zeta in Hloop. rewrite Hfold in Hloop. cbn [fst snd] in Hloop.
  destruct Hloop as [[Heq Hall]|(ks1 & k & ks2 & Hs & Hb & Hr & Hgt & H1 & H2)].
  - injection Heq as -> ->.
    split; [left; split; reflexivity|]. split.
    + intros k v Hk. apply Hall, in_seq. lia.
    + intros _. now rewrite limitAngleToRange_0.
  - injection Hb as ->.
    destruct (seq_split_at n k ks1 ks2 Hs) as (Hk & Hin1 & Hin2).
    split; [|split].
    + right. exists k. split; [exact Hk|]. split; [reflexivity|].
      split; [exact Hr|]. split; [exact Hgt|].
      intros k' v Hk' Hv. apply (H1 k' v); [now apply Hin1|exact Hv].
    + intros k' v Hk' Hv.
      destruct (Nat.lt_trichotomy k' k) as [Hlt|[->|Hgt']].
      * apply Rlt_le, (H1 k' v); [now apply Hin1|exact Hv].
      * rewrite Hr in Hv. injection Hv as <-. lra.
      * apply (H2 k' v); [apply Hin2; lia|exact Hv].
    + intros Hnone. rewrite (Hnone k Hk) in Hr. discriminate.
Qed.

Lemma determineMarkerOrientation_probes_witness :
  exists self' maxOrient,
    determineMarkerOrientation Examples.window_marker_tracker Examples.dark_window
      = Some self' /\
    orientation self' = Some (limitAngleToRange maxOrient).
Proof.
  destruct (determineMarkerOrientation_probes Examples.window_marker_tracker
              Examples.dark_window Examples.dark_window Examples.dark_window
              50 50 (0, 0, 0, 0) (0, 0, 0, 0))
    as (self' & maxValue & maxOrient & Hrun & Hor & _).
  - reflexivity.
  - reflexivity.
  - reflexivity.
  - reflexivity.
  - reflexivity.
  - cbn. lia.
  - exists self', maxOrient. split; [exact Hrun|exact Hor].
Defined.

End OrientationFacts.

(** ** Locating the marker *)

Module LocateFacts.
Import cv MarkerTracker.

Lemma same_size_eq (a b : IplImage) :
  same_size a b = true <-> width a = width b /\ height a = height b.
Proof. unfold same_size. rewrite andb_true_iff, !Z.eqb_eq. tauto. Qed.

Lemma Depth_eqb_eq (a b : Depth) : Depth_eqb a b = true <-> a = b.
Proof. destruct a, b; cbn; split; congruence. Qed.

Lemma same_type_eq (a b : IplImage) :
  same_type a b = true <-> depth a = depth b /\ nChannels a = nChannels b.
Proof. unfold same_type. rewrite andb_true_iff, Depth_eqb_eq, Z.eqb_eq. tauto. Qed.

Lemma same_size_refl (a : IplImage) : same_size a a = true.
Proof. now apply same_size_eq. Qed.

Lemma same_type_refl (a : IplImage) : same_type a a = true.
Proof. now apply same_type_eq. Qed.

(** A buffer that [cv.Mul] and [cv.Add] accept as destination for arrays
    shaped like [frame]. *)
Definition fits (buffer : option IplImage) (frame : IplImage) : Prop :=
  exists b, buffer = Some b /\ same_size frame b = true /\ same_type frame b = true.

Lemma pointwise_fits (op : R -> R -> R) (src1 src2 : IplImage)
    (buffer : option IplImage) :
  same_size src1 src2 = true -> same_type src1 src2 = true ->
  fits buffer src1 ->
  exists dst,
    buffer ≫= pointwise op src1 src2 = Some dst /\
    same_size src1 dst = true /\ same_type src1 dst = true /\
    data dst = fun y x c => op (data src1 y x c) (data src2 y x c).
Proof.
  intros Hs Ht (b & -> & Hsb & Htb). cbn [mbind option_bind].
  unfold pointwise. rewrite Hs, Ht, Hsb, Htb. cbn [andb].
  eexists. split; [reflexivity|].
  apply same_size_eq in Hsb. apply same_type_eq in Htb.
  split; [apply same_size_eq; cbn; tauto|].
  split; [apply same_type_eq; cbn; tauto|reflexivity].
Qed.

Lemma Zrange_elem (lo n z : Z) : In z (Zrange lo n) <-> (lo <= z < lo + n)%Z.
Proof.
  unfold Zrange. rewrite in_map_iff. split.
  - intros (i & <- & Hi). apply in_seq in Hi. lia.
  - intros Hz. exists (Z.to_nat (z - lo)). split; [lia|]. apply in_seq. lia.
Qed.

(** The scan visits exactly the pixels of the image. *)
Lemma positions_elem (arr : IplImage) (x y : Z) :
  In (x, y) (positions arr) <->
  (0 <= x < width arr)%Z /\ (0 <= y < height arr)%Z.
Proof.
  unfold positions. rewrite <- list_elem_of_In, list_elem_of_bind. split.
  - intros (y' & Hx & Hy). apply list_elem_of_bind in Hx.
    destruct Hx as (x' & Hp & Hx). apply list_elem_of_singleton in Hp.
    injection Hp as -> ->.
    apply list_elem_of_In, Zrange_elem in Hx, Hy. lia.
  - intros [Hx Hy]. exists y. split.
    + apply list_elem_of_bind. exists x. split.
      * now apply list_elem_of_singleton.
      * apply list_elem_of_In, Zrange_elem. lia.
    + apply list_elem_of_In, Zrange_elem. lia.
Qed.

(** The scan for the maximum ends on a visited position whose sample no
    visited sample exceeds. *)
Lemma argmax_greatest (arr : IplImage) (rest : list (Z * Z)) :
  forall first : Z * Z,
    In (argmax arr first rest) (first :: rest) /\
    forall p, In p (first :: rest) -> sample arr p <= sample arr (argmax arr first rest).
Proof.
  unfold argmax.
  induction rest as [|q rest IH]; intros first; cbn [fold_left].
  - split; [now left|]. intros p [<-|[]]. lra.
  - destruct (Rlt_dec (sample arr first) (sample arr q)) as [Hlt|Hge].
    + destruct (IH q) as [Hin Hmax]. split.
      * right. exact Hin.
      * intros p [<-|Hp]; [|now apply Hmax].
        specialize (Hmax q (or_introl eq_refl)). lra.
    + destruct (IH first) as [Hin Hmax]. split.
      * destruct Hin as [<-|Hin]; [now left|right; now right].
      * intros p [<-|[<-|Hp]].
        -- apply Hmax. now left.
        -- specialize (Hmax first (or_introl eq_refl)). lra.
        -- apply Hmax. now right.
Qed.

(** A first position that no later one exceeds stays the maximum. *)
Lemma argmax_first (arr : IplImage) (rest : list (Z * Z)) (first : Z * Z) :
  (forall p, In p rest -> sample arr p <= sample arr first) ->
  argmax arr first rest = first.
Proof.
  unfold argmax. induction rest as [|q rest IH]; intros Hle; cbn [fold_left].
  - reflexivity.
  - destruct (Rlt_dec (sample arr first) (sample arr q)) as [Hlt|_].
    + specialize (Hle q (or_introl eq_refl)). lra.
    + apply IH. intros p Hp. apply Hle. now right.
Qed.

(** The scan starts in the top left corner. *)
Lemma positions_head (arr : IplImage) :
  (0 < width arr)%Z -> (0 < height arr)%Z ->
  exists rest, positions arr = (0%Z, 0%Z) :: rest.
Proof.
  intros Hw Hh. unfold positions, Zrange.
  destruct (Z.to_nat (height arr)) as [|h] eqn:Eh; [lia|].
  destruct (Z.to_nat (width arr)) as [|w] eqn:Ew; [lia|].
  cbn. eexists. reflexivity.
Qed.

Lemma MinMaxLoc_max (arr : IplImage) :
  nChannels arr = 1%Z -> (0 < width arr)%Z -> (0 < height arr)%Z ->
  exists min_val max_val min_loc xm ym,
    MinMaxLoc arr = Some (min_val, max_val, min_loc, (xm, ym)) /\
    (0 <= xm < width arr)%Z /\ (0 <= ym < height arr)%Z /\
    (forall x y, (0 <= x < width arr)%Z -> (0 <= y < height arr)%Z ->
       data arr y x 0%Z <= data arr ym xm 0%Z) /\
    ((forall x y, data arr y x 0%Z <= data arr 0%Z 0%Z 0%Z) ->
     xm = 0%Z /\ ym = 0%Z).
Proof.
  intros Hc Hw Hh. unfold MinMaxLoc. rewrite Hc, Z.eqb_refl.
  destruct (positions_head arr Hw Hh) as [ps Hpos]. rewrite Hpos.
  destruct (argmax_greatest arr ps (0%Z, 0%Z)) as [Hin Hmax].
  destruct (argmax arr (0%Z, 0%Z) ps) as [xm ym] eqn:Hm.
  rewrite <- Hpos in Hin, Hmax.
  apply positions_elem in Hin.
  do 3 eexists. exists xm, ym. split; [reflexivity|].
  split; [tauto|]. split; [tauto|]. split.
  - intros x y Hx Hy.
    apply (Hmax (x, y)). apply positions_elem. tauto.
  - intros Hflat.
    rewrite argmax_first in Hm.
    + injection Hm as <- <-. split; reflexivity.
    + intros [x y] _. apply Hflat.
Qed.

(** An image all of whose samples are 0. *)
Definition dark (img : IplImage) : Prop := forall y x c, data img y x c = 0.

Lemma Rsum_imap_zero {A} (l : list A) : forall f : nat -> A -> R,
  (forall i a, f i a = 0) -> Rsum (imap f l) = 0.
Proof.
  unfold Rsum. induction l as [|a l IH]; intros f Hf; cbn [imap foldr].
  - reflexivity.
  - rewrite Hf, IH; [lra|]. intros i b. apply Hf.
Qed.

Lemma Filter2D_dark (src : IplImage) (kernel : CvMat) :
  dark src -> dark (Filter2D src kernel).
Proof.
  intros Hd y x c. cbn [Filter2D data].
  apply Rsum_imap_zero. intros i row.
  apply Rsum_imap_zero. intros j k. rewrite Hd. ring.
Qed.

Lemma reading_dark (frame : IplImage) (xm ym : Z) (base : R) (n k : nat) (v : R) :
  dark frame -> OrientationFacts.reading frame xm ym base n k = Some v -> v = 0.
Proof.
  intros Hd. unfold OrientationFacts.reading, Get2D.
  destruct (in_image frame _ _); cbn; [|discriminate].
  intros [= <-]. rewrite Hd. now destruct (0 <? nChannels frame)%Z.
Qed.

(** In a dark image no probe beats the start value. *)
Lemma probes_dark (frame : IplImage) (xm ym : Z) (base : R) (n : nat)
    (ks : list nat) :
  dark frame -> fold_left (probe frame xm ym base n) ks (0, 0) = (0, 0).
Proof.
  intros Hd.
  destruct (OrientationFacts.probe_loop frame xm ym base n ks (0, 0))
    as [[Heq _]|(ks1 & k & ks2 & _ & _ & Hr & Hgt & _)].
  - exact Heq.
  - apply (reading_dark _ _ _ _ _ _ _ Hd) in Hr. cbn [fst] in Hgt. lra.
Qed.

(** When the peak lies in the filtered images, the orientation step
    returns and leaves the location alone. *)
Lemma determineMarkerOrientation_returns (self : state) (frame fR fI : IplImage)
    (xm ym : Z) :
  lastMarkerLocation self = Some (xm, ym) ->
  frameReal self = Some fR -> frameImag self = Some fI ->
  in_image fR ym xm = true -> in_image fI ym xm = true ->
  order self <> 0%nat ->
  (0 < nChannels fR)%Z -> (0 < nChannels fI)%Z ->
  exists self',
    determineMarkerOrientation self frame = Some self' /\
    lastMarkerLocation self' = Some (xm, ym) /\
    order self' = order self /\
    orientation self' =
      Some (limitAngleToRange
              (snd (fold_left
                      (probe frame xm ym
                         ((atan2 (- data fR ym xm 0%Z) (data fI ym xm 0%Z) - PI / 2)
                          / INR (order self)) (order self))
                      (seq 0 (order self)) (0, 0)))) /\
    frameRealSq self' = frameRealSq self /\
    frameImagSq self' = frameImagSq self /\
    frameSumSq self' = frameSumSq self.
Proof.
  intros Hloc HfR HfI HiR HiI Hn Hc1 Hc2.
  unfold determineMarkerOrientation.
  rewrite Hloc, HfR, HfI. cbn [mbind option_bind].
  unfold Get2D. rewrite HiR, HiI.
  cbn [fmap option_fmap option_map mbind option_bind val0 fst].
  destruct (Z.ltb_spec 0 (nChannels fR)) as [_|]; [|lia].
  destruct (Z.ltb_spec 0 (nChannels fI)) as [_|]; [|lia].
  destruct (Nat.eqb_spec (order self) 0) as [H0|_]; [contradiction|].
  destruct (fold_left _ _ _) as [maxValue maxOrient].
  eexists. split; [reflexivity|]. cbn. auto 10.
Qed.

(** The energy of the filter response at a pixel. *)
Definition energy (self : state) (frame : IplImage) (x y : Z) : R :=
  let re := data (Filter2D frame (matReal self)) y x 0%Z in
  let im := data (Filter2D frame (matImag self)) y x 0%Z in
  re * re + im * im.

(** [locateMarker] on an image for which the buffers were allocated: it
    returns a pixel of greatest energy, remembers it, and leaves buffers
    that still fit. *)
Lemma locateMarker_peak (self : state) (frame : IplImage) :
  order self <> 0%nat ->
  nChannels frame = 1%Z -> (0 < width frame)%Z -> (0 < height frame)%Z ->
  fits (frameRealSq self) frame -> fits (frameImagSq self) frame ->
  fits (frameSumSq self) frame ->
  exists (self' : state) (xm ym : Z),
    locateMarker self frame = Some (self', (xm, ym)) /\
    lastMarkerLocation self' = Some (xm, ym) /\
    (0 <= xm < width frame)%Z /\ (0 <= ym < height frame)%Z /\
    (forall x y, (0 <= x < width frame)%Z -> (0 <= y < height frame)%Z ->
       energy self frame x y <= energy self frame xm ym) /\
    order self' = order self /\
    orientation self' =
      Some (limitAngleToRange
              (snd (fold_left
                      (probe frame xm ym
                         ((atan2 (- data (Filter2D frame (matReal self)) ym xm 0%Z)
                                 (data (Filter2D frame (matImag self)) ym xm 0%Z)
                           - PI / 2) / INR (order self)) (order self))
                      (seq 0 (order self)) (0, 0)))) /\
    fits (frameRealSq self') frame /\ fits (frameImagSq self') frame /\
    fits (frameSumSq self') frame /\
    (dark frame -> xm = 0%Z /\ ym = 0%Z /\ orientation self' = Some 0).
Proof.
  intros Hn Hc Hw Hh HbR HbI HbS.
  unfold locateMarker, CloneImage, Mul, Add.
  set (fR := Filter2D frame (matReal self)).
  set (fI := Filter2D frame (matImag self)).
  destruct (pointwise_fits Rmult fR fR (frameRealSq self))
    as (realSq & -> & HsR & HtR & HdR);
    [apply same_size_refl|apply same_type_refl|exact HbR|].
  destruct (pointwise_fits Rmult fI fI (frameImagSq self))
    as (imagSq & -> & HsI & HtI & HdI);
    [apply same_size_refl|apply same_type_refl|exact HbI|].
  cbn [mbind option_bind].
  assert (HfitR : fits (Some realSq) frame) by (exists realSq; auto).
  assert (HfitI : fits (Some imagSq) frame) by (exists imagSq; auto).
  apply same_size_eq in HsR, HsI. apply same_type_eq in HtR, HtI.
  cbn [fR fI Filter2D width height depth nChannels] in HsR, HsI, HtR, HtI.
  destruct HsR as [HwR HhR], HsI as [HwI HhI], HtR as [HdpR HcR], HtI as [HdpI HcI].
  destruct (pointwise_fits Rplus realSq imagSq (frameSumSq self))
    as (sumSq & -> & HsS & HtS & HdS).
  { apply same_size_eq. split; lia. }
  { apply same_type_eq. split; [congruence|lia]. }
  { destruct HbS as (b & Hb & Hsb & Htb). exists b. split; [exact Hb|].
    apply same_size_eq in Hsb. apply same_type_eq in Htb.
    destruct Hsb as [Hwb Hhb], Htb as [Hdb Hcb].
    split; [apply same_size_eq|apply same_type_eq]; split; try lia; congruence. }
  cbn [mbind option_bind].
  apply same_size_eq in HsS. apply same_type_eq in HtS.
  destruct HsS as [HwS HhS], HtS as [HdpS HcS].
  assert (HfitS : fits (Some sumSq) frame).
  { exists sumSq. split; [reflexivity|].
    split; [apply same_size_eq|apply same_type_eq]; split; try lia; congruence. }
  destruct (MinMaxLoc_max sumSq)
    as (min_val & max_val & min_loc & xm & ym & -> & Hxm & Hym & Hmax & Hflat);
    [lia..|].
  cbn [mbind option_bind].
  match goal with
  | |- context [determineMarkerOrientation ?s frame] =>
      destruct (determineMarkerOrientation_returns s frame fR fI xm ym)
        as (self' & -> & Hloc & Hord & Hor & HqR & HqI & HqS)
  end; try reflexivity; try exact Hn.
  { unfold in_image. cbn [fR Filter2D width height].
    repeat (apply andb_true_intro; split); try apply Z.leb_le; try apply Z.ltb_lt; lia. }
  { unfold in_image. cbn [fI Filter2D width height].
    repeat (apply andb_true_intro; split); try apply Z.leb_le; try apply Z.ltb_lt; lia. }
  { cbn [fR Filter2D nChannels]. lia. }
  { cbn [fI Filter2D nChannels]. lia. }
  cbn [mbind option_bind].
  cbn [order frameRealSq frameImagSq frameSumSq] in Hord, Hor, HqR, HqI, HqS.
  exists self', xm, ym. split; [reflexivity|]. split; [exact Hloc|].
  split; [lia|]. split; [lia|]. split.
  - intros x y Hx Hy.
    specialize (Hmax x y ltac:(lia) ltac:(lia)).
    rewrite HdS, HdR, HdI in Hmax. exact Hmax.
  - split; [exact Hord|]. split; [exact Hor|].
    rewrite HqR, HqI, HqS.
    split; [exact HfitR|]. split; [exact HfitI|]. split; [exact HfitS|].
    intros Hd.
    assert (HdR0 := Filter2D_dark frame (matReal self) Hd).
    assert (HdI0 := Filter2D_dark frame (matImag self) Hd).
    destruct Hflat as [-> ->].
    { intros x y. rewrite HdS, HdR, HdI. fold fR fI in HdR0, HdI0.
      rewrite !HdR0, !HdI0. lra. }
    split; [reflexivity|]. split; [reflexivity|].
    rewrite Hor, probes_dark by exact Hd.
    cbn [snd]. now rewrite OrientationFacts.limitAngleToRange_0.
Qed.

(** C7: for every single-channel, non-empty image for which the scratch
    buffers were allocated, [locateMarker] of a tracker of non-zero order
    returns the coordinates of a pixel at which the energy (squared real
    response plus squared imaginary response) is greatest over the whole
    image, and these coordinates are the tracker's last marker location
    afterwards. *)
Theorem locateMarker_global_maximum (self : state) (frame : IplImage) :
  order self <> 0%nat ->
  nChannels frame = 1%Z -> (0 < width frame)%Z -> (0 < height frame)%Z ->
  fits (frameRealSq self) frame -> fits (frameImagSq self) frame ->
  fits (frameSumSq self) frame ->
  exists (self' : state) (xm ym : Z),
    locateMarker self frame = Some (self', (xm, ym)) /\
    lastMarkerLocation self' = Some (xm, ym) /\
    (0 <= xm < width frame)%Z /\ (0 <= ym < height frame)%Z /\
    forall x y, (0 <= x < width frame)%Z -> (0 <= y < height frame)%Z ->
      energy self frame x y <= energy self frame xm ym.
Proof.
  intros Hn Hc Hw Hh HbR HbI HbS.
  destruct (locateMarker_peak self frame Hn Hc Hw Hh HbR HbI HbS)
    as (self' & xm & ym & Hrun & Hloc & Hx & Hy & Hmax & _).
  exists self', xm, ym. auto.
Qed.

Lemma locateMarker_global_maximum_witness :
  exists self' xm ym,
    locateMarker Examples.window_marker_tracker Examples.dark_window
      = Some (self', (xm, ym)) /\
    lastMarkerLocation self' = Some (xm, ym).
Proof.
  destruct (locateMarker_global_maximum Examples.window_marker_tracker
              Examples.dark_window)
    as (self' & xm & ym & Hrun & Hloc & _).
  - cbn. lia.
  - reflexivity.
  - cbn. lia.
  - cbn. lia.
  - exists Examples.dark_window. repeat split.
  - exists Examples.dark_window. repeat split.
  - exists Examples.dark_window. repeat split.
  - exists self', xm, ym. split; [exact Hrun|exact Hloc].
Defined.

End LocateFacts.

(** ** The windowed tracker and the full-frame analyzer, step by step *)

Module StepFacts.
Import cv LocateFacts.

(** The geometry and type of an image. *)
Definition shaped (img : IplImage) (w h : Z) (d : Depth) (c : Z) : Prop :=
  width img = w /\ height img = h /\ depth img = d /\ nChannels img = c.

(** A colour frame as the camera delivers it. *)
Definition camera_frame (dp : Depth) (frame : IplImage) : Prop :=
  shaped frame (width frame) (height frame) dp 3 /\
  (0 < width frame)%Z /\ (0 < height frame)%Z.

(** The state of a windowed tracker between two calls: what its
    constructor establishes and its methods keep. *)
Definition wf_window (w : TrackerInWindowMode.state) : Prop :=
  let ww := TrackerInWindowMode.windowWidth w in
  let wh := TrackerInWindowMode.windowHeight w in
  (0 < ww)%Z /\ (0 < wh)%Z /\
  shaped (TrackerInWindowMode.frameGray w) ww wh IPL_DEPTH_32F 1 /\
  shaped (TrackerInWindowMode.originalImage w) ww wh IPL_DEPTH_32F 3 /\
  TrackerInWindowMode.trackerIsInitialized w = false /\
  MarkerTracker.order (TrackerInWindowMode.markerTracker w) <> 0%nat.

Lemma CreateImage_shaped (mem : Z -> Z -> Z -> R) (w h : Z) (d : Depth) (c : Z) :
  (0 <= w)%Z -> (0 <= h)%Z ->
  CreateImage mem (w, h) d c = Some (mkImage w h d c mem).
Proof.
  intros Hw Hh. unfold CreateImage. cbn [fst snd].
  destruct (Z.ltb_spec w 0); [lia|]. destruct (Z.ltb_spec h 0); [lia|].
  reflexivity.
Qed.

Lemma fits_shaped (b g : IplImage) (w h : Z) (d : Depth) (c : Z) :
  shaped b w h d c -> shaped g w h d c -> fits (Some b) g.
Proof.
  intros (Hbw & Hbh & Hbd & Hbc) (Hgw & Hgh & Hgd & Hgc).
  exists b. split; [reflexivity|].
  split; [apply same_size_eq|apply same_type_eq]; split; congruence.
Qed.

(** The buffers that [allocateSpaceGivenFirstFrame] creates fit every
    single-channel float image of the size of the reference image. *)
Lemma allocate_fits `{CvRuntime} (mt : MarkerTracker.state) (ref g : IplImage) :
  (0 <= width ref)%Z -> (0 <= height ref)%Z ->
  shaped g (width ref) (height ref) IPL_DEPTH_32F 1 ->
  exists mt',
    MarkerTracker.allocateSpaceGivenFirstFrame mt ref = Some mt' /\
    MarkerTracker.order mt' = MarkerTracker.order mt /\
    MarkerTracker.matReal mt' = MarkerTracker.matReal mt /\
    MarkerTracker.matImag mt' = MarkerTracker.matImag mt /\
    fits (MarkerTracker.frameRealSq mt') g /\
    fits (MarkerTracker.frameImagSq mt') g /\
    fits (MarkerTracker.frameSumSq mt') g.
Proof.
  intros Hw Hh Hg. unfold MarkerTracker.allocateSpaceGivenFirstFrame.
  rewrite !CreateImage_shaped by assumption. cbn [mbind option_bind].
  eexists. split; [reflexivity|]. cbn.
  assert (Hb : fits (Some (mkImage (width ref) (height ref) IPL_DEPTH_32F 1 uninitialised)) g).
  { eapply fits_shaped; [|exact Hg]. repeat split. }
  auto 10.
Qed.

Lemma GetSubRect_Some (arr sub : IplImage) (x y w h : Z) :
  GetSubRect arr (x, y, w, h) = Some sub ->
  sub = mkImage w h (depth arr) (nChannels arr)
          (fun r c ch => data arr (y + r) (x + c) ch).
Proof.
  unfold GetSubRect. destruct (_ && _); [|discriminate]. now intros [= <-].
Qed.

Lemma ConvertScale_Some (src dst : IplImage) :
  width src = width dst -> height src = height dst ->
  nChannels src = nChannels dst ->
  ConvertScale src dst =
    Some (mkImage (width dst) (height dst) (depth dst) (nChannels dst) (data src)).
Proof.
  intros Hw Hh Hc. unfold ConvertScale, same_size.
  rewrite Hw, Hh, Hc, !Z.eqb_refl. reflexivity.
Qed.

Lemma ConvertScale_None (src dst : IplImage) :
  nChannels src <> nChannels dst -> ConvertScale src dst = None.
Proof.
  intros Hc. unfold ConvertScale.
  destruct (Z.eqb_spec (nChannels src) (nChannels dst)); [contradiction|].
  now rewrite andb_false_r.
Qed.

Lemma CvtColor_Some (src dst : IplImage) :
  width src = width dst -> height src = height dst -> depth src = depth dst ->
  nChannels src = 3%Z -> nChannels dst = 1%Z ->
  CvtColor_RGB2GRAY src dst =
    Some (mkImage (width dst) (height dst) (depth dst) 1
            (fun y x _ => 0.299 * data src y x 0%Z + 0.587 * data src y x 1%Z
                          + 0.114 * data src y x 2%Z)).
Proof.
  intros Hw Hh Hd Hs Hc. unfold CvtColor_RGB2GRAY, same_size.
  rewrite Hw, Hh, Hd, Hs, Hc, !Z.eqb_refl.
  assert (Depth_eqb (depth dst) (depth dst) = true) as -> by now apply Depth_eqb_eq.
  reflexivity.
Qed.

(** The window rectangle that [cropFrame] works with. *)
Definition window_rect (w : TrackerInWindowMode.state) (frame : IplImage)
    (x y : Z) : Z * Z * Z * Z :=
  (fst (TrackerInWindowMode.window_corner w frame x y),
   snd (TrackerInWindowMode.window_corner w frame x y),
   TrackerInWindowMode.windowWidth w, TrackerInWindowMode.windowHeight w).

(** A statement of the [try] block of [cropFrame] raises. *)
Definition crop_raises (w : TrackerInWindowMode.state) (frame : IplImage)
    (x y : Z) : Prop :=
  match GetSubRect frame (window_rect w frame x y) with
  | None => True
  | Some sub =>
      match ConvertScale sub (TrackerInWindowMode.originalImage w) with
      | None => True
      | Some orig =>
          CvtColor_RGB2GRAY orig (TrackerInWindowMode.frameGray w) = None
      end
  end.

(** [cropFrame] on a well-formed tracker: it returns, with the buffers of
    its marker tracker allocated for the window image; if a statement of
    the [try] block raised, the report is printed and the window image is
    the one of before; otherwise nothing is printed. *)
Lemma cropFrame_runs `{CvRuntime} (w : TrackerInWindowMode.state)
    (frame : IplImage) (x y : Z) :
  wf_window w ->
  let ww := TrackerInWindowMode.windowWidth w in
  let wh := TrackerInWindowMode.windowHeight w in
  let rect := window_rect w frame x y in
  exists w1 printed,
    TrackerInWindowMode.cropFrame w frame x y = Some (w1, printed) /\
    wf_window w1 /\
    TrackerInWindowMode.windowWidth w1 = ww /\
    TrackerInWindowMode.windowHeight w1 = wh /\
    MarkerTracker.order (TrackerInWindowMode.markerTracker w1) =
      MarkerTracker.order (TrackerInWindowMode.markerTracker w) /\
    fits (MarkerTracker.frameRealSq (TrackerInWindowMode.markerTracker w1))
         (TrackerInWindowMode.frameGray w1) /\
    fits (MarkerTracker.frameImagSq (TrackerInWindowMode.markerTracker w1))
         (TrackerInWindowMode.frameGray w1) /\
    fits (MarkerTracker.frameSumSq (TrackerInWindowMode.markerTracker w1))
         (TrackerInWindowMode.frameGray w1) /\
    TrackerInWindowMode.subImagePosition w1 = Some rect /\
    ((exists red, TrackerInWindowMode.reducedImage w1
                  = Some (TrackerInWindowMode.Buffer red)) \/
     (TrackerInWindowMode.reducedImage w1
        = Some (TrackerInWindowMode.SubRectOfFrame rect) /\
      is_Some (GetSubRect frame rect))) /\
    (crop_raises w frame x y ->
     printed = TrackerInWindowMode.failure_report w frame /\
     TrackerInWindowMode.frameGray w1 = TrackerInWindowMode.frameGray w) /\
    (~ crop_raises w frame x y -> printed = []).
Proof.
  intros (Hww & Hwh & Hg & Ho & Hinit & Hord). cbv zeta.
  destruct Hg as (Hgw & Hgh & Hgd & Hgc).
  destruct Ho as (How & Hoh & Hod & Hoc).
  destruct (allocate_fits (TrackerInWindowMode.markerTracker w)
              (TrackerInWindowMode.originalImage w)
              (TrackerInWindowMode.frameGray w))
    as (mt & Halloc & Hmord & _ & _ & HfR & HfI & HfS).
  { rewrite How. lia. }
  { rewrite Hoh. lia. }
  { rewrite How, Hoh. repeat split; assumption. }
  unfold TrackerInWindowMode.cropFrame.
  rewrite Hinit, Halloc. cbn [negb mbind option_bind].
  rewrite CreateImage_shaped by lia.
  cbn [mbind option_bind].
  match goal with
  | |- context [TrackerInWindowMode.try_crop ?s _ _] => set (w0 := s)
  end.
  change (TrackerInWindowMode.window_corner w0 frame x y)
    with (TrackerInWindowMode.window_corner w frame x y).
  change (TrackerInWindowMode.windowWidth w0)
    with (TrackerInWindowMode.windowWidth w).
  change (TrackerInWindowMode.windowHeight w0)
    with (TrackerInWindowMode.windowHeight w).
  unfold crop_raises, window_rect.
  destruct (TrackerInWindowMode.window_corner w frame x y) as [cx cy].
  cbn [fst snd].
  remember (cx, cy, TrackerInWindowMode.windowWidth w,
            TrackerInWindowMode.windowHeight w) as rect eqn:Hrect.
  assert (Hshape : shaped (TrackerInWindowMode.frameGray w)
                     (TrackerInWindowMode.windowWidth w)
                     (TrackerInWindowMode.windowHeight w) IPL_DEPTH_32F 1)
    by (repeat split; assumption).
  unfold TrackerInWindowMode.try_crop.
  destruct (GetSubRect frame rect) as [sub|] eqn:Hsub.
  - assert (Hshape0 := Hsub). rewrite Hrect in Hshape0.
    apply GetSubRect_Some in Hshape0.
    cbn [TrackerInWindowMode.originalImage TrackerInWindowMode.frameGray
         TrackerInWindowMode.windowWidth TrackerInWindowMode.windowHeight
         TrackerInWindowMode.markerTracker TrackerInWindowMode.trackerIsInitialized
         TrackerInWindowMode.subImagePosition TrackerInWindowMode.reducedImage w0].
    destruct (Z.eq_dec (nChannels frame) 3%Z) as [Hc3|Hc3].
    + rewrite (ConvertScale_Some sub (TrackerInWindowMode.originalImage w))
        by (rewrite Hshape0; cbn; congruence).
      rewrite CvtColor_Some by (cbn; congruence).
      do 2 eexists. split; [reflexivity|].
      split.
      { unfold wf_window. cbn.
        rewrite Hgw, Hgh, Hgd, How, Hoh, Hod, Hoc, Hmord.
        repeat split; try assumption; try reflexivity. }
      cbn. rewrite Hmord.
      assert (Hfit : forall b dat, fits b (TrackerInWindowMode.frameGray w) ->
                fits b (mkImage (width (TrackerInWindowMode.frameGray w))
                                (height (TrackerInWindowMode.frameGray w))
                                (depth (TrackerInWindowMode.frameGray w)) 1 dat)).
      { intros b dat (b0 & -> & Hs & Ht). exists b0. split; [reflexivity|].
        apply same_size_eq in Hs. apply same_type_eq in Ht.
        destruct Hs, Ht.
        split; [apply same_size_eq|apply same_type_eq]; cbn; split; congruence. }
      split; [reflexivity|]. split; [reflexivity|]. split; [reflexivity|].
      split; [now apply Hfit|]. split; [now apply Hfit|]. split; [now apply Hfit|].
      split; [reflexivity|].
      split; [right; split; [reflexivity|]; eauto|].
      split; [discriminate|].
      intros Hno. reflexivity.
    + rewrite (ConvertScale_None sub (TrackerInWindowMode.originalImage w))
        by (rewrite Hshape0; cbn; congruence).
      do 2 eexists. split; [reflexivity|].
      split.
      { unfold wf_window. cbn. rewrite Hmord.
        repeat split; assumption. }
      cbn. rewrite Hmord.
      split; [reflexivity|]. split; [reflexivity|]. split; [reflexivity|].
      split; [exact HfR|]. split; [exact HfI|]. split; [exact HfS|].
      split; [reflexivity|].
      split; [right; split; [reflexivity|]; eauto|].
      split; [intros _; split; reflexivity|].
      intros Hno. exfalso. apply Hno. exact I.
  - cbn [TrackerInWindowMode.originalImage TrackerInWindowMode.frameGray
         TrackerInWindowMode.windowWidth TrackerInWindowMode.windowHeight
         TrackerInWindowMode.markerTracker TrackerInWindowMode.trackerIsInitialized
         TrackerInWindowMode.subImagePosition TrackerInWindowMode.reducedImage w0].
    do 2 eexists. split; [reflexivity|].
    split.
    { unfold wf_window. cbn. rewrite Hmord.
      repeat split; assumption. }
    cbn. rewrite Hmord.
    split; [reflexivity|]. split; [reflexivity|]. split; [reflexivity|].
    split; [exact HfR|]. split; [exact HfI|]. split; [exact HfS|].
    split; [reflexivity|].
    split; [left; eauto|].
    split; [intros _; split; reflexivity|].
    intros Hno. exfalso. apply Hno. exact I.
Qed.

Lemma fits_same_shape (b : option IplImage) (g g' : IplImage) :
  width g' = width g -> height g' = height g -> depth g' = depth g ->
  nChannels g' = nChannels g -> fits b g -> fits b g'.
Proof.
  intros Hw Hh Hd Hc (b0 & -> & Hs & Ht). exists b0. split; [reflexivity|].
  apply same_size_eq in Hs. apply same_type_eq in Ht. destruct Hs, Ht.
  split; [apply same_size_eq|apply same_type_eq]; split; congruence.
Qed.

(** [locateMarker] of the windowed tracker after [cropFrame]: it returns
    the peak of the window image, moved by the stored corner, with the
    orientation found there, and keeps the geometry of the frame. *)
Lemma window_locate `{CvRuntime} (w1 : TrackerInWindowMode.state)
    (frame : IplImage) (cx cy ww wh : Z) :
  wf_window w1 ->
  fits (MarkerTracker.frameRealSq (TrackerInWindowMode.markerTracker w1))
       (TrackerInWindowMode.frameGray w1) ->
  fits (MarkerTracker.frameImagSq (TrackerInWindowMode.markerTracker w1))
       (TrackerInWindowMode.frameGray w1) ->
  fits (MarkerTracker.frameSumSq (TrackerInWindowMode.markerTracker w1))
       (TrackerInWindowMode.frameGray w1) ->
  TrackerInWindowMode.subImagePosition w1 = Some (cx, cy, ww, wh) ->
  ((exists red, TrackerInWindowMode.reducedImage w1
                = Some (TrackerInWindowMode.Buffer red)) \/
   (TrackerInWindowMode.reducedImage w1
      = Some (TrackerInWindowMode.SubRectOfFrame (cx, cy, ww, wh)) /\
    is_Some (GetSubRect frame (cx, cy, ww, wh)))) ->
  exists w2 frame' mt' xm ym o,
    MarkerTracker.locateMarker (TrackerInWindowMode.markerTracker w1)
                               (TrackerInWindowMode.frameGray w1)
      = Some (mt', (xm, ym)) /\
    MarkerTracker.orientation mt' = Some o /\
    TrackerInWindowMode.locateMarker w1 frame
      = Some (w2, frame', ((xm + cx)%Z, (ym + cy)%Z, o)) /\
    wf_window w2 /\
    shaped frame' (width frame) (height frame) (depth frame) (nChannels frame) /\
    (dark (TrackerInWindowMode.frameGray w1) ->
     xm = 0%Z /\ ym = 0%Z /\ o = 0).
Proof.
  intros Hwf HfR HfI HfS Hpos Href.
  destruct Hwf as (Hww & Hwh & Hg & Ho & Hinit & Hord).
  destruct (Hg) as (Hgw & Hgh & Hgd & Hgc).
  destruct (locateMarker_peak (TrackerInWindowMode.markerTracker w1)
              (TrackerInWindowMode.frameGray w1))
    as (mt' & xm & ym & Hrun & _ & _ & _ & _ & Hord' & Hor & _ & _ & _ & Hdark);
    try assumption; try lia.
  match type of Hor with _ = Some ?v => set (o := v) in * end.
  unfold TrackerInWindowMode.locateMarker.
  rewrite Hrun. cbn [mbind option_bind]. rewrite Hor. cbn [mbind option_bind].
  assert (Hwf2 : forall pos ref,
    wf_window
      {| TrackerInWindowMode.windowWidth := TrackerInWindowMode.windowWidth w1;
         TrackerInWindowMode.windowHeight := TrackerInWindowMode.windowHeight w1;
         TrackerInWindowMode.frameGray := TrackerInWindowMode.frameGray w1;
         TrackerInWindowMode.originalImage := TrackerInWindowMode.originalImage w1;
         TrackerInWindowMode.markerTracker := mt';
         TrackerInWindowMode.trackerIsInitialized :=
           TrackerInWindowMode.trackerIsInitialized w1;
         TrackerInWindowMode.subImagePosition := pos;
         TrackerInWindowMode.reducedImage := ref |}).
  { intros pos ref. unfold wf_window. cbn. rewrite Hord'. auto 10. }
  assert (Hdark' : dark (TrackerInWindowMode.frameGray w1) ->
                   xm = 0%Z /\ ym = 0%Z /\ o = 0).
  { intros Hd. destruct (Hdark Hd) as (-> & -> & Ho0).
    rewrite Hor in Ho0. injection Ho0 as Ho0. auto. }
  destruct Href as [[red Hred]|[Hview [sub Hsub]]].
  - rewrite Hred. cbn [mbind option_bind]. rewrite Hpos. cbn [mbind option_bind].
    eexists _, _, mt', xm, ym, o.
    split; [first [exact Hrun|reflexivity]|].
    split; [first [exact Hor|reflexivity]|].
    split; [reflexivity|]. split; [exact (Hwf2 _ _)|].
    split; [repeat split|exact Hdark'].
  - rewrite Hview. cbn [mbind option_bind]. rewrite Hsub.
    cbn [mbind option_bind]. rewrite Hpos. cbn [mbind option_bind].
    eexists _, _, mt', xm, ym, o.
    split; [first [exact Hrun|reflexivity]|].
    split; [first [exact Hor|reflexivity]|].
    split; [reflexivity|]. split; [exact (Hwf2 _ _)|].
    split; [repeat split|exact Hdark'].
Qed.

(** The state of a full-frame analyzer of the driver: one marker, no
    downscaling, and once the buffers exist they have one size and the
    types the operations need. *)
Definition wf_analyzer (dp : Depth) (a : ImageAnalyzer.state) : Prop :=
  ImageAnalyzer.downscaleFactor a = 1%Z /\
  length (ImageAnalyzer.markerLocationsX a) = 1%nat /\
  length (ImageAnalyzer.markerLocationsY a) = 1%nat /\
  exists t,
    ImageAnalyzer.markerTrackers a = [t] /\
    MarkerTracker.order t <> 0%nat /\
    (ImageAnalyzer.subClassesInitialized a = true ->
     exists gray orig red w h,
       ImageAnalyzer.frameGray a = Some gray /\
       ImageAnalyzer.originalImage a = Some orig /\
       ImageAnalyzer.reducedImage a = Some red /\
       (0 < w)%Z /\ (0 < h)%Z /\
       shaped gray w h IPL_DEPTH_32F 1 /\
       shaped orig w h IPL_DEPTH_32F 3 /\
       shaped red w h dp 3 /\
       fits (MarkerTracker.frameRealSq t) gray /\
       fits (MarkerTracker.frameImagSq t) gray /\
       fits (MarkerTracker.frameSumSq t) gray).

Lemma list_assign_single {A} (l : list A) (v : A) :
  length l = 1%nat -> list_assign l 0 v = Some [v].
Proof.
  destruct l as [|a [|b l]]; cbn; try discriminate. reflexivity.
Qed.

(** [analyzeImage] once the buffers exist. *)
Lemma analyze_initialized `{CvRuntime} (dp : Depth) (a : ImageAnalyzer.state)
    (frame : IplImage) :
  wf_analyzer dp a -> ImageAnalyzer.subClassesInitialized a = true ->
  camera_frame dp frame ->
  exists a' xm ym,
    ImageAnalyzer.analyzeImage a frame = Some (a', frame) /\
    wf_analyzer dp a' /\
    ImageAnalyzer.markerLocationsX a' = [(1 * xm)%Z] /\
    ImageAnalyzer.markerLocationsY a' = [(1 * ym)%Z] /\
    ((forall w h y x c, resample frame w h y x c = 0) -> xm = 0%Z /\ ym = 0%Z).
Proof.
  intros (Hf & HX & HY & t & Ht & Hord & Hbuf) Hinit ((_ & _ & Hfd & Hfc) & Hfw & Hfh).
  destruct (Hbuf Hinit)
    as (gray & orig & red & w & h & Hgray & Horig & Hred & Hw & Hh &
        Hsg & Hso & Hsr & HfR & HfI & HfS).
  destruct (Hsg) as (Hgw & Hgh & Hgd & Hgc).
  destruct (Hso) as (How & Hoh & Hod & Hoc).
  destruct (Hsr) as (Hrw & Hrh & Hrd & Hrc).
  unfold ImageAnalyzer.analyzeImage.
  rewrite Hfc, Hinit. cbn [Z.eqb Pos.eqb negb mbind option_bind].
  rewrite Hred. cbn [mbind option_bind].
  unfold Resize.
  assert (same_type frame red = true) as ->
    by (apply same_type_eq; split; congruence).
  destruct (Z.ltb_spec 0 (width frame)); [|lia].
  destruct (Z.ltb_spec 0 (height frame)); [|lia].
  destruct (Z.ltb_spec 0 (width red)); [|lia].
  destruct (Z.ltb_spec 0 (height red)); [|lia].
  cbn [andb]. rewrite Horig. cbn [mbind option_bind].
  rewrite ConvertScale_Some by (cbn; congruence).
  rewrite Hgray. cbn [mbind option_bind].
  rewrite CvtColor_Some by (cbn; congruence).
  set (gray' := mkImage (width gray) (height gray) (depth gray) 1 _).
  rewrite Ht. cbn [length seq for_each ImageAnalyzer.locate_kth].
  cbn [lookup list_lookup mbind option_bind].
  destruct (locateMarker_peak t gray')
    as (t' & xm & ym & Hrun & _ & _ & _ & _ & Hord' & _ & HfR' & HfI' & HfS' & Hdark);
    try exact Hord; try reflexivity;
    try (cbn; lia);
    try (eapply fits_same_shape; [..|eassumption]; cbn; congruence).
  rewrite Hrun. cbn [mbind option_bind].
  rewrite !list_assign_single by assumption. cbn [mbind option_bind].
  rewrite Hf.
  eexists _, xm, ym. split; [reflexivity|]. split.
  { unfold wf_analyzer. cbn. split; [reflexivity|]. split; [reflexivity|].
    split; [reflexivity|].
    exists t'. split; [reflexivity|]. split; [rewrite Hord'; exact Hord|].
    intros _. exists gray', (mkImage (width orig) (height orig) (depth orig)
                               (nChannels orig)
                               (resample frame (width red) (height red))),
      (mkImage (width red) (height red) (depth red) (nChannels red)
               (resample frame (width red) (height red))), w, h.
    split; [reflexivity|]. split; [reflexivity|]. split; [reflexivity|].
    split; [exact Hw|]. split; [exact Hh|].
    split; [repeat split; cbn; congruence|].
    split; [repeat split; cbn; congruence|].
    split; [repeat split; cbn; congruence|].
    auto. }
  split; [reflexivity|]. split; [reflexivity|].
  intros Hzero. destruct Hdark as (-> & -> & _); [|split; reflexivity].
  intros y x c. cbn. rewrite !Hzero. lra.
Qed.

(** [analyzeImage] on a colour frame of the camera: the first call
    creates the buffers, every call returns the frame and stores the
    peak of the grey image as the location of the marker. *)
Lemma analyze_step `{CvRuntime} (dp : Depth) (a : ImageAnalyzer.state)
    (frame : IplImage) :
  wf_analyzer dp a -> camera_frame dp frame ->
  exists a' xm ym,
    ImageAnalyzer.analyzeImage a frame = Some (a', frame) /\
    wf_analyzer dp a' /\
    ImageAnalyzer.markerLocationsX a' = [(1 * xm)%Z] /\
    ImageAnalyzer.markerLocationsY a' = [(1 * ym)%Z] /\
    ((forall w h y x c, resample frame w h y x c = 0) -> xm = 0%Z /\ ym = 0%Z).
Proof.
  intros Hwf Hframe.
  destruct (ImageAnalyzer.subClassesInitialized a) eqn:Hinit.
  - now apply analyze_initialized.
  - destruct Hwf as (Hf & HX & HY & t & Ht & Hord & _).
    destruct (Hframe) as ((_ & _ & Hfd & Hfc) & Hfw & Hfh).
    destruct (allocate_fits t
                (mkImage (width frame) (height frame) (depth frame)
                         (nChannels frame) uninitialised)
                (mkImage (width frame) (height frame) IPL_DEPTH_32F 1 uninitialised))
      as (t0 & Halloc & Hord0 & _ & _ & HfR & HfI & HfS);
      [cbn; lia|cbn; lia|repeat split|].
    assert (Hinit0 : exists a0,
      ImageAnalyzer.initializeSubClasses a frame = Some a0 /\
      wf_analyzer dp a0 /\ ImageAnalyzer.subClassesInitialized a0 = true).
    { unfold ImageAnalyzer.initializeSubClasses.
      rewrite Hf, !Z.div_1_r. cbn [Z.eqb].
      rewrite !CreateImage_shaped by lia. cbn [mbind option_bind].
      rewrite Ht. cbn [mapM]. rewrite Halloc. cbn [mbind option_bind mret option_ret].
      eexists. split; [reflexivity|]. split; [|reflexivity].
      unfold wf_analyzer. cbn. split; [reflexivity|]. split; [exact HX|].
      split; [exact HY|]. exists t0. split; [reflexivity|].
      split; [rewrite Hord0; exact Hord|]. intros _.
      do 3 eexists. exists (width frame), (height frame).
      split; [reflexivity|]. split; [reflexivity|]. split; [reflexivity|].
      split; [exact Hfw|]. split; [exact Hfh|].
      split; [repeat split|]. split; [repeat split|].
      split; [repeat split; cbn; congruence|]. auto. }
    destruct Hinit0 as (a0 & Hrun0 & Hwf0 & Hinit0).
    destruct (analyze_initialized dp a0 frame Hwf0 Hinit0 Hframe)
      as (a' & xm & ym & Hrun & Hrest).
    exists a', xm, ym. split; [|exact Hrest].
    rewrite <- Hrun. unfold ImageAnalyzer.analyzeImage.
    rewrite Hinit, Hrun0, Hinit0. reflexivity.
Qed.

End StepFacts.

(** ** The acquisition controller *)

Module DriverFacts.
Import cv LocateFacts StepFacts CameraDriver.

(** What the constructor of the driver establishes and its methods keep:
    the three lists run in step, analyzers and windowed trackers are
    well-formed, and the default orientation is 0. *)
Definition wf_driver (dp : Depth) (d : state) : Prop :=
  length (trackers d) = length (oldLocations d) /\
  length (windowedTrackers d) = length (oldLocations d) /\
  Forall (wf_analyzer dp) (trackers d) /\
  Forall wf_window (windowedTrackers d) /\
  defaultOrientation d = 0.

Lemma list_assign_Some {A} (l l' : list A) (k : nat) (v : A) :
  list_assign l k v = Some l' <-> (k < length l)%nat /\ l' = <[k := v]> l.
Proof.
  unfold list_assign. destruct (Nat.ltb_spec k (length l)); split.
  - intros [= <-]. auto.
  - now intros [_ ->].
  - discriminate.
  - intros [Hk _]. lia.
Qed.

(** A pass through the loop of [processFrame] for a marker whose location
    is unknown: the full-frame search, seeding the location with the
    default orientation. *)
Lemma process_kth_searching `{CvRuntime} (dp : Depth) (d : state)
    (out : list ConsoleLine) (k : nat) (frame : IplImage) :
  wf_driver dp d -> currentFrame d = Some frame -> camera_frame dp frame ->
  oldLocations d !! k = Some None ->
  exists d' xm ym,
    process_kth (d, out) k = Some (d', out) /\
    oldLocations d' = <[k := Some ((1 * xm)%Z, (1 * ym)%Z, 0)]> (oldLocations d) /\
    currentFrame d' = Some frame /\
    windowedTrackers d' = windowedTrackers d /\
    wf_driver dp d' /\
    ((forall w h y x c, resample frame w h y x c = 0) -> xm = 0%Z /\ ym = 0%Z).
Proof.
  intros (Hlt & Hlw & Hta & Htw & Hdef) Hcur Hframe Hold.
  assert (Hk : (k < length (oldLocations d))%nat)
    by (apply lookup_lt_is_Some; eauto).
  destruct (lookup_lt_is_Some_2 (trackers d) k) as [a Ha]; [lia|].
  assert (Hwa : wf_analyzer dp a) by (eapply Forall_lookup_1; eauto).
  destruct (analyze_step dp a frame Hwa Hframe)
    as (a' & xm & ym & Hrun & Hwa' & HX & HY & Hdark).
  cbv beta iota delta [process_kth]. rewrite Hold. cbn [mbind option_bind].
  rewrite Ha. cbn [mbind option_bind]. rewrite Hcur. cbn [mbind option_bind].
  rewrite Hrun. cbn [mbind option_bind]. rewrite HX, HY.
  cbn [lookup list_lookup mbind option_bind].
  assert (Hassign : list_assign (oldLocations d) k
                      (Some ((1 * xm)%Z, (1 * ym)%Z, defaultOrientation d))
                    = Some (<[k := Some ((1 * xm)%Z, (1 * ym)%Z, 0)]> (oldLocations d))).
  { apply list_assign_Some. rewrite Hdef. auto. }
  rewrite Hassign. cbn [mbind option_bind].
  eexists _, xm, ym. split; [reflexivity|]. cbn.
  split; [reflexivity|]. split; [reflexivity|]. split; [reflexivity|].
  split; [|exact Hdark].
  unfold wf_driver. cbn. rewrite !length_insert.
  split; [exact Hlt|]. split; [exact Hlw|].
  split; [now apply Forall_insert|]. split; [exact Htw|exact Hdef].
Qed.

(** A pass for a marker whose location is known: the search in the
    window around it.  The location found in the window image is stored
    whether or not the [try] block of [cropFrame] raised. *)
Lemma process_kth_tracking `{CvRuntime} (dp : Depth) (d : state)
    (out : list ConsoleLine) (k : nat) (frame : IplImage)
    (w : TrackerInWindowMode.state) (x y : Z) (o0 : R) :
  wf_driver dp d -> currentFrame d = Some frame ->
  windowedTrackers d !! k = Some w ->
  oldLocations d !! k = Some (Some (x, y, o0)) ->
  let cx := fst (TrackerInWindowMode.window_corner w frame x y) in
  let cy := snd (TrackerInWindowMode.window_corner w frame x y) in
  exists w1 printed mt' xm ym o d' frame',
    TrackerInWindowMode.cropFrame w frame x y = Some (w1, printed) /\
    MarkerTracker.locateMarker (TrackerInWindowMode.markerTracker w1)
                               (TrackerInWindowMode.frameGray w1)
      = Some (mt', (xm, ym)) /\
    MarkerTracker.orientation mt' = Some o /\
    process_kth (d, out) k = Some (d', out ++ printed) /\
    oldLocations d' = <[k := Some ((xm + cx)%Z, (ym + cy)%Z, o)]> (oldLocations d) /\
    currentFrame d' = Some frame' /\
    shaped frame' (width frame) (height frame) (depth frame) (nChannels frame) /\
    wf_driver dp d' /\
    (crop_raises w frame x y ->
     printed = TrackerInWindowMode.failure_report w frame /\
     TrackerInWindowMode.frameGray w1 = TrackerInWindowMode.frameGray w) /\
    (~ crop_raises w frame x y -> printed = []) /\
    (dark (TrackerInWindowMode.frameGray w1) -> xm = 0%Z /\ ym = 0%Z /\ o = 0).
Proof.
  intros (Hlt & Hlw & Hta & Htw & Hdef) Hcur Hw Hold cx cy.
  assert (Hk : (k < length (oldLocations d))%nat)
    by (apply lookup_lt_is_Some; eauto).
  assert (Hww : wf_window w) by (eapply Forall_lookup_1; eauto).
  destruct (cropFrame_runs w frame x y Hww)
    as (w1 & printed & Hcrop & Hwf1 & _ & _ & _ & HfR & HfI & HfS & Hpos & Href &
        Hraise & Hfine).
  destruct (window_locate w1 frame cx cy (TrackerInWindowMode.windowWidth w)
              (TrackerInWindowMode.windowHeight w) Hwf1 HfR HfI HfS Hpos Href)
    as (w2 & frame' & mt' & xm & ym & o & Hloc & Hor & Hrun & Hwf2 & Hshape & Hdark).
  exists w1, printed, mt', xm, ym, o.
  cbv beta iota delta [process_kth]. rewrite Hold. cbn [mbind option_bind].
  rewrite Hw. cbn [mbind option_bind]. rewrite Hcur. cbn [mbind option_bind].
  rewrite Hcrop. cbn [mbind option_bind]. rewrite Hrun. cbn [mbind option_bind].
  assert (Hassign : list_assign (oldLocations d) k
                      (Some ((xm + cx)%Z, (ym + cy)%Z, o))
                    = Some (<[k := Some ((xm + cx)%Z, (ym + cy)%Z, o)]> (oldLocations d)))
    by (apply list_assign_Some; auto).
  rewrite Hassign. cbn [mbind option_bind].
  eexists _, frame'. split; [reflexivity|]. split; [exact Hloc|].
  split; [exact Hor|]. split; [reflexivity|]. cbn.
  split; [reflexivity|]. split; [reflexivity|]. split; [exact Hshape|].
  split; [|auto].
  unfold wf_driver. cbn. rewrite !length_insert.
  split; [exact Hlt|]. split; [exact Hlw|]. split; [exact Hta|].
  split; [|exact Hdef]. apply Forall_insert; [exact Htw|exact Hwf2].
Qed.

Lemma camera_frame_shaped (dp : Depth) (frame frame' : IplImage) :
  camera_frame dp frame ->
  shaped frame' (width frame) (height frame) (depth frame) (nChannels frame) ->
  camera_frame dp frame'.
Proof.
  intros ((_ & _ & Hd & Hc) & Hw & Hh) (Hw' & Hh' & Hd' & Hc').
  unfold camera_frame, shaped. rewrite Hw', Hh', Hd', Hc'. auto 10.
Qed.





(** The loop of [resetAllLocations]. *)
Lemma reset_loop (ks : list nat) : forall locs : list (option location),
  (forall k, In k ks -> (k < length locs)%nat) ->
  exists locs',
    for_each (fun locs k => list_assign locs k None) ks locs = Some locs' /\
    length locs' = length locs /\
    (forall k, In k ks -> locs' !! k = Some None) /\
    (forall k, ~ In k ks -> locs' !! k = locs !! k).
Proof.
  induction ks as [|k ks IH]; intros locs Hks.
  - exists locs. cbn. split; [reflexivity|]. split; [reflexivity|].
    split; [intros k []|reflexivity].
  - assert (Hk : (k < length locs)%nat) by (apply Hks; now left).
    destruct (IH (<[k := None]> locs)) as (locs' & Hrun & Hlen & Hnone & Hother).
    { intros k' Hk'. rewrite length_insert. apply Hks. now right. }
    exists locs'. cbn [for_each].
    assert (list_assign locs k None = Some (<[k := None]> locs)) as ->
      by (apply list_assign_Some; auto).
    cbn [mbind option_bind]. split; [exact Hrun|].
    rewrite length_insert in Hlen. split; [exact Hlen|]. split.
    + intros k' [<-|Hin]; [|now apply Hnone].
      destruct (in_dec Nat.eq_dec k ks) as [Hin|Hnot]; [now apply Hnone|].
      rewrite Hother by exact Hnot. now apply list_lookup_insert_eq.
    + intros k' Hk'. rewrite Hother by (intros Hin; apply Hk'; now right).
      apply list_lookup_insert_ne. intros ->. apply Hk'. now left.
Qed.

(** The constructor establishes [wf_driver], with every location unknown
    and no frame. *)
Lemma add_marker_wf `{CvRuntime} (dp : Depth) (d : state) (ks : nat) (sp : R)
    (o : nat) :
  wf_driver dp d -> o <> 0%nat -> ks <> 0%nat ->
  exists d',
    add_marker ks sp (Some d) o = Some d' /\ wf_driver dp d' /\
    oldLocations d' = oldLocations d ++ [None] /\
    currentFrame d' = currentFrame d.
Proof.
  intros (Hlt & Hlw & Hta & Htw & Hdef) Ho Hks.
  unfold add_marker, TrackerInWindowMode.init, ImageAnalyzer.addMarkerToTrack,
    MarkerTracker.init, CreateMat.
  destruct ks as [|ks]; [contradiction|].
  cbn [Nat.eqb mbind option_bind].
  rewrite !CreateImage_shaped by lia. cbn [mbind option_bind].
  eexists. split; [reflexivity|]. cbn.
  split; [|split; reflexivity].
  unfold wf_driver. cbn. rewrite !length_app. cbn [length].
  split; [lia|]. split; [lia|]. split; [|split; [|exact Hdef]].
  - apply Forall_app. split; [exact Hta|]. apply Forall_singleton.
    unfold wf_analyzer. cbn. split; [reflexivity|]. split; [reflexivity|].
    split; [reflexivity|]. eexists. split; [reflexivity|]. split; [exact Ho|].
    discriminate.
  - apply Forall_app. split; [exact Htw|]. apply Forall_singleton.
    unfold wf_window. cbn. split; [lia|]. split; [lia|].
    split; [repeat split|]. split; [repeat split|]. split; [reflexivity|exact Ho].
Qed.

Lemma init_wf `{CvRuntime} (dp : Depth) (orders : list nat) (ks : nat) (sp : R) :
  Forall (fun o => o <> 0%nat) orders -> ks <> 0%nat ->
  exists d,
    init orders ks sp = Some d /\ wf_driver dp d /\
    oldLocations d = replicate (length orders) None /\
    currentFrame d = None.
Proof.
  unfold init.
  set (d0 := {| currentFrame := None; processedFrame := None; running := true;
                trackers := []; windowedTrackers := []; oldLocations := [];
                cnt := 0; defaultOrientation := 0 |}).
  assert (Hwf0 : wf_driver dp d0) by (repeat split; constructor).
  intros Hall Hks. revert Hall.
  assert (Hgen : forall orders d,
            Forall (fun o => o <> 0%nat) orders -> wf_driver dp d ->
            exists d',
              fold_left (add_marker ks sp) orders (Some d) = Some d' /\
              wf_driver dp d' /\
              oldLocations d' = oldLocations d ++ replicate (length orders) None /\
              currentFrame d' = currentFrame d).
  { clear - Hks. induction orders as [|o orders IH]; intros d Hall Hwf.
    - exists d. cbn. rewrite app_nil_r. auto.
    - inversion Hall as [|? ? Ho Hall']; subst.
      destruct (add_marker_wf dp d ks sp o Hwf Ho Hks)
        as (d1 & Hrun & Hwf1 & Hl1 & Hc1).
      destruct (IH d1 Hall' Hwf1) as (d' & Hrest & Hwf' & Hl' & Hc').
      exists d'. cbn [fold_left]. rewrite Hrun.
      split; [exact Hrest|]. split; [exact Hwf'|]. split; [|congruence].
      rewrite Hl', Hl1, <- app_assoc. reflexivity. }
  intros Hall. destruct (Hgen orders d0 Hall Hwf0) as (d & Hrun & Hwf & Hl & Hc).
  exists d. auto.
Qed.

Lemma getImage_wf (dp : Depth) (d : state) (f : option IplImage) :
  wf_driver dp d -> wf_driver dp (getImage d f).
Proof. intros Hwf. exact Hwf. Qed.

(** C3: a frame smaller than the window of the tracker.  A driver for
    one marker of order 7 is given a black frame of 80 by 60 pixels.  The
    first [processFrame] finds the marker at (0, 0).  In the second, the
    corner that [cropFrame] computes is (-20, -40): the window of 100 by
    100 is not inside the frame, [cv.GetSubRect] raises, the [except]
    branch prints its four lines and [cropFrame] returns with the window
    image of before.  [processFrame] goes on to [locateMarker] on that
    image and stores (-20, -40) for the marker: the cached location has
    changed, and it lies outside the frame. *)
Theorem crop_failure_moves_marker :
  exists d0 d1 d2 w1,
    @init Examples.plain_runtime [7%nat] 21 2500 = Some d0 /\
    @processFrame Examples.plain_runtime
      (getImage d0 (Some (Examples.black_frame 80 60))) = Some (d1, []) /\
    oldLocations d1 = [Some (0%Z, 0%Z, 0)] /\
    windowedTrackers d1 = [Examples.new_window_tracker] /\
    TrackerInWindowMode.window_corner Examples.new_window_tracker
      (Examples.black_frame 80 60) 0 0 = ((-20)%Z, (-40)%Z) /\
    GetSubRect (Examples.black_frame 80 60) ((-20)%Z, (-40)%Z, 100%Z, 100%Z)
      = None /\
    crop_raises Examples.new_window_tracker (Examples.black_frame 80 60) 0 0 /\
    @TrackerInWindowMode.cropFrame Examples.plain_runtime
      Examples.new_window_tracker (Examples.black_frame 80 60) 0 0
      = Some (w1, [PrintFrame IPL_DEPTH_8U; PrintOriginalImage 100 100;
                   PrintFrameGray 100 100 IPL_DEPTH_32F;
                   PrintUnexpectedError]) /\
    TrackerInWindowMode.frameGray w1
      = TrackerInWindowMode.frameGray Examples.new_window_tracker /\
    @processFrame Examples.plain_runtime d1
      = Some (d2, [PrintFrame IPL_DEPTH_8U; PrintOriginalImage 100 100;
                   PrintFrameGray 100 100 IPL_DEPTH_32F;
                   PrintUnexpectedError]) /\
    oldLocations d2 = [Some ((-20)%Z, (-40)%Z, 0)] /\
    oldLocations d2 !! 0%nat <> oldLocations d1 !! 0%nat.
Proof.
  set (rt := Examples.plain_runtime).
  set (frame := Examples.black_frame 80 60).
  destruct (@init_wf rt IPL_DEPTH_8U [7%nat] 21 2500)
    as (d0 & Hinit & Hwf0 & Hl0 & Hc0).
  { repeat constructor. lia. }
  { lia. }
  assert (Hw0 : windowedTrackers d0 = [Examples.new_window_tracker]).
  { cbn in Hinit. injection Hinit as <-. reflexivity. }
  assert (Ht0 : length (trackers d0) = 1%nat).
  { destruct Hwf0 as (-> & _). now rewrite Hl0. }
  assert (Hframe : camera_frame IPL_DEPTH_8U frame).
  { unfold camera_frame, shaped, frame. cbn. repeat split; lia. }
  destruct (@process_kth_searching rt IPL_DEPTH_8U (getImage d0 (Some frame)) []
              0%nat frame)
    as (d1 & xm & ym & Hrun1 & Hl1 & Hc1 & Hw1 & Hwf1 & Hzero);
    [exact Hwf0|reflexivity|exact Hframe|cbn; now rewrite Hl0|].
  destruct Hzero as [-> ->]; [reflexivity|].
  cbn [getImage set_frames oldLocations windowedTrackers] in Hl1, Hw1.
  rewrite Hl0 in Hl1. cbn in Hl1. rewrite Hw0 in Hw1.
  assert (Hraise : crop_raises Examples.new_window_tracker frame 0 0)
    by exact I.
  destruct (@process_kth_tracking rt IPL_DEPTH_8U d1 [] 0%nat frame
              Examples.new_window_tracker 0 0 0)
    as (w1 & printed & mt' & xm & ym & o & d2 & frame' & Hcrop & _ & _ & Hrun2 &
        Hl2 & _ & _ & _ & Hfail & _ & Hdark);
    [exact Hwf1|exact Hc1|now rewrite Hw1|now rewrite Hl1|].
  destruct (Hfail Hraise) as [-> Hgray].
  destruct Hdark as (-> & -> & ->); [rewrite Hgray; intros y x c; reflexivity|].
  rewrite Hl1 in Hl2. cbn in Hl2.
  assert (Ht1 : length (trackers d1) = 1%nat).
  { destruct Hwf1 as (-> & _). now rewrite Hl1. }
  exists d0, d1, d2, w1.
  split; [exact Hinit|]. split.
  { unfold processFrame. cbn [getImage set_frames trackers].
    rewrite Ht0. cbn [seq for_each]. rewrite Hrun1. reflexivity. }
  split; [exact Hl1|]. split; [exact Hw1|]. split; [reflexivity|].
  split; [reflexivity|]. split; [exact Hraise|].
  split; [exact Hcrop|]. split; [exact Hgray|]. split.
  { unfold processFrame. rewrite Ht1. cbn [seq for_each]. rewrite Hrun2.
    reflexivity. }
  split; [exact Hl2|]. rewrite Hl1, Hl2. cbn. intros [=].
Qed.

Lemma new_driver_constructed :
  (fun d => getImage d (Some (Examples.black_frame 640 480)))
    <$> @init Examples.plain_runtime [7%nat; 8%nat] 21 2500
  = Some Examples.new_driver.
Proof. reflexivity. Qed.

End DriverFacts.

(** * Further properties *)

(** ** Angles *)

Module AngleFacts.
Import MarkerTracker MarkerTrackerFacts.

(** The value returned lies in (-pi, pi] and is the argument moved by
    whole turns. *)
Lemma limitAngleToRange_turns (angle : R) :
  - PI < limitAngleToRange angle <= PI /\
  exists k : Z, limitAngleToRange angle = angle + IZR k * (2 * PI).
Proof.
  assert (Hpi := PI_RGT_0).
  unfold limitAngleToRange.
  destruct (raise_loop_run angle) as (n1 & _ & Hge & ->).
  destruct (lower_loop_run (angle + 2 * PI * INR n1)) as (n2 & Hb & Hle & ->).
  split.
  - split; [|exact Hle].
    destruct n2 as [|n2]; [simpl; lra|].
    assert (Hlast := Hb n2 ltac:(lia)). rewrite S_INR. lra.
  - exists (Z.of_nat n1 - Z.of_nat n2)%Z.
    rewrite minus_IZR, <- !INR_IZR_INZ. lra.
Qed.

(** X2: on a non-empty single-channel image for which the buffers were
    allocated, [locateMarker] of a tracker of non-zero order returns and
    leaves an orientation in (-pi, pi]; on an image without any light the
    peak is the first pixel and the orientation is 0. *)
Theorem locateMarker_orientation_range (self : state) (frame : cv.IplImage) :
  order self <> 0%nat ->
  cv.nChannels frame = 1%Z -> (0 < cv.width frame)%Z -> (0 < cv.height frame)%Z ->
  LocateFacts.fits (frameRealSq self) frame ->
  LocateFacts.fits (frameImagSq self) frame ->
  LocateFacts.fits (frameSumSq self) frame ->
  exists self' p o,
    locateMarker self frame = Some (self', p) /\
    orientation self' = Some o /\ - PI < o <= PI /\
    (LocateFacts.dark frame -> p = (0%Z, 0%Z) /\ o = 0).
Proof.
  intros Hn Hc Hw Hh HbR HbI HbS.
  destruct (LocateFacts.locateMarker_peak self frame Hn Hc Hw Hh HbR HbI HbS)
    as (self' & xm & ym & Hrun & _ & _ & _ & _ & _ & Hor & _ & _ & _ & Hdark).
  eexists self', (xm, ym), _. split; [exact Hrun|]. split; [exact Hor|].
  split; [apply limitAngleToRange_turns|].
  intros Hd. destruct (Hdark Hd) as (-> & -> & Ho).
  split; [reflexivity|]. rewrite Hor in Ho. now injection Ho.
Qed.

Lemma locateMarker_orientation_range_witness :
  exists self' o,
    locateMarker Examples.window_marker_tracker Examples.dark_window
      = Some (self', (0%Z, 0%Z)) /\
    orientation self' = Some o /\ o = 0.
Proof.
  destruct (locateMarker_orientation_range Examples.window_marker_tracker
              Examples.dark_window)
    as (self' & p & o & Hrun & Hor & _ & Hdark).
  - cbn. lia.
  - reflexivity.
  - cbn. lia.
  - cbn. lia.
  - exists Examples.dark_window. repeat split.
  - exists Examples.dark_window. repeat split.
  - exists Examples.dark_window. repeat split.
  - destruct Hdark as [-> ->]; [intros y x c; reflexivity|].
    exists self', 0. auto.
Defined.

End AngleFacts.

(** ** Complete and interrupted runs of the publisher *)

Module PublishRuns.
Import ros RosPublisher RosPublisherFacts.

Lemma init_pup (markers : list Z) : pup (init markers) = markers.
Proof.
  unfold init. cbn [pup].
  assert (Hgen : forall l acc : list Z,
            fold_left (fun pup i => pup ++ [i]) l acc = acc ++ l).
  { induction l as [|i l IH]; intros acc; cbn [fold_left].
    - now rewrite app_nil_r.
    - rewrite IH, <- app_assoc. reflexivity. }
  apply Hgen.
Qed.

(** While every location and publisher is there the loop runs to its
    end, with three effects for each marker. *)
Lemma publish_loop_done now locations (todo : list Z) :
  forall (self : state) (j clock : nat),
    (forall m, (m < length todo)%nat ->
       exists l t, locations !! (j + m)%nat = Some (Some l) /\
                   pup self !! (j + m)%nat = Some t) ->
    exists self' out,
      publish_loop now locations todo self j clock = Done self' out /\
      length out = (3 * length todo)%nat /\
      pup self' = pup self /\ markers self' = markers self.
Proof.
  induction todo as [|i todo IH]; intros self j clock Hall.
  - exists self, []. auto.
  - destruct (Hall 0%nat ltac:(cbn; lia)) as (l0 & t0 & Hl0 & Ht0).
    rewrite Nat.add_0_r in Hl0, Ht0.
    destruct (publish_ith_done now locations self j clock i l0 t0 Hl0 Ht0)
      as (self1 & Hdone & Hpup1).
    assert (Hm1 : markers self1 = markers self).
    { unfold publish_ith in Hdone. rewrite Hl0, Ht0 in Hdone.
      cbn [mjoin option_join] in Hdone. destruct l0 as [[x y] o].
      injection Hdone as <- _. reflexivity. }
    destruct (IH self1 (S j) (S (S clock))) as (self' & out & Hrun & Hlen & Hp & Hm).
    { intros m Hm. destruct (Hall (S m) ltac:(cbn; lia)) as (l & t & Hl & Ht).
      exists l, t. rewrite Hpup1.
      replace (S j + m)%nat with (j + S m)%nat by lia. auto. }
    cbn [publish_loop]. rewrite Hdone, Hrun.
    eexists self', _. split; [reflexivity|].
    rewrite length_app, Hlen. cbn [length].
    split; [lia|]. split; congruence.
Qed.

(** The first unknown location ends the loop with an exception, after the
    effects of the markers before it. *)
Lemma publish_loop_raised now locations (todo : list Z) :
  forall (self : state) (j clock n : nat),
    (n < length todo)%nat ->
    (forall m, (m < n)%nat ->
       exists l t, locations !! (j + m)%nat = Some (Some l) /\
                   pup self !! (j + m)%nat = Some t) ->
    mjoin (locations !! (j + n)%nat) = None ->
    exists out,
      publish_loop now locations todo self j clock = Raised out /\
      length out = (3 * n)%nat.
Proof.
  induction todo as [|i todo IH]; intros self j clock n Hn Hall Hnone.
  - cbn in Hn. lia.
  - destruct n as [|n].
    + rewrite Nat.add_0_r in Hnone. cbn [publish_loop]. unfold publish_ith.
      rewrite Hnone. exists []. auto.
    + destruct (Hall 0%nat ltac:(lia)) as (l0 & t0 & Hl0 & Ht0).
      rewrite Nat.add_0_r in Hl0, Ht0.
      destruct (publish_ith_done now locations self j clock i l0 t0 Hl0 Ht0)
        as (self1 & Hdone & Hpup1).
      destruct (IH self1 (S j) (S (S clock)) n) as (out & Hrun & Hlen).
      { cbn in Hn. lia. }
      { intros m Hm. destruct (Hall (S m) ltac:(lia)) as (l & t & Hl & Ht).
        exists l, t. rewrite Hpup1.
        replace (S j + m)%nat with (j + S m)%nat by lia. auto. }
      { replace (S j + n)%nat with (j + S n)%nat by lia. exact Hnone. }
      cbn [publish_loop]. rewrite Hdone, Hrun.
      eexists. split; [reflexivity|].
      rewrite length_app, Hlen. cbn [length]. lia.
Qed.

(** The line printed for a marker comes first among its effects. *)
Lemma publish_loop_print now locations (todo : list Z) :
  forall (self self' : state) (j0 c n : nat) (i x y : Z) (o : R) out,
    todo !! n = Some i ->
    locations !! (j0 + n)%nat = Some (Some (x, y, o)) ->
    publish_loop now locations todo self j0 c = Done self' out ->
    out !! (3 * n)%nat = Some (Console (PrintLocation i x y o)).
Proof.
  induction todo as [|i0 todo IH]; intros self self' j0 c n i x y o out Hn Hl Hrun.
  - discriminate.
  - cbn [publish_loop] in Hrun.
    destruct (publish_ith now locations self j0 c i0) as [self1 out1|] eqn:H1;
      [|discriminate].
    destruct (publish_loop now locations todo self1 (S j0) (S (S c)))
      as [self2 out2|] eqn:H2; [|discriminate].
    injection Hrun as <- <-.
    unfold publish_ith in H1.
    destruct (mjoin (locations !! j0)) as [[[x0 y0] o0]|] eqn:Hl0; [|discriminate].
    destruct (pup self !! j0); [|discriminate].
    injection H1 as <- <-.
    destruct n as [|n].
    + rewrite Nat.add_0_r in Hl. rewrite Hl in Hl0. cbn in Hl0.
      injection Hl0 as <- <- <-. cbn in Hn. injection Hn as ->. reflexivity.
    + replace (3 * S n)%nat with (3 + 3 * n)%nat by lia. cbn.
      eapply (IH _ _ (S j0) _ n); [exact Hn| |exact H2].
      replace (S j0 + n)%nat with (j0 + S n)%nat by lia. exact Hl.
Qed.

(** X4: a publisher made by the constructor, given a known location for
    each of its markers, runs to the end: for each marker, in the order of
    the markers, it prints one line, publishes one pose on the marker's
    own topic and broadcasts one transform, and nothing else. *)
Theorem publishMarkerLocations_complete (now : nat -> Z) (markers : list Z)
    (locations : list (option CameraDriver.location)) (clock : nat) :
  (forall j, (j < length markers)%nat ->
     exists l, locations !! j = Some (Some l)) ->
  exists self' out,
    publishMarkerLocations now (init markers) locations clock = Done self' out /\
    length out = (3 * length markers)%nat /\
    forall j i x y o,
      markers !! j = Some i -> locations !! j = Some (Some (x, y, o)) ->
      out !! (3 * j)%nat = Some (Console (PrintLocation i x y o)) /\
      out !! (3 * j + 1)%nat
        = Some (Publish i (pose_message (now (clock + 2 * j)%nat) (x, y, o))) /\
      out !! (3 * j + 2)%nat
        = Some (Broadcast (transform_message (now (S (clock + 2 * j))) (x, y, o))).
Proof.
  intros Hall.
  assert (Hboth : forall m, (m < length markers)%nat ->
            exists l t, locations !! (0 + m)%nat = Some (Some l) /\
                        pup (init markers) !! (0 + m)%nat = Some t).
  { intros m Hm. destruct (Hall m Hm) as [l Hl].
    destruct (lookup_lt_is_Some_2 markers m Hm) as [t Ht].
    exists l, t. rewrite init_pup. auto. }
  unfold publishMarkerLocations.
  change (RosPublisher.markers (init markers)) with markers.
  destruct (publish_loop_done now locations markers (init markers) 0 clock Hboth)
    as (self' & out & Hrun & Hlen & _).
  exists self', out. split; [exact Hrun|]. split; [exact Hlen|].
  intros j i x y o Hi Hl.
  assert (Hj : (j < length markers)%nat) by (apply lookup_lt_is_Some; eauto).
  assert (Hnth := publish_loop_nth now locations markers (init markers) 0 clock
                    j i (x, y, o) i Hi).
  rewrite Hrun in Hnth. cbn [effects] in Hnth.
  destruct Hnth as [H1 H2].
  { intros m Hm. apply Hboth. lia. }
  { exact Hl. }
  { rewrite init_pup. exact Hi. }
  split; [|split; [exact H1|exact H2]].
  exact (publish_loop_print now locations markers _ _ 0 clock j i x y o out Hi Hl Hrun).
Qed.

Lemma publishMarkerLocations_complete_witness :
  exists self' out,
    publishMarkerLocations (fun n => Z.of_nat n) (init [7%Z; 8%Z])
      [Some (250%Z, 500%Z, PI / 2); Some (10%Z, 20%Z, 0)] 0 = Done self' out /\
    length out = 6%nat.
Proof.
  destruct (publishMarkerLocations_complete (fun n => Z.of_nat n) [7%Z; 8%Z]
              [Some (250%Z, 500%Z, PI / 2); Some (10%Z, 20%Z, 0)] 0)
    as (self' & out & Hrun & Hlen & _).
  - intros [|[|j]] Hj; [eexists; reflexivity|eexists; reflexivity|cbn in Hj; lia].
  - exists self', out. split; [exact Hrun|exact Hlen].
Defined.

(** The line printed for a marker comes first among its effects, also in
    a run that raises later. *)
Lemma publish_loop_first now locations (todo : list Z) :
  forall (self : state) (j0 clock n : nat) (i x y : Z) (o : R),
    todo !! n = Some i ->
    (forall m, (m <= n)%nat ->
       exists l t, locations !! (j0 + m)%nat = Some (Some l) /\
                   pup self !! (j0 + m)%nat = Some t) ->
    locations !! (j0 + n)%nat = Some (Some (x, y, o)) ->
    effects (publish_loop now locations todo self j0 clock) !! (3 * n)%nat
      = Some (Console (PrintLocation i x y o)).
Proof.
  induction todo as [|i0 todo IH]; intros self j0 clock n i x y o Hn Hall Hloc.
  - discriminate.
  - destruct (Hall 0%nat ltac:(lia)) as (l0 & t0 & Hl0 & Ht0).
    rewrite Nat.add_0_r in Hl0, Ht0.
    destruct (publish_ith_done now locations self j0 clock i0 l0 t0 Hl0 Ht0)
      as (self' & Hdone & Hpup').
    cbn [publish_loop]. rewrite Hdone.
    destruct n as [|n].
    + rewrite Nat.add_0_r in Hloc. rewrite Hl0 in Hloc. injection Hloc as ->.
      cbn in Hn. injection Hn as ->.
      destruct (publish_loop _ _ _ _ _ _); reflexivity.
    + cbn in Hn.
      assert (IH' := IH self' (S j0) (S (S clock)) n i x y o Hn).
      replace (3 * S n)%nat with (3 + 3 * n)%nat by lia.
      assert (Hrest : effects (publish_loop now locations todo self' (S j0)
                                 (S (S clock))) !! (3 * n)%nat
                      = Some (Console (PrintLocation i x y o))).
      { apply IH'.
        - intros m Hm. destruct (Hall (S m) ltac:(lia)) as (l & t & Hl & Ht).
          exists l, t. rewrite Hpup'.
          replace (S j0 + m)%nat with (j0 + S m)%nat by lia. auto.
        - replace (S j0 + n)%nat with (j0 + S n)%nat by lia. exact Hloc. }
      destruct (publish_loop now locations todo self' (S j0) (S (S clock)));
        cbn in *; exact Hrest.
Qed.

(** X5: if the location of some marker is unknown, as after a reset, or
    missing, [publishMarkerLocations] raises at the first such marker, the
    one at index [n].  Before that it has made the three effects of each
    of the [n] markers before it, in the order of the markers: the line
    printed, the pose published on the marker's own topic and the
    transform broadcast, with the clock read twice for each; and these
    [3 * n] effects are all it has made. *)
Theorem publishMarkerLocations_unknown (now : nat -> Z) (markers : list Z)
    (locations : list (option CameraDriver.location)) (clock n : nat) :
  (n < length markers)%nat ->
  (forall m, (m < n)%nat -> exists l, locations !! m = Some (Some l)) ->
  mjoin (locations !! n) = None ->
  exists out,
    publishMarkerLocations now (init markers) locations clock = Raised out /\
    length out = (3 * n)%nat /\
    forall j i x y o,
      (j < n)%nat ->
      markers !! j = Some i -> locations !! j = Some (Some (x, y, o)) ->
      out !! (3 * j)%nat = Some (Console (PrintLocation i x y o)) /\
      out !! (3 * j + 1)%nat
        = Some (Publish i (pose_message (now (clock + 2 * j)%nat) (x, y, o))) /\
      out !! (3 * j + 2)%nat
        = Some (Broadcast (transform_message (now (S (clock + 2 * j))) (x, y, o))).
Proof.
  intros Hn Hall Hnone.
  assert (Hboth : forall m, (m < n)%nat ->
            exists l t, locations !! (0 + m)%nat = Some (Some l) /\
                        pup (init markers) !! (0 + m)%nat = Some t).
  { intros m Hm. destruct (Hall m Hm) as [l Hl].
    destruct (lookup_lt_is_Some_2 markers m) as [t Ht]; [lia|].
    exists l, t. rewrite init_pup. auto. }
  unfold publishMarkerLocations.
  change (RosPublisher.markers (init markers)) with markers.
  destruct (publish_loop_raised now locations markers (init markers) 0 clock n
              Hn Hboth Hnone) as (out & Hrun & Hlen).
  exists out. split; [exact Hrun|]. split; [exact Hlen|].
  intros j i x y o Hj Hi Hl.
  assert (Hupto : forall m, (m <= j)%nat ->
            exists l t, locations !! (0 + m)%nat = Some (Some l) /\
                        pup (init markers) !! (0 + m)%nat = Some t)
    by (intros m Hm; apply Hboth; lia).
  assert (H0 := publish_loop_first now locations markers (init markers) 0 clock
                  j i x y o Hi Hupto Hl).
  assert (Hnth := publish_loop_nth now locations markers (init markers) 0 clock
                    j i (x, y, o) i Hi Hupto Hl).
  rewrite Hrun in H0, Hnth. cbn [effects] in H0, Hnth.
  destruct Hnth as [H1 H2]; [rewrite init_pup; exact Hi|].
  auto.
Qed.

Lemma publishMarkerLocations_unknown_witness :
  exists out,
    publishMarkerLocations (fun n => Z.of_nat n) (init [7%Z; 8%Z])
      [Some (250%Z, 500%Z, PI / 2); None] 0 = Raised out /\
    length out = 3%nat /\
    out !! 0%nat = Some (Console (PrintLocation 7 250 500 (PI / 2))) /\
    out !! 1%nat
      = Some (Publish 7 (pose_message 0 (250%Z, 500%Z, PI / 2))) /\
    out !! 2%nat
      = Some (Broadcast (transform_message 1 (250%Z, 500%Z, PI / 2))).
Proof.
  destruct (publishMarkerLocations_unknown (fun n => Z.of_nat n) [7%Z; 8%Z]
              [Some (250%Z, 500%Z, PI / 2); None] 0 1)
    as (out & Hrun & Hlen & Heff).
  - cbn. lia.
  - intros m Hm. assert (m = 0%nat) as -> by lia. eexists. reflexivity.
  - reflexivity.
  - exists out. split; [exact Hrun|]. split; [exact Hlen|].
    exact (Heff 0%nat 7%Z 250%Z 500%Z (PI / 2) ltac:(lia) eq_refl eq_refl).
Defined.

(** X6: the orientation of a pose message and the rotation of the
    transform broadcast for the same location.  The pose carries
    [cos(o/2)] in its x component, [sin(o/2)] in its w component and the
    literal 0 in y and z; the transform carries what
    [quaternion_from_euler(0, 0, o)] returns, with 0 in x and y.  The two
    are never the same quaternion. *)
Theorem pose_orientation_differs_from_rotation (now : nat -> Z)
    (locations : list (option CameraDriver.location)) (self self' : state)
    (j clock : nat) (i : Z) (out : list Effect) :
  publish_ith now locations self j clock i = Done self' out ->
  exists x y o topic pose tfm,
    locations !! j = Some (Some (x, y, o)) /\
    out = [Console (PrintLocation i x y o); Publish topic pose; Broadcast tfm] /\
    orientation pose = mkQuaternion (cos (o / 2)) 0 0 (sin (o / 2)) /\
    rotation tfm = quaternion_from_euler 0 0 o /\
    qx (rotation tfm) = 0 /\ qy (rotation tfm) = 0 /\
    orientation pose <> rotation tfm.
Proof.
  unfold publish_ith. intros Hrun.
  destruct (locations !! j) as [[[[x y] o]|]|] eqn:Hl; cbn [mjoin option_join] in Hrun;
    try discriminate.
  destruct (pup self !! j) as [topic|]; [|discriminate].
  injection Hrun as <- <-.
  do 6 eexists. split; [reflexivity|]. split; [reflexivity|].
  cbn [orientation rotation sendTransform qx qy qz qw].
  assert (Hunit := sin2_cos2 (o / 2)). unfold Rsqr in Hunit.
  split; [reflexivity|]. split; [reflexivity|].
  rewrite quaternion_from_yaw. cbn [qx qy].
  split; [reflexivity|]. split; [reflexivity|].
  intros Heq.
  injection Heq as Hx _ Hw. rewrite Hx in Hw. rewrite Hx, Hw in Hunit. lra.
Qed.

Lemma pose_orientation_differs_from_rotation_witness :
  exists pose tfm,
    publish_ith (fun _ => 0%Z) [Some (250%Z, 500%Z, PI / 2)] (init [7%Z]) 0 0 7
      = Done {| pup := [7%Z]; markers := [7%Z]; odom := pose |}
             [Console (PrintLocation 7 250 500 (PI / 2)); Publish 7 pose;
              Broadcast tfm] /\
    orientation pose <> rotation tfm.
Proof.
  do 2 eexists.
  assert (Hrun : publish_ith (fun _ => 0%Z) [Some (250%Z, 500%Z, PI / 2)]
                   (init [7%Z]) 0 0 7 = Done _ _) by reflexivity.
  split; [exact Hrun|].
  destruct (pose_orientation_differs_from_rotation _ _ _ _ _ _ _ _ Hrun)
    as (x & y & o & topic & pose & tfm & _ & Hout & _ & _ & _ & _ & Hne).
  injection Hout as _ _ _ _ <- <-. exact Hne.
Defined.

End PublishRuns.

(** ** More on the acquisition controller *)

Module DriverMore.
Import cv LocateFacts StepFacts CameraDriver DriverFacts.

(** What the constructor builds for one marker order. *)
Definition built_for (d : state) (orders : list nat) : Prop :=
  oldLocations d = replicate (length orders) None /\
  Forall2 (fun o a =>
             ImageAnalyzer.downscaleFactor a = 1%Z /\
             ImageAnalyzer.subClassesInitialized a = false /\
             exists t, ImageAnalyzer.markerTrackers a = [t] /\
                       MarkerTracker.order t = o)
          orders (trackers d) /\
  Forall2 (fun o w =>
             MarkerTracker.order (TrackerInWindowMode.markerTracker w) = o /\
             TrackerInWindowMode.windowWidth w = 100%Z /\
             TrackerInWindowMode.windowHeight w = 100%Z /\
             TrackerInWindowMode.subImagePosition w = None)
          orders (windowedTrackers d) /\
  running d = true /\ cnt d = 0%Z /\ currentFrame d = None /\
  processedFrame d = None.

(** The loop of the constructor, from a driver built for the orders
    [done] on. *)
Lemma add_markers_built `{CvRuntime} (defaultKernelSize : nat)
    (scalingParameter : R) (todo : list nat) :
  defaultKernelSize <> 0%nat ->
  forall (done : list nat) (d : state),
    built_for d done ->
    exists d',
      fold_left (add_marker defaultKernelSize scalingParameter) todo (Some d)
        = Some d' /\
      built_for d' (done ++ todo).
Proof.
  intros Hks.
  induction todo as [|o todo IH]; intros done d Hd.
  - exists d. rewrite app_nil_r. auto.
  - destruct Hd as (Hl & Ha & Hw & Hr & Hc & Hf & Hp).
    cbn [fold_left].
    unfold add_marker at 2, TrackerInWindowMode.init,
      ImageAnalyzer.addMarkerToTrack, MarkerTracker.init, CreateMat.
    destruct defaultKernelSize as [|ks]; [contradiction|].
    cbn [Nat.eqb mbind option_bind].
    rewrite !CreateImage_shaped by lia. cbn [mbind option_bind].
    match goal with
    | |- context [fold_left _ todo (Some ?d1)] =>
        destruct (IH (done ++ [o]) d1) as (d' & Hrun & Hd')
    end.
    + unfold built_for. cbn.
      split; [rewrite Hl, length_app; cbn [length];
              rewrite replicate_add; reflexivity|].
      split; [apply Forall2_app; [exact Ha|];
              repeat constructor; eexists; split; reflexivity|].
      split; [apply Forall2_app; [exact Hw|]; repeat constructor|].
      auto.
    + exists d'. rewrite <- app_assoc in Hd'. auto.
Qed.


(** Once a pass of the loop of the constructor has raised, there is no
    driver. *)
Lemma add_markers_raised `{CvRuntime} (defaultKernelSize : nat)
    (scalingParameter : R) (todo : list nat) :
  fold_left (add_marker defaultKernelSize scalingParameter) todo None = None.
Proof. induction todo as [|o todo IH]; [reflexivity|exact IH]. Qed.

(** X7: the constructor of the driver, for a scale factor other than 0.
    With a kernel size other than 0 it returns for every list of marker
    orders; the driver has one full-frame analyzer (without downscaling,
    for the one marker), one windowed tracker with a window of 100 by 100
    and one unknown location for each order, in the order given; it is
    running, has saved no image and holds no frame.  With the kernel size
    0 and at least one order it raises, [cv.CreateMat] refusing the
    kernel matrix of the first marker. *)
Theorem init_builds `{CvRuntime} (orders : list nat) (defaultKernelSize : nat)
    (scalingParameter : R) :
  scalingParameter <> 0 ->
  (defaultKernelSize <> 0%nat ->
   exists d,
     init orders defaultKernelSize scalingParameter = Some d /\
     built_for d orders /\
     returnPositions d = replicate (length orders) None) /\
  (defaultKernelSize = 0%nat -> orders <> [] ->
   init orders defaultKernelSize scalingParameter = None).
Proof.
  intros _. unfold init.
  set (d0 := {| currentFrame := None; processedFrame := None; running := true;
                trackers := []; windowedTrackers := []; oldLocations := [];
                cnt := 0; defaultOrientation := 0 |}).
  split.
  - intros Hks.
    assert (Hd0 : built_for d0 []).
    { unfold built_for. cbn. repeat split; constructor. }
    destruct (add_markers_built defaultKernelSize scalingParameter orders Hks
                [] d0 Hd0) as (d & Hrun & Hd).
    cbn [app] in Hd.
    exists d. split; [exact Hrun|]. split; [exact Hd|].
    destruct Hd as (Hlocs & _). exact Hlocs.
  - intros -> Hne. destruct orders as [|o orders]; [contradiction|].
    cbn [fold_left]. unfold add_marker at 2.
    cbn [mbind option_bind].
    unfold ImageAnalyzer.addMarkerToTrack, MarkerTracker.init, CreateMat.
    cbn [Nat.eqb mbind option_bind].
    apply add_markers_raised.
Qed.

Lemma init_builds_witness :
  (exists d,
     @init Examples.plain_runtime [7%nat; 8%nat] 21 2500 = Some d /\
     returnPositions d = [None; None]) /\
  @init Examples.plain_runtime [7%nat; 8%nat] 0 2500 = None.
Proof.
  destruct (@init_builds Examples.plain_runtime [7%nat; 8%nat] 21 2500)
    as [Hok _]; [lra|].
  destruct (@init_builds Examples.plain_runtime [7%nat; 8%nat] 0 2500)
    as [_ Hraise]; [lra|].
  split.
  - destruct Hok as (d & Hrun & _ & Hlocs); [lia|].
    exists d. split; [exact Hrun|exact Hlocs].
  - apply Hraise; [reflexivity|discriminate].
Defined.

(** X8: [handleKeyboardEvents] looks at the low eight bits of the key
    code only; a key whose low byte is none of 27, 114 and 115, and the
    answer -1 of [cv.WaitKey] when no key was pressed, change nothing and
    have no effect. *)
Theorem handleKeyboardEvents_low_byte (d : state) (key m : Z) :
  handleKeyboardEvents d (key + 256 * m) = handleKeyboardEvents d key /\
  (Z.land key 255 <> 27%Z -> Z.land key 255 <> 114%Z ->
   Z.land key 255 <> 115%Z -> handleKeyboardEvents d key = Some (d, [])) /\
  handleKeyboardEvents d (-1) = Some (d, []).
Proof.
  assert (Hother : forall k, Z.land k 255 <> 27%Z -> Z.land k 255 <> 114%Z ->
            Z.land k 255 <> 115%Z -> handleKeyboardEvents d k = Some (d, [])).
  { intros k H27 H114 H115. unfold handleKeyboardEvents.
    destruct (Z.eqb_spec (Z.land k 255) 27); [contradiction|].
    destruct (Z.eqb_spec (Z.land k 255) 114); [contradiction|].
    destruct (Z.eqb_spec (Z.land k 255) 115); [contradiction|].
    reflexivity. }
  split; [|split; [apply Hother|apply Hother; change (Z.land (-1) 255) with 255%Z; lia]].
  unfold handleKeyboardEvents.
  replace (Z.land (key + 256 * m) 255) with (Z.land key 255); [reflexivity|].
  change 255%Z with (Z.ones 8). rewrite !Z.land_ones by lia.
  change (2 ^ 8)%Z with 256%Z.
  rewrite (Z.mul_comm 256 m). symmetry. apply Z_mod_plus_full.
Qed.

(** A sequence of key presses, each handled by [handleKeyboardEvents]. *)
Fixpoint press (keys : list Z) (d : state) : option (state * list Effect) :=
  match keys with
  | [] => Some (d, [])
  | key :: keys' =>
      '(d1, out1) ← handleKeyboardEvents d key;
      '(d2, out2) ← press keys' d1;
      Some (d2, out1 ++ out2)
  end.

(** X9: with a frame in hand, [n] presses of the key S save this frame
    [n] times, under the numbers [cnt], [cnt + 1], ..., [cnt + n - 1] in
    this order, and leave the counter at [cnt + n]; frame, locations and
    running flag stay as they are. *)
Theorem press_S_saves (n : nat) : forall (d : state) (frame : IplImage),
  currentFrame d = Some frame ->
  exists d',
    press (repeat 115%Z n) d
      = Some (d', flat_map (fun i => [Console PrintSavingImage;
                                      SaveImage (cnt d + Z.of_nat i) frame])
                           (seq 0 n)) /\
    cnt d' = (cnt d + Z.of_nat n)%Z /\
    currentFrame d' = Some frame /\
    oldLocations d' = oldLocations d /\ running d' = running d.
Proof.
  induction n as [|n IH]; intros d frame Hcur.
  - exists d. cbn. rewrite Z.add_0_r. auto.
  - cbn [repeat press]. unfold handleKeyboardEvents at 1.
    change (Z.land 115 255) with 115%Z.
    cbn [Z.eqb Pos.eqb mbind option_bind].
    rewrite Hcur. cbn [mbind option_bind app].
    match goal with
    | |- context [press _ ?d1] => destruct (IH d1 frame) as (d' & Hrun & Hc & Hf & Hl & Hr)
    end; [reflexivity|].
    rewrite Hrun. cbn [mbind option_bind].
    exists d'. cbn [cnt currentFrame oldLocations running] in *.
    split.
    + f_equal. f_equal. cbn [seq flat_map]. rewrite Z.add_0_r.
      cbn [app]. do 2 f_equal.
      rewrite <- seq_shift.
      rewrite (flat_map_concat_map _ (map S (seq 0 n))), map_map,
        <- flat_map_concat_map.
      apply flat_map_ext. intros i. do 3 f_equal. lia.
    + split; [lia|]. auto.
Qed.

Lemma press_S_saves_witness :
  exists d',
    press [115%Z; 115%Z; 115%Z] Examples.small_frame_driver
      = Some (d', [Console PrintSavingImage;
                   SaveImage 0 (Examples.black_frame 80 60);
                   Console PrintSavingImage;
                   SaveImage 1 (Examples.black_frame 80 60);
                   Console PrintSavingImage;
                   SaveImage 2 (Examples.black_frame 80 60)]) /\
    cnt d' = 3%Z.
Proof.
  destruct (press_S_saves 3 Examples.small_frame_driver
              (Examples.black_frame 80 60) eq_refl)
    as (d' & Hrun & Hc & _).
  exists d'. split; [exact Hrun|exact Hc].
Defined.

End DriverMore.

(** ** The full-frame analyzer with any number of markers *)

Module AnalyzerFacts.
Import cv LocateFacts StepFacts ImageAnalyzer.

(** A marker tracker that [locateMarker] accepts on images shaped like
    [g]. *)
Definition ready_tracker (g : IplImage) (t : MarkerTracker.state) : Prop :=
  MarkerTracker.order t <> 0%nat /\
  fits (MarkerTracker.frameRealSq t) g /\
  fits (MarkerTracker.frameImagSq t) g /\
  fits (MarkerTracker.frameSumSq t) g.

(** The loop of [analyzeImage] over the markers [ks]: each of them gets
    the peak of the grey image, scaled by the factor. *)
Lemma locate_loop (factor : Z) (gray : IplImage) (ks : list nat) :
  nChannels gray = 1%Z -> (0 < width gray)%Z -> (0 < height gray)%Z ->
  forall (ts : list MarkerTracker.state) (xs ys : list Z),
    length xs = length ts -> length ys = length ts ->
    Forall (ready_tracker gray) ts ->
    NoDup ks -> (forall k, In k ks -> (k < length ts)%nat) ->
    exists ts' xs' ys',
      for_each (locate_kth factor gray) ks (ts, xs, ys) = Some (ts', xs', ys') /\
      length ts' = length ts /\ length xs' = length ts /\ length ys' = length ts /\
      Forall (ready_tracker gray) ts' /\
      (forall k, In k ks ->
         exists xm ym,
           xs' !! k = Some (factor * xm)%Z /\ ys' !! k = Some (factor * ym)%Z /\
           (0 <= xm < width gray)%Z /\ (0 <= ym < height gray)%Z) /\
      (forall k, ~ In k ks -> xs' !! k = xs !! k /\ ys' !! k = ys !! k).
Proof.
  intros Hc Hw Hh.
  induction ks as [|k ks IH]; intros ts xs ys Hxs Hys Hts Hnd Hks.
  - exists ts, xs, ys. cbn. split; [reflexivity|]. split; [reflexivity|].
    split; [exact Hxs|]. split; [exact Hys|]. split; [exact Hts|].
    split; [intros k []|auto].
  - inversion Hnd as [|? ? Hnotin Hnd']; subst.
    assert (Hk : (k < length ts)%nat) by (apply Hks; now left).
    destruct (lookup_lt_is_Some_2 ts k Hk) as [t Ht].
    destruct (Forall_lookup_1 _ _ _ _ Hts Ht) as (Hord & HfR & HfI & HfS).
    destruct (locateMarker_peak t gray Hord Hc Hw Hh HfR HfI HfS)
      as (t' & xm & ym & Hrun & _ & Hxm & Hym & _ & Hord' & _ & HfR' & HfI' & HfS' & _).
    assert (Hstep : locate_kth factor gray (ts, xs, ys) k
                    = Some (<[k := t']> ts, <[k := (factor * xm)%Z]> xs,
                            <[k := (factor * ym)%Z]> ys)).
    { cbv beta iota delta [locate_kth]. rewrite Ht. cbn [mbind option_bind].
      rewrite Hrun. cbn [mbind option_bind].
      assert (list_assign xs k (factor * xm)%Z = Some (<[k := (factor * xm)%Z]> xs))
        as -> by (apply DriverFacts.list_assign_Some; split; [lia|reflexivity]).
      cbn [mbind option_bind].
      assert (list_assign ys k (factor * ym)%Z = Some (<[k := (factor * ym)%Z]> ys))
        as -> by (apply DriverFacts.list_assign_Some; split; [lia|reflexivity]).
      reflexivity. }
    destruct (IH (<[k := t']> ts) (<[k := (factor * xm)%Z]> xs)
                 (<[k := (factor * ym)%Z]> ys))
      as (ts' & xs' & ys' & Hrest & Hlt & Hlx & Hly & Hready & Hdone & Hother).
    { rewrite !length_insert. exact Hxs. }
    { rewrite !length_insert. exact Hys. }
    { apply Forall_insert; [exact Hts|]. rewrite <- Hord' in Hord.
      repeat split; assumption. }
    { exact Hnd'. }
    { intros k' Hk'. rewrite length_insert. apply Hks. now right. }
    rewrite length_insert in Hlt, Hlx, Hly.
    exists ts', xs', ys'. cbn [for_each]. rewrite Hstep. cbn [mbind option_bind].
    split; [exact Hrest|]. split; [exact Hlt|]. split; [exact Hlx|].
    split; [exact Hly|]. split; [exact Hready|]. split.
    + intros k' [<-|Hin]; [|now apply Hdone].
      exists xm, ym.
      destruct (Hother k) as [-> ->]; [rewrite <- list_elem_of_In; exact Hnotin|].
      rewrite !list_lookup_insert_eq by lia. auto.
    + intros k' Hk'.
      destruct (Hother k') as [-> ->]; [intros Hin; apply Hk'; now right|].
      rewrite !list_lookup_insert_ne by (intros ->; apply Hk'; now left).
      auto.
Qed.

(** [initializeSubClasses] allocates the buffers of every tracker. *)
Lemma allocate_all `{CvRuntime} (ref g : IplImage) (ts : list MarkerTracker.state) :
  (0 <= width ref)%Z -> (0 <= height ref)%Z ->
  shaped g (width ref) (height ref) IPL_DEPTH_32F 1 ->
  Forall (fun t => MarkerTracker.order t <> 0%nat) ts ->
  exists ts',
    mapM (fun t => MarkerTracker.allocateSpaceGivenFirstFrame t ref) ts = Some ts' /\
    length ts' = length ts /\ Forall (ready_tracker g) ts'.
Proof.
  intros Hw Hh Hg. induction ts as [|t ts IH]; intros Hall.
  - exists []. cbn. auto.
  - inversion Hall as [|? ? Ho Hall']; subst.
    destruct (IH Hall') as (ts' & Hrun & Hlen & Hready).
    destruct (allocate_fits t ref g Hw Hh Hg)
      as (t' & Halloc & Hord & _ & _ & HfR & HfI & HfS).
    exists (t' :: ts'). cbn [mapM]. rewrite Halloc. cbn [mbind option_bind].
    rewrite Hrun. cbn [mbind option_bind mret option_ret length].
    split; [reflexivity|]. split; [lia|].
    constructor; [|exact Hready]. rewrite <- Hord in Ho. repeat split; assumption.
Qed.

(** The size of the images that [analyzeImage] works on: the size of the
    buffers once they exist, the size of the frame divided by the factor
    when they are created by this call. *)
Definition reduced_size (a : state) (frame : IplImage) : Z * Z :=
  match subClassesInitialized a, reducedImage a with
  | true, Some red => (width red, height red)
  | _, _ => ((width frame / downscaleFactor a)%Z, (height frame / downscaleFactor a)%Z)
  end.

(** What [analyzeImage] needs to return: a positive factor not larger
    than the frame, location lists as long as the list of trackers,
    non-zero orders, a non-empty frame of three channels, and buffers, if
    there are any, of one size and of the types the operations need. *)
Definition analyzer_ready (a : state) (frame : IplImage) : Prop :=
  (0 < downscaleFactor a)%Z /\
  length (markerLocationsX a) = length (markerTrackers a) /\
  length (markerLocationsY a) = length (markerTrackers a) /\
  Forall (fun t => MarkerTracker.order t <> 0%nat) (markerTrackers a) /\
  nChannels frame = 3%Z /\ (0 < width frame)%Z /\ (0 < height frame)%Z /\
  if subClassesInitialized a then
    exists gray orig red w h,
      frameGray a = Some gray /\ originalImage a = Some orig /\
      reducedImage a = Some red /\ (0 < w)%Z /\ (0 < h)%Z /\
      shaped gray w h IPL_DEPTH_32F 1 /\ shaped orig w h IPL_DEPTH_32F 3 /\
      shaped red w h (depth frame) 3 /\
      Forall (ready_tracker gray) (markerTrackers a)
  else (downscaleFactor a <= width frame)%Z /\ (downscaleFactor a <= height frame)%Z.

Lemma analyze_ready_initialized `{CvRuntime} (a : state) (frame : IplImage) :
  analyzer_ready a frame -> subClassesInitialized a = true ->
  exists a',
    analyzeImage a frame = Some (a', frame) /\
    downscaleFactor a' = downscaleFactor a /\
    subClassesInitialized a' = true /\
    length (markerTrackers a') = length (markerTrackers a) /\
    length (markerLocationsX a') = length (markerTrackers a) /\
    length (markerLocationsY a') = length (markerTrackers a) /\
    forall k, (k < length (markerTrackers a))%nat ->
      exists xm ym,
        markerLocationsX a' !! k = Some (downscaleFactor a * xm)%Z /\
        markerLocationsY a' !! k = Some (downscaleFactor a * ym)%Z /\
        (0 <= xm < fst (reduced_size a frame))%Z /\
        (0 <= ym < snd (reduced_size a frame))%Z.
Proof.
  intros (Hf & HX & HY & Hord & Hfc & Hfw & Hfh & Hbuf) Hinit.
  rewrite Hinit in Hbuf.
  destruct Hbuf as (gray & orig & red & w & h & Hgray & Horig & Hred & Hw & Hh &
                    Hsg & Hso & Hsr & Hready).
  destruct (Hsg) as (Hgw & Hgh & Hgd & Hgc).
  destruct (Hso) as (How & Hoh & Hod & Hoc).
  destruct (Hsr) as (Hrw & Hrh & Hrd & Hrc).
  unfold reduced_size. rewrite Hinit, Hred. cbn [fst snd].
  unfold analyzeImage.
  rewrite Hfc, Hinit. cbn [Z.eqb Pos.eqb negb mbind option_bind].
  rewrite Hred. cbn [mbind option_bind].
  unfold Resize.
  assert (same_type frame red = true) as ->
    by (apply same_type_eq; split; congruence).
  destruct (Z.ltb_spec 0 (width frame)); [|lia].
  destruct (Z.ltb_spec 0 (height frame)); [|lia].
  destruct (Z.ltb_spec 0 (width red)); [|lia].
  destruct (Z.ltb_spec 0 (height red)); [|lia].
  cbn [andb]. rewrite Horig. cbn [mbind option_bind].
  rewrite ConvertScale_Some by (cbn; congruence).
  rewrite Hgray. cbn [mbind option_bind].
  rewrite CvtColor_Some by (cbn; congruence).
  set (gray' := mkImage (width gray) (height gray) (depth gray) 1 _).
  destruct (locate_loop (downscaleFactor a) gray' (seq 0 (length (markerTrackers a))))
    with (ts := markerTrackers a) (xs := markerLocationsX a)
         (ys := markerLocationsY a)
    as (ts' & xs' & ys' & Hrun & Hlt & Hlx & Hly & _ & Hdone & _);
    try reflexivity; try assumption; try (cbn; lia).
  { eapply Forall_impl; [|exact Hready].
    intros t (Ho & HfR & HfI & HfS).
    split; [exact Ho|].
    repeat split; (eapply fits_same_shape; [..|eassumption]; cbn; congruence). }
  { apply NoDup_seq. }
  { intros k Hk. apply in_seq in Hk. lia. }
  cbn [mbind option_bind]. rewrite Hrun. cbn [mbind option_bind].
  eexists. split; [reflexivity|]. cbn.
  split; [reflexivity|]. split; [exact Hinit|]. split; [exact Hlt|].
  split; [exact Hlx|]. split; [exact Hly|].
  intros k Hk. destruct (Hdone k) as (xm & ym & Hx & Hy & Hbx & Hby).
  { apply in_seq. lia. }
  exists xm, ym. cbn in Hbx, Hby. split; [exact Hx|]. split; [exact Hy|].
  split; lia.
Qed.

(** [initializeSubClasses] on the first frame: the buffers have the size
    of the frame divided by the factor, and the analyzer is ready for
    [analyzeImage]. *)
Lemma initialize_ready `{CvRuntime} (a : state) (frame : IplImage) :
  analyzer_ready a frame -> subClassesInitialized a = false ->
  exists a0,
    initializeSubClasses a frame = Some a0 /\
    subClassesInitialized a0 = true /\
    downscaleFactor a0 = downscaleFactor a /\
    length (markerTrackers a0) = length (markerTrackers a) /\
    reduced_size a0 frame
      = ((width frame / downscaleFactor a)%Z, (height frame / downscaleFactor a)%Z) /\
    analyzer_ready a0 frame.
Proof.
  intros (Hf & HX & HY & Hord & Hfc & Hfw & Hfh & Hbuf) Hinit.
  rewrite Hinit in Hbuf. destruct Hbuf as [Hfw' Hfh'].
  set (f := downscaleFactor a) in *.
  set (rw := (width frame / f)%Z). set (rh := (height frame / f)%Z).
  assert (Hrw : (0 < rw)%Z) by (apply Z.div_str_pos; lia).
  assert (Hrh : (0 < rh)%Z) by (apply Z.div_str_pos; lia).
  destruct (allocate_all
              (mkImage rw rh (depth frame) (nChannels frame) uninitialised)
              (mkImage rw rh IPL_DEPTH_32F 1 uninitialised) (markerTrackers a))
    as (ts0 & Halloc & Hlen0 & Hready0);
    [cbn; lia|cbn; lia|repeat split|exact Hord|].
  unfold initializeSubClasses. fold f.
  destruct (Z.eqb_spec f 0); [lia|]. fold rw rh.
  rewrite !CreateImage_shaped by lia. cbn [mbind option_bind].
  rewrite Halloc. cbn [mbind option_bind].
  eexists. split; [reflexivity|]. cbn.
  split; [reflexivity|]. split; [reflexivity|]. split; [exact Hlen0|].
  split; [reflexivity|].
  unfold analyzer_ready. cbn. fold f.
  split; [exact Hf|]. split; [congruence|]. split; [congruence|].
  split; [eapply Forall_impl; [|exact Hready0]; now intros t []|].
  split; [exact Hfc|]. split; [exact Hfw|]. split; [exact Hfh|].
  do 3 eexists. exists rw, rh.
  split; [reflexivity|]. split; [reflexivity|]. split; [reflexivity|].
  split; [exact Hrw|]. split; [exact Hrh|].
  split; [repeat split|]. split; [repeat split|].
  split; [repeat split; cbn; congruence|exact Hready0].
Qed.

(** [analyzeImage] on the first frame: every marker gets a location inside
    the frame. *)
Lemma analyze_fresh `{CvRuntime} (a : state) (frame : IplImage) :
  analyzer_ready a frame -> subClassesInitialized a = false ->
  exists a',
    analyzeImage a frame = Some (a', frame) /\
    forall k, (k < length (markerTrackers a))%nat ->
      exists x y,
        markerLocationsX a' !! k = Some x /\ markerLocationsY a' !! k = Some y /\
        (0 <= x < width frame)%Z /\ (0 <= y < height frame)%Z.
Proof.
  intros Hready Hinit.
  destruct (initialize_ready a frame Hready Hinit)
    as (a0 & Hrun0 & Hi0 & Hf0 & Hl0 & Hsize0 & Hready').
  destruct (analyze_ready_initialized a0 frame Hready' Hi0)
    as (a' & Hrun & _ & _ & _ & _ & _ & Hloc).
  destruct Hready as (Hf & _).
  exists a'. split.
  { rewrite <- Hrun. unfold analyzeImage. rewrite Hinit, Hrun0, Hi0. reflexivity. }
  intros k Hk. destruct (Hloc k) as (xm & ym & Hx & Hy & Hbx & Hby); [lia|].
  rewrite Hf0 in Hx, Hy. rewrite Hsize0 in Hbx, Hby. cbn [fst snd] in Hbx, Hby.
  exists (downscaleFactor a * xm)%Z, (downscaleFactor a * ym)%Z.
  split; [exact Hx|]. split; [exact Hy|].
  assert (Hmw := Z.mul_div_le (width frame) (downscaleFactor a) Hf).
  assert (Hmh := Z.mul_div_le (height frame) (downscaleFactor a) Hf).
  split; nia.
Qed.

(** X10: [analyzeImage] with any number of registered markers and any
    positive downscale factor, on a non-empty frame of three channels: it
    returns the frame it was given, and the location it stores for each
    marker is the downscale factor times a pixel position of the reduced
    image; when the buffers are created by this call, the location lies
    inside the frame. *)
Theorem analyzeImage_locations `{CvRuntime} (a : state) (frame : IplImage) :
  analyzer_ready a frame ->
  exists a',
    analyzeImage a frame = Some (a', frame) /\
    subClassesInitialized a' = true /\
    length (markerTrackers a') = length (markerTrackers a) /\
    forall k, (k < length (markerTrackers a))%nat ->
      exists xm ym,
        markerLocationsX a' !! k = Some (downscaleFactor a * xm)%Z /\
        markerLocationsY a' !! k = Some (downscaleFactor a * ym)%Z /\
        (0 <= xm < fst (reduced_size a frame))%Z /\
        (0 <= ym < snd (reduced_size a frame))%Z /\
        (subClassesInitialized a = false ->
         (0 <= downscaleFactor a * xm < width frame)%Z /\
         (0 <= downscaleFactor a * ym < height frame)%Z).
Proof.
  intros Hready.
  destruct (subClassesInitialized a) eqn:Hinit.
  - destruct (analyze_ready_initialized a frame Hready Hinit)
      as (a' & Hrun & _ & Hi' & Hlt & _ & _ & Hloc).
    exists a'. split; [exact Hrun|]. split; [exact Hi'|]. split; [exact Hlt|].
    intros k Hk. destruct (Hloc k Hk) as (xm & ym & Hx & Hy & Hbx & Hby).
    exists xm, ym. repeat split; try assumption; try lia; discriminate.
  - destruct (initialize_ready a frame Hready Hinit)
      as (a0 & Hrun0 & Hi0 & Hf0 & Hl0 & Hsize0 & Hready').
    destruct (analyze_ready_initialized a0 frame Hready' Hi0)
      as (a' & Hrun & _ & Hi' & Hlt & _ & _ & Hloc).
    destruct Hready as (Hf & _).
    exists a'. split.
    { rewrite <- Hrun. unfold analyzeImage. rewrite Hinit, Hrun0, Hi0. reflexivity. }
    split; [exact Hi'|]. split; [congruence|].
    intros k Hk. destruct (Hloc k) as (xm & ym & Hx & Hy & Hbx & Hby); [lia|].
    rewrite Hf0 in Hx, Hy. rewrite Hsize0 in Hbx, Hby. cbn [fst snd] in Hbx, Hby.
    exists xm, ym. split; [exact Hx|]. split; [exact Hy|].
    unfold reduced_size. rewrite Hinit. cbn [fst snd].
    split; [exact Hbx|]. split; [exact Hby|]. intros _.
    assert (Hmw := Z.mul_div_le (width frame) (downscaleFactor a) Hf).
    assert (Hmh := Z.mul_div_le (height frame) (downscaleFactor a) Hf).
    split; nia.
Qed.

Lemma analyzeImage_locations_witness :
  exists a' x y,
    @analyzeImage Examples.plain_runtime
      (with_tracker (with_tracker (init 2) (MarkerTracker.built 7 21 2500))
         (MarkerTracker.built 8 21 2500))
      (Examples.black_frame 641 481)
      = Some (a', Examples.black_frame 641 481) /\
    markerLocationsX a' !! 1%nat = Some x /\
    markerLocationsY a' !! 1%nat = Some y /\
    (0 <= x < 641)%Z /\ (0 <= y < 481)%Z.
Proof.
  destruct (@analyzeImage_locations Examples.plain_runtime
              (with_tracker (with_tracker (init 2) (MarkerTracker.built 7 21 2500))
         (MarkerTracker.built 8 21 2500))
              (Examples.black_frame 641 481))
    as (a' & Hrun & _ & _ & Hloc).
  - unfold analyzer_ready. cbn.
    split; [lia|]. split; [reflexivity|]. split; [reflexivity|].
    split; [repeat constructor; cbn; lia|].
    split; [reflexivity|]. lia.
  - destruct (Hloc 1%nat) as (xm & ym & Hx & Hy & _ & _ & Hin); [cbn; lia|].
    destruct Hin as [Hbx Hby]; [reflexivity|].
    exists a'. eexists. eexists. split; [exact Hrun|].
    split; [exact Hx|]. split; [exact Hy|]. cbn -[Z.mul] in Hbx, Hby |- *. lia.
Defined.

End AnalyzerFacts.

(** ** Whole cycles of the acquisition controller *)

Module DriverCycle.
Import cv LocateFacts StepFacts CameraDriver DriverFacts.

(** The image that [self.processedFrame] refers to. *)
Definition processed_image (d : state) : option IplImage :=
  match processedFrame d with
  | None => None
  | Some TheCurrentFrame => currentFrame d
  | Some (EarlierFrame img) => Some img
  end.

(** The loop of [drawDetectedMarkers]. *)
Lemma draw_loop `{CvRuntime} (locs : list (option location)) (ks : list nat) :
  forall img : IplImage,
    (forall k, In k ks -> exists loc, locs !! k = Some (Some loc)) ->
    exists img',
      for_each (draw_kth locs) ks img = Some img' /\
      shaped img' (width img) (height img) (depth img) (nChannels img).
Proof.
  induction ks as [|k ks IH]; intros img Hall.
  - exists img. split; [reflexivity|repeat split].
  - destruct (Hall k) as ([[x y] o] & Hk); [now left|].
    assert (Hstep : draw_kth locs img k
              = Some (Line (Circle img (x, y) 4 (55, 55, 255) 2) (x, y)
                        ((x + 20)%Z, (y + 20)%Z) (255, 0, 0) 2))
      by (unfold draw_kth; rewrite Hk; reflexivity).
    destruct (IH (Line (Circle img (x, y) 4 (55, 55, 255) 2) (x, y)
                    ((x + 20)%Z, (y + 20)%Z) (255, 0, 0) 2))
      as (img' & Hrun & Hs).
    { intros k' Hk'. apply Hall. now right. }
    exists img'. cbn [for_each]. rewrite Hstep. cbn [mbind option_bind].
    split; [exact Hrun|exact Hs].
Qed.

Lemma draw_loop_inv `{CvRuntime} (locs : list (option location)) (ks : list nat) :
  forall img img' : IplImage,
    for_each (draw_kth locs) ks img = Some img' ->
    forall k, In k ks -> exists loc, locs !! k = Some (Some loc).
Proof.
  induction ks as [|k ks IH]; intros img img' Hrun k' Hin; [destruct Hin|].
  cbn [for_each] in Hrun.
  destruct (draw_kth locs img k) as [img1|] eqn:Hstep;
    cbn [mbind option_bind] in Hrun; [|discriminate].
  destruct Hin as [<-|Hin]; [|eapply IH; eauto].
  unfold draw_kth in Hstep.
  destruct (locs !! k) as [[loc|]|]; [eauto|cbn in Hstep; discriminate..].
Qed.

Lemma show_processed (d : state) (img : IplImage) :
  processed_image d = Some img ->
  showProcessedFrame d = Some [ShowImage "filterdemo" img].
Proof.
  unfold processed_image, showProcessedFrame.
  destruct (processedFrame d) as [[|e]|]; [| |discriminate].
  - intros ->. reflexivity.
  - now intros [= ->].
Qed.

(** [drawDetectedMarkers] with an image to draw into and every location
    known. *)
Lemma draw_runs `{CvRuntime} (d : state) (img : IplImage) :
  processed_image d = Some img ->
  (forall k, (k < length (trackers d))%nat ->
     exists loc, oldLocations d !! k = Some (Some loc)) ->
  exists d' img',
    drawDetectedMarkers d = Some d' /\
    oldLocations d' = oldLocations d /\
    trackers d' = trackers d /\ windowedTrackers d' = windowedTrackers d /\
    cnt d' = cnt d /\ running d' = running d /\
    processed_image d' = Some img' /\
    shaped img' (width img) (height img) (depth img) (nChannels img) /\
    (processedFrame d = Some TheCurrentFrame -> currentFrame d' = Some img').
Proof.
  intros Himg Hall. unfold drawDetectedMarkers. cbv zeta.
  remember (seq 0 (length (trackers d))) as ks eqn:Hks.
  destruct (draw_loop (oldLocations d) ks img) as (img' & Hrun & Hs).
  { intros k Hk. apply Hall. rewrite Hks in Hk. apply in_seq in Hk. lia. }
  destruct ks as [|k0 ks'].
  - exists d, img. split; [reflexivity|]. split; [reflexivity|].
    split; [reflexivity|]. split; [reflexivity|]. split; [reflexivity|].
    split; [reflexivity|]. split; [exact Himg|]. split; [repeat split|].
    intros Hp. unfold processed_image in Himg. now rewrite Hp in Himg.
  - unfold processed_image in Himg.
    destruct (processedFrame d) as [[|e]|] eqn:Hp; [| |discriminate].
    + rewrite Himg. cbn [mbind option_bind]. rewrite Hrun.
      cbn [mbind option_bind].
      exists (set_frames d (Some img') (Some TheCurrentFrame)), img'.
      split; [reflexivity|]. split; [reflexivity|].
      split; [reflexivity|]. split; [reflexivity|]. split; [reflexivity|].
      split; [reflexivity|]. split; [reflexivity|]. split; [exact Hs|].
      reflexivity.
    + injection Himg as ->. rewrite Hrun. cbn [mbind option_bind].
      exists (set_frames d (currentFrame d) (Some (EarlierFrame img'))), img'.
      split; [reflexivity|]. split; [reflexivity|].
      split; [reflexivity|]. split; [reflexivity|]. split; [reflexivity|].
      split; [reflexivity|]. split; [reflexivity|]. split; [exact Hs|].
      discriminate.
Qed.

Lemma draw_inv `{CvRuntime} (d d' : state) :
  drawDetectedMarkers d = Some d' -> trackers d <> [] ->
  is_Some (processed_image d) /\
  (forall k, (k < length (trackers d))%nat ->
     exists loc, oldLocations d !! k = Some (Some loc)).
Proof.
  unfold drawDetectedMarkers. cbv zeta. intros Hdraw Hne.
  remember (seq 0 (length (trackers d))) as ks eqn:Hks.
  destruct ks as [|k0 ks'].
  { destruct (trackers d) as [|a l] eqn:Ht; [congruence|].
    cbn in Hks. discriminate. }
  unfold processed_image.
  destruct (processedFrame d) as [[|e]|]; [| |discriminate].
  - destruct (currentFrame d) as [cur|]; cbn [mbind option_bind] in Hdraw;
      [|discriminate].
    match type of Hdraw with
    | (?e ≫= _) = _ => destruct e as [img'|] eqn:Hrun
    end; cbn [mbind option_bind] in Hdraw; [|discriminate].
    split; [eauto|]. intros k Hk. eapply draw_loop_inv; [exact Hrun|].
    rewrite Hks. apply in_seq. lia.
  - match type of Hdraw with
    | (?e ≫= _) = _ => destruct e as [img'|] eqn:Hrun
    end; cbn [mbind option_bind] in Hdraw; [|discriminate].
    split; [eauto|]. intros k Hk. eapply draw_loop_inv; [exact Hrun|].
    rewrite Hks. apply in_seq. lia.
Qed.

(** X11: with at least one marker, [drawDetectedMarkers] returns exactly
    when there is a processed frame and the location of every marker is
    known; after a reset, or before the first [processFrame], it raises.
    When it returns, locations, trackers, counter and running flag are as
    before, the processed frame keeps its size and type and is what
    [showProcessedFrame] shows; when the processed frame is the current
    frame, the drawing is in the current frame, the image that the key S
    saves. *)
Theorem drawDetectedMarkers_needs_locations `{CvRuntime} (d : state) :
  trackers d <> [] ->
  (is_Some (drawDetectedMarkers d) <->
   is_Some (processed_image d) /\
   forall k, (k < length (trackers d))%nat ->
     exists loc, oldLocations d !! k = Some (Some loc)) /\
  (forall d', drawDetectedMarkers d = Some d' ->
     returnPositions d' = returnPositions d /\
     trackers d' = trackers d /\ windowedTrackers d' = windowedTrackers d /\
     cnt d' = cnt d /\ running d' = running d /\
     exists img img',
       processed_image d = Some img /\ processed_image d' = Some img' /\
       shaped img' (width img) (height img) (depth img) (nChannels img) /\
       showProcessedFrame d' = Some [ShowImage "filterdemo" img'] /\
       (processedFrame d = Some TheCurrentFrame -> currentFrame d' = Some img')).
Proof.
  intros Hne. split; [split|].
  - intros [d' Hdraw]. exact (draw_inv d d' Hdraw Hne).
  - intros [[img Himg] Hall].
    destruct (draw_runs d img Himg Hall) as (d' & img' & Hdraw & _). eauto.
  - intros d' Hdraw.
    destruct (draw_inv d d' Hdraw Hne) as [[img Himg] Hall].
    destruct (draw_runs d img Himg Hall)
      as (d2 & img' & Hdraw2 & Hl & Ht & Hw & Hc & Hr & Himg' & Hs & Hcur).
    rewrite Hdraw in Hdraw2. injection Hdraw2 as <-.
    split; [exact Hl|]. split; [exact Ht|]. split; [exact Hw|].
    split; [exact Hc|]. split; [exact Hr|].
    exists img, img'. split; [exact Himg|]. split; [exact Himg'|].
    split; [exact Hs|]. split; [now apply show_processed|exact Hcur].
Qed.

Lemma drawDetectedMarkers_needs_locations_witness :
  exists d',
    @drawDetectedMarkers Examples.plain_runtime Examples.small_frame_driver
      = Some d' /\
    returnPositions d' = [Some (0%Z, 0%Z, 0)].
Proof.
  destruct (@drawDetectedMarkers_needs_locations Examples.plain_runtime
              Examples.small_frame_driver) as [Hiff Heff].
  - cbn. discriminate.
  - destruct (proj2 Hiff) as [d' Hd'].
    { split; [eexists; reflexivity|].
      intros [|k] Hk; [eexists; reflexivity|cbn in Hk; lia]. }
    exists d'. split; [exact Hd'|].
    destruct (Heff d' Hd') as [Hr _]. exact Hr.
Defined.

(** The analyzer of marker [k] has not yet created its buffers. *)
Definition fresh_at (d : state) (k : nat) : Prop :=
  exists a, trackers d !! k = Some a /\
            ImageAnalyzer.subClassesInitialized a = false.

(** A pass of the loop of [processFrame] for a marker without location. *)
Lemma search_step `{CvRuntime} (dp : Depth) (d : state)
    (out : list ConsoleLine) (k : nat) (frame : IplImage) :
  wf_driver dp d -> currentFrame d = Some frame -> camera_frame dp frame ->
  oldLocations d !! k = Some None ->
  exists d' a' x y,
    process_kth (d, out) k = Some (d', out) /\
    wf_driver dp d' /\
    currentFrame d' = Some frame /\
    processedFrame d' = Some TheCurrentFrame /\
    windowedTrackers d' = windowedTrackers d /\
    trackers d' = <[k := a']> (trackers d) /\
    oldLocations d' = <[k := Some (x, y, 0)]> (oldLocations d) /\
    cnt d' = cnt d /\ running d' = running d /\
    (fresh_at d k -> (0 <= x < width frame)%Z /\ (0 <= y < height frame)%Z).
Proof.
  intros (Hlt & Hlw & Hta & Htw & Hdef) Hcur Hframe Hold.
  assert (Hk : (k < length (oldLocations d))%nat)
    by (apply lookup_lt_is_Some; eauto).
  destruct (lookup_lt_is_Some_2 (trackers d) k) as [a Ha]; [lia|].
  assert (Hwa : wf_analyzer dp a) by (eapply Forall_lookup_1; eauto).
  destruct (analyze_step dp a frame Hwa Hframe)
    as (a' & xm & ym & Hrun & Hwa' & HX & HY & _).
  assert (Hin : fresh_at d k ->
            (0 <= 1 * xm < width frame)%Z /\ (0 <= 1 * ym < height frame)%Z).
  { intros (a0 & Ha0 & Hfresh). rewrite Ha in Ha0. injection Ha0 as <-.
    destruct Hwa as (Hf & HlX & HlY & t & Ht & Hord & _).
    destruct (Hframe) as ((_ & _ & Hfd & Hfc) & Hfw & Hfh).
    destruct (AnalyzerFacts.analyze_fresh a frame) as (a2 & Hrun2 & Hloc);
      [|exact Hfresh|].
    { unfold AnalyzerFacts.analyzer_ready. rewrite Hfresh, Hf, Ht.
      cbn [length].
      split; [lia|]. split; [exact HlX|]. split; [exact HlY|].
      split; [repeat constructor; exact Hord|].
      split; [exact Hfc|]. split; [exact Hfw|]. split; [exact Hfh|]. lia. }
    rewrite Hrun in Hrun2. injection Hrun2 as <-.
    destruct (Hloc 0%nat) as (x2 & y2 & Hx2 & Hy2 & Hbx & Hby);
      [rewrite Ht; cbn; lia|].
    rewrite HX in Hx2. rewrite HY in Hy2.
    cbn [lookup list_lookup] in Hx2, Hy2.
    injection Hx2 as <-. injection Hy2 as <-. split; assumption. }
  cbv beta iota delta [process_kth]. rewrite Hold. cbn [mbind option_bind].
  rewrite Ha. cbn [mbind option_bind]. rewrite Hcur. cbn [mbind option_bind].
  rewrite Hrun. cbn [mbind option_bind]. rewrite HX, HY.
  cbn [lookup list_lookup mbind option_bind].
  assert (Hassign : list_assign (oldLocations d) k
                      (Some ((1 * xm)%Z, (1 * ym)%Z, defaultOrientation d))
                    = Some (<[k := Some ((1 * xm)%Z, (1 * ym)%Z, 0)]> (oldLocations d))).
  { apply list_assign_Some. rewrite Hdef. auto. }
  rewrite Hassign. cbn [mbind option_bind].
  eexists _, a', (1 * xm)%Z, (1 * ym)%Z. split; [reflexivity|].
  split.
  { unfold wf_driver. cbn. rewrite !length_insert.
    split; [exact Hlt|]. split; [exact Hlw|].
    split; [now apply Forall_insert|]. split; [exact Htw|exact Hdef]. }
  split; [reflexivity|]. split; [reflexivity|]. split; [reflexivity|].
  split; [reflexivity|]. split; [reflexivity|]. split; [reflexivity|].
  split; [reflexivity|]. exact Hin.
Qed.

(** The loop of [processFrame] over markers without location: nothing is
    printed, the frame is left as it is, and each of them is seeded with
    the default orientation. *)
Lemma search_loop `{CvRuntime} (dp : Depth) (frame : IplImage) (ks : list nat) :
  forall (d : state) (out : list ConsoleLine),
    wf_driver dp d -> currentFrame d = Some frame -> camera_frame dp frame ->
    NoDup ks -> (forall k, In k ks -> oldLocations d !! k = Some None) ->
    exists d',
      for_each process_kth ks (d, out) = Some (d', out) /\
      wf_driver dp d' /\ currentFrame d' = Some frame /\
      processedFrame d' = match ks with
                          | [] => processedFrame d
                          | _ => Some TheCurrentFrame
                          end /\
      windowedTrackers d' = windowedTrackers d /\
      length (oldLocations d') = length (oldLocations d) /\
      cnt d' = cnt d /\ running d' = running d /\
      (forall k, In k ks ->
         exists x y, oldLocations d' !! k = Some (Some (x, y, 0)) /\
           (fresh_at d k ->
            (0 <= x < width frame)%Z /\ (0 <= y < height frame)%Z)) /\
      (forall k, ~ In k ks -> oldLocations d' !! k = oldLocations d !! k).
Proof.
  induction ks as [|k ks IH]; intros d out Hwf Hcur Hframe Hnd Hnone.
  - exists d. cbn [for_each]. split; [reflexivity|]. split; [exact Hwf|].
    split; [exact Hcur|]. split; [reflexivity|]. split; [reflexivity|].
    split; [reflexivity|]. split; [reflexivity|]. split; [reflexivity|].
    split; [intros k []|reflexivity].
  - inversion Hnd as [|? ? Hnotin Hnd']; subst.
    rewrite list_elem_of_In in Hnotin.
    assert (Hold : oldLocations d !! k = Some None) by (apply Hnone; now left).
    assert (Hk : (k < length (oldLocations d))%nat)
      by (apply lookup_lt_is_Some; eauto).
    destruct (search_step dp d out k frame Hwf Hcur Hframe Hold)
      as (d1 & a' & x & y & Hrun & Hwf1 & Hcur1 & Hp1 & Hw1 & Ht1 & Hl1 & Hc1 &
          Hr1 & Hin).
    destruct (IH d1 out Hwf1 Hcur1 Hframe Hnd')
      as (d' & Hrest & Hwf' & Hcur' & Hp' & Hw' & Hlen & Hc' & Hr' & Hdone &
          Hother).
    { intros k' Hk'. rewrite Hl1, list_lookup_insert_ne; [apply Hnone; now right|].
      intros ->. contradiction. }
    exists d'. cbn [for_each]. rewrite Hrun. cbn [mbind option_bind].
    split; [exact Hrest|]. split; [exact Hwf'|]. split; [exact Hcur'|].
    split; [rewrite Hp'; destruct ks; [exact Hp1|reflexivity]|].
    split; [congruence|].
    split; [rewrite Hlen, Hl1; apply length_insert|].
    split; [congruence|]. split; [congruence|]. split.
    + intros k' [<-|Hk'].
      * exists x, y. split; [|exact Hin].
        rewrite (Hother k Hnotin), Hl1. now apply list_lookup_insert_eq.
      * destruct (Hdone k' Hk') as (x' & y' & Hloc & Hin').
        exists x', y'. split; [exact Hloc|].
        intros (a0 & Ha0 & Hfresh). apply Hin'. exists a0. split; [|exact Hfresh].
        rewrite Ht1, list_lookup_insert_ne; [exact Ha0|].
        intros ->. contradiction.
    + intros k' Hk'.
      rewrite Hother by (intros Hin'; apply Hk'; now right).
      rewrite Hl1. apply list_lookup_insert_ne. intros ->. apply Hk'. now left.
Qed.

(** X12: the key R, then [processFrame].  For a driver that holds a colour
    frame, a key whose low byte is 114 prints the reset message and makes
    every location unknown; the next [processFrame] returns, prints
    nothing, leaves frame, counter and running flag as they are, and gives
    every marker a location with orientation 0 from a search of the whole
    frame. *)
Theorem reset_then_search `{CvRuntime} (dp : Depth) (d : state)
    (frame : IplImage) (key : Z) :
  wf_driver dp d -> currentFrame d = Some frame -> camera_frame dp frame ->
  Z.land key 255 = 114%Z ->
  exists d1 d2,
    handleKeyboardEvents d key = Some (d1, [Console PrintResetting]) /\
    (forall k, (k < length (oldLocations d))%nat ->
       returnPositions d1 !! k = Some None) /\
    processFrame d1 = Some (d2, []) /\
    currentFrame d2 = Some frame /\ cnt d2 = cnt d /\ running d2 = running d /\
    length (returnPositions d2) = length (oldLocations d) /\
    (forall k, (k < length (oldLocations d))%nat ->
       exists x y, returnPositions d2 !! k = Some (Some (x, y, 0))) /\
    (oldLocations d <> [] -> processedFrame d2 = Some TheCurrentFrame).
Proof.
  intros Hwf Hcur Hframe Hkey.
  destruct (Hwf) as (Hlt & Hlw & Hta & Htw & Hdef).
  destruct (reset_loop (seq 0 (length (trackers d))) (oldLocations d))
    as (locs' & Hreset & Hlen & Hnone & _).
  { intros k Hk. apply in_seq in Hk. lia. }
  set (d1 := set_oldLocations d locs').
  assert (Hwf1 : wf_driver dp d1).
  { unfold wf_driver, d1. cbn. rewrite Hlen. auto. }
  destruct (search_loop dp frame (seq 0 (length (trackers d))) d1 [] Hwf1 Hcur Hframe)
    as (d2 & Hrun & _ & Hcur2 & Hp2 & _ & Hlen2 & Hc2 & Hr2 & Hdone & _).
  { apply NoDup_seq. }
  { intros k Hk. apply Hnone. exact Hk. }
  exists d1, d2. split.
  { unfold handleKeyboardEvents. cbv zeta. rewrite Hkey.
    cbn [Z.eqb Pos.eqb]. unfold resetAllLocations. rewrite Hreset.
    reflexivity. }
  split; [intros k Hk; apply Hnone, in_seq; lia|].
  split; [exact Hrun|]. split; [exact Hcur2|]. split; [exact Hc2|].
  split; [exact Hr2|].
  split; [unfold returnPositions; rewrite Hlen2; exact Hlen|].
  split.
  - intros k Hk. destruct (Hdone k) as (x & y & Hloc & _); [apply in_seq; lia|].
    exists x, y. exact Hloc.
  - intros Hne. rewrite Hp2.
    destruct (trackers d) as [|a l]; [|reflexivity].
    destruct (oldLocations d); [congruence|discriminate].
Qed.

Lemma reset_then_search_witness :
  exists d1 d2 x y,
    handleKeyboardEvents Examples.small_frame_driver 114
      = Some (d1, [Console PrintResetting]) /\
    @processFrame Examples.plain_runtime d1 = Some (d2, []) /\
    returnPositions d2 !! 0%nat = Some (Some (x, y, 0)).
Proof.
  destruct (@reset_then_search Examples.plain_runtime IPL_DEPTH_8U
              Examples.small_frame_driver (Examples.black_frame 80 60) 114)
    as (d1 & d2 & Hkey & _ & Hrun & _ & _ & _ & _ & Hall & _).
  - unfold wf_driver. cbn.
    split; [reflexivity|]. split; [reflexivity|]. split; [|split; [|reflexivity]].
    + repeat constructor; cbn; try reflexivity;
        (eexists; split; [reflexivity|]; split; [cbn; lia|discriminate]).
    + repeat constructor; cbn; lia.
  - reflexivity.
  - unfold camera_frame, shaped. cbn. repeat split; lia.
  - reflexivity.
  - destruct (Hall 0%nat) as (x & y & Hloc); [cbn; lia|].
    exists d1, d2, x, y. split; [exact Hkey|]. split; [exact Hrun|exact Hloc].
Defined.



(** The corner of the window in a frame larger than the window. *)
Lemma window_corner_fits (w : TrackerInWindowMode.state) (frame : IplImage)
    (x y : Z) :
  (0 <= TrackerInWindowMode.windowWidth w < width frame)%Z ->
  (0 <= TrackerInWindowMode.windowHeight w < height frame)%Z ->
  (1 <= fst (TrackerInWindowMode.window_corner w frame x y)
     <= width frame - TrackerInWindowMode.windowWidth w)%Z /\
  (1 <= snd (TrackerInWindowMode.window_corner w frame x y)
     <= height frame - TrackerInWindowMode.windowHeight w)%Z.
Proof.
  intros Hw Hh. unfold TrackerInWindowMode.window_corner. cbv zeta.
  cbn [fst snd].
  repeat match goal with
         | |- context [(?a <? ?b)%Z] => destruct (Z.ltb_spec a b)
         | |- context [(?a >? ?b)%Z] =>
             rewrite (Z.gtb_ltb a b); destruct (Z.ltb_spec b a)
         end; lia.
Qed.

(** In a colour frame larger than the window no statement of the [try]
    block of [cropFrame] raises. *)
Lemma crop_succeeds (dp : Depth) (w : TrackerInWindowMode.state)
    (frame : IplImage) (x y : Z) :
  wf_window w -> camera_frame dp frame ->
  (TrackerInWindowMode.windowWidth w < width frame)%Z ->
  (TrackerInWindowMode.windowHeight w < height frame)%Z ->
  ~ crop_raises w frame x y.
Proof.
  intros (Hww & Hwh & Hg & Ho & _) ((_ & _ & Hfd & Hfc) & Hfw & Hfh) Hlw Hlh.
  destruct Hg as (Hgw & Hgh & Hgd & Hgc).
  destruct Ho as (How & Hoh & Hod & Hoc).
  destruct (window_corner_fits w frame x y) as [Hcx Hcy]; [lia|lia|].
  unfold crop_raises, window_rect.
  set (cx := fst _) in *. set (cy := snd _) in *.
  unfold GetSubRect.
  repeat match goal with
         | |- context [(?a <=? ?b)%Z] =>
             let E := fresh in destruct (Z.leb_spec a b) as [E|E]; [|lia]
         end.
  cbn [andb].
  rewrite ConvertScale_Some by (cbn; congruence).
  rewrite CvtColor_Some by (cbn; congruence).
  discriminate.
Qed.

(** [locateMarker] of the windowed tracker keeps the size of the window. *)
Lemma locate_keeps_window `{CvRuntime} (w1 w2 : TrackerInWindowMode.state)
    (frame frame' : IplImage) (loc : location) :
  TrackerInWindowMode.locateMarker w1 frame = Some (w2, frame', loc) ->
  TrackerInWindowMode.windowWidth w2 = TrackerInWindowMode.windowWidth w1 /\
  TrackerInWindowMode.windowHeight w2 = TrackerInWindowMode.windowHeight w1.
Proof.
  unfold TrackerInWindowMode.locateMarker. intros Hrun.
  repeat match type of Hrun with
         | (?e ≫= _) = Some _ =>
             destruct e as [?|] eqn:?;
             cbn [mbind option_bind] in Hrun; [|discriminate]
         | context [let '(_, _) := ?p in _] => destruct p
         end.
  injection Hrun as <- _ _. split; reflexivity.
Qed.

(** A pass of the loop of [processFrame] for a marker with a location, in
    a colour frame larger than the window. *)
Lemma track_step `{CvRuntime} (dp : Depth) (d : state) (out : list ConsoleLine)
    (k : nat) (frame : IplImage) (w : TrackerInWindowMode.state) (x y : Z)
    (o0 : R) :
  wf_driver dp d -> currentFrame d = Some frame -> camera_frame dp frame ->
  windowedTrackers d !! k = Some w ->
  oldLocations d !! k = Some (Some (x, y, o0)) ->
  (TrackerInWindowMode.windowWidth w < width frame)%Z ->
  (TrackerInWindowMode.windowHeight w < height frame)%Z ->
  exists d' frame' w' x' y' o,
    process_kth (d, out) k = Some (d', out) /\
    wf_driver dp d' /\
    currentFrame d' = Some frame' /\ camera_frame dp frame' /\
    width frame' = width frame /\ height frame' = height frame /\
    processedFrame d' = processedFrame d /\ trackers d' = trackers d /\
    windowedTrackers d' = <[k := w']> (windowedTrackers d) /\
    TrackerInWindowMode.windowWidth w' = TrackerInWindowMode.windowWidth w /\
    TrackerInWindowMode.windowHeight w' = TrackerInWindowMode.windowHeight w /\
    oldLocations d' = <[k := Some (x', y', o)]> (oldLocations d) /\
    cnt d' = cnt d /\ running d' = running d /\
    (fst (TrackerInWindowMode.window_corner w frame x y) <= x'
       < fst (TrackerInWindowMode.window_corner w frame x y)
         + TrackerInWindowMode.windowWidth w)%Z /\
    (snd (TrackerInWindowMode.window_corner w frame x y) <= y'
       < snd (TrackerInWindowMode.window_corner w frame x y)
         + TrackerInWindowMode.windowHeight w)%Z /\
    (1 <= x' < width frame)%Z /\ (1 <= y' < height frame)%Z /\
    - PI < o <= PI.
Proof.
  intros Hwf Hcur Hframe Hw Hold Hsw Hsh.
  destruct (Hwf) as (Hlt & Hlw & Hta & Htw & Hdef).
  assert (Hk : (k < length (oldLocations d))%nat)
    by (apply lookup_lt_is_Some; eauto).
  assert (Hww : wf_window w) by (eapply Forall_lookup_1; eauto).
  destruct (cropFrame_runs w frame x y Hww)
    as (w1 & printed & Hcrop & Hwf1 & Hw1w & Hw1h & _ & HfR & HfI & HfS & Hpos &
        Href & _ & Hfine).
  assert (printed = []) as ->
    by (apply Hfine; eapply crop_succeeds; eauto).
  set (cx := fst (TrackerInWindowMode.window_corner w frame x y)).
  set (cy := snd (TrackerInWindowMode.window_corner w frame x y)).
  destruct (window_locate w1 frame cx cy (TrackerInWindowMode.windowWidth w)
              (TrackerInWindowMode.windowHeight w) Hwf1 HfR HfI HfS Hpos Href)
    as (w2 & frame' & mt' & xm & ym & o & Hloc & Hor & Hrun & Hwf2 & Hshape & _).
  destruct (locate_keeps_window _ _ _ _ _ Hrun) as [Hw2w Hw2h].
  assert (Hpeak : (0 <= xm < TrackerInWindowMode.windowWidth w)%Z /\
                  (0 <= ym < TrackerInWindowMode.windowHeight w)%Z /\
                  - PI < o <= PI).
  { destruct (Hwf1) as (Hww1 & Hwh1 & Hg1 & _ & _ & Hord1).
    destruct (Hg1) as (Hgw & Hgh & Hgd & Hgc).
    destruct (locateMarker_peak (TrackerInWindowMode.markerTracker w1)
                (TrackerInWindowMode.frameGray w1))
      as (mt2 & xm2 & ym2 & Hloc2 & _ & Hbx & Hby & _ & _ & Hor2 & _);
      try assumption; try lia.
    rewrite Hloc in Hloc2. injection Hloc2 as <- <- <-.
    rewrite Hor in Hor2. injection Hor2 as ->.
    rewrite Hgw, Hw1w in Hbx. rewrite Hgh, Hw1h in Hby.
    split; [exact Hbx|]. split; [exact Hby|].
    apply AngleFacts.limitAngleToRange_turns. }
  destruct Hpeak as (Hbx & Hby & Hrange).
  destruct (Hww) as (Hww0 & Hwh0 & _).
  destruct (window_corner_fits w frame x y) as [Hcx Hcy]; [lia|lia|].
  fold cx in Hcx. fold cy in Hcy.
  cbv beta iota delta [process_kth]. rewrite Hold. cbn [mbind option_bind].
  rewrite Hw. cbn [mbind option_bind]. rewrite Hcur. cbn [mbind option_bind].
  rewrite Hcrop. cbn [mbind option_bind]. rewrite Hrun. cbn [mbind option_bind].
  assert (Hassign : list_assign (oldLocations d) k
                      (Some ((xm + cx)%Z, (ym + cy)%Z, o))
                    = Some (<[k := Some ((xm + cx)%Z, (ym + cy)%Z, o)]> (oldLocations d)))
    by (apply list_assign_Some; auto).
  rewrite Hassign. cbn [mbind option_bind]. rewrite app_nil_r.
  eexists _, frame', w2, (xm + cx)%Z, (ym + cy)%Z, o.
  split; [reflexivity|]. split.
  { unfold wf_driver. cbn. rewrite !length_insert.
    split; [exact Hlt|]. split; [exact Hlw|]. split; [exact Hta|].
    split; [|exact Hdef]. apply Forall_insert; [exact Htw|exact Hwf2]. }
  split; [reflexivity|].
  split; [eapply camera_frame_shaped; eauto|].
  split; [apply Hshape|]. split; [apply Hshape|].
  split; [reflexivity|]. split; [reflexivity|]. split; [reflexivity|].
  split; [congruence|]. split; [congruence|].
  split; [reflexivity|]. split; [reflexivity|]. split; [reflexivity|].
  split; [lia|]. split; [lia|]. split; [lia|]. split; [lia|]. exact Hrange.
Qed.

(** X14: tracking one marker.  In a colour frame larger than the window,
    the pass of [processFrame] for a marker with a known location returns
    and prints nothing; the new location lies in the window that
    [cropFrame] placed around the old one, hence inside the frame and never
    in its first row or column, and the new orientation lies in
    (-pi, pi]. *)
Theorem tracked_location_in_window `{CvRuntime} (dp : Depth) (d : state)
    (out : list ConsoleLine) (k : nat) (frame : IplImage)
    (w : TrackerInWindowMode.state) (x y : Z) (o0 : R) :
  wf_driver dp d -> currentFrame d = Some frame -> camera_frame dp frame ->
  windowedTrackers d !! k = Some w ->
  oldLocations d !! k = Some (Some (x, y, o0)) ->
  (TrackerInWindowMode.windowWidth w < width frame)%Z ->
  (TrackerInWindowMode.windowHeight w < height frame)%Z ->
  exists d' x' y' o,
    process_kth (d, out) k = Some (d', out) /\
    returnPositions d' !! k = Some (Some (x', y', o)) /\
    (fst (TrackerInWindowMode.window_corner w frame x y) <= x'
       < fst (TrackerInWindowMode.window_corner w frame x y)
         + TrackerInWindowMode.windowWidth w)%Z /\
    (snd (TrackerInWindowMode.window_corner w frame x y) <= y'
       < snd (TrackerInWindowMode.window_corner w frame x y)
         + TrackerInWindowMode.windowHeight w)%Z /\
    (1 <= x' < width frame)%Z /\ (1 <= y' < height frame)%Z /\
    - PI < o <= PI.
Proof.
  intros Hwf Hcur Hframe Hw Hold Hsw Hsh.
  destruct (track_step dp d out k frame w x y o0 Hwf Hcur Hframe Hw Hold Hsw Hsh)
    as (d' & frame' & w' & x' & y' & o & Hrun & _ & _ & _ & _ & _ & _ & _ & _ &
        _ & _ & Hl & _ & _ & Hx & Hy & Hx' & Hy' & Ho).
  exists d', x', y', o. split; [exact Hrun|]. split; [|auto 10].
  unfold returnPositions. rewrite Hl. apply list_lookup_insert_eq.
  apply lookup_lt_is_Some. eauto.
Qed.

(** The driver of the markers 7 and 8 holding a black frame of 640 by 480,
    with marker 7 last seen at (600, 10). *)
Definition tracking_driver : state :=
  set_oldLocations Examples.new_driver [Some (600%Z, 10%Z, 0); None].

Lemma tracked_location_in_window_witness :
  exists d' x' y' o,
    @process_kth Examples.plain_runtime (tracking_driver, []) 0 = Some (d', []) /\
    returnPositions d' !! 0%nat = Some (Some (x', y', o)) /\
    (540 <= x' < 640)%Z /\ (1 <= y' < 101)%Z /\ - PI < o <= PI.
Proof.
  destruct (@tracked_location_in_window Examples.plain_runtime IPL_DEPTH_8U
              tracking_driver [] 0 (Examples.black_frame 640 480)
              (Examples.window_tracker 7) 600 10 0)
    as (d' & x' & y' & o & Hrun & Hloc & Hx & Hy & _ & _ & Ho).
  - unfold wf_driver. cbn.
    split; [reflexivity|]. split; [reflexivity|]. split; [|split; [|reflexivity]].
    + repeat constructor; cbn; try reflexivity;
        (eexists; split; [reflexivity|]; split; [cbn; lia|discriminate]).
    + repeat constructor; cbn; lia.
  - reflexivity.
  - unfold camera_frame, shaped. cbn. repeat split; lia.
  - reflexivity.
  - reflexivity.
  - cbn. lia.
  - cbn. lia.
  - exists d', x', y', o. split; [exact Hrun|]. split; [exact Hloc|].
    change (TrackerInWindowMode.window_corner (Examples.window_tracker 7)
              (Examples.black_frame 640 480) 600 10) with (540%Z, 1%Z) in Hx, Hy.
    cbn [fst snd Examples.window_tracker TrackerInWindowMode.windowWidth
         TrackerInWindowMode.windowHeight] in Hx, Hy.
    split; [lia|]. split; [lia|exact Ho].
Defined.

(** The windows of the driver are smaller than [fw] by [fh]. *)
Definition windows_below (fw fh : Z) (d : state) : Prop :=
  Forall (fun w => (TrackerInWindowMode.windowWidth w < fw)%Z /\
                   (TrackerInWindowMode.windowHeight w < fh)%Z)
         (windowedTrackers d).

(** The loop of [processFrame] over markers with a location. *)
Lemma track_loop `{CvRuntime} (dp : Depth) (fw fh : Z) (ks : list nat) :
  forall (d : state) (out : list ConsoleLine) (frame : IplImage),
    wf_driver dp d -> currentFrame d = Some frame -> camera_frame dp frame ->
    width frame = fw -> height frame = fh -> windows_below fw fh d ->
    NoDup ks ->
    (forall k, In k ks -> exists loc, oldLocations d !! k = Some (Some loc)) ->
    exists d' frame',
      for_each process_kth ks (d, out) = Some (d', out) /\
      wf_driver dp d' /\ currentFrame d' = Some frame' /\
      camera_frame dp frame' /\ width frame' = fw /\ height frame' = fh /\
      windows_below fw fh d' /\
      length (oldLocations d') = length (oldLocations d) /\
      cnt d' = cnt d /\ running d' = running d /\
      (forall k, In k ks ->
         exists x y o,
           oldLocations d' !! k = Some (Some (x, y, o)) /\
           (1 <= x < fw)%Z /\ (1 <= y < fh)%Z /\ - PI < o <= PI) /\
      (forall k, ~ In k ks -> oldLocations d' !! k = oldLocations d !! k).
Proof.
  induction ks as [|k ks IH];
    intros d out frame Hwf Hcur Hframe Hfw Hfh Hbelow Hnd Hknown.
  - exists d, frame. cbn [for_each]. split; [reflexivity|]. split; [exact Hwf|].
    split; [exact Hcur|]. split; [exact Hframe|]. split; [exact Hfw|].
    split; [exact Hfh|]. split; [exact Hbelow|]. split; [reflexivity|].
    split; [reflexivity|]. split; [reflexivity|].
    split; [intros k []|reflexivity].
  - inversion Hnd as [|? ? Hnotin Hnd']; subst.
    rewrite list_elem_of_In in Hnotin.
    destruct (Hknown k) as ([[x y] o0] & Hold); [now left|].
    assert (Hk : (k < length (oldLocations d))%nat)
      by (apply lookup_lt_is_Some; eauto).
    destruct (Hwf) as (_ & Hlw & _).
    destruct (lookup_lt_is_Some_2 (windowedTrackers d) k) as [w Hw]; [lia|].
    destruct (Forall_lookup_1 _ _ _ _ Hbelow Hw) as [Hsw Hsh].
    destruct (track_step dp d out k frame w x y o0 Hwf Hcur Hframe Hw Hold Hsw Hsh)
      as (d1 & frame1 & w' & x' & y' & o & Hrun & Hwf1 & Hcur1 & Hframe1 & Hfw1 &
          Hfh1 & _ & _ & Hw1 & Hww' & Hwh' & Hl1 & Hc1 & Hr1 & _ & _ & Hx & Hy &
          Ho).
    destruct (IH d1 out frame1 Hwf1 Hcur1 Hframe1)
      as (d' & frame' & Hrest & Hwf' & Hcur' & Hframe' & Hfw' & Hfh' & Hbelow' &
          Hlen & Hc' & Hr' & Hdone & Hother).
    { rewrite Hfw1. reflexivity. }
    { rewrite Hfh1. reflexivity. }
    { unfold windows_below. rewrite Hw1.
      apply Forall_insert; [exact Hbelow|]. rewrite Hww', Hwh'. auto. }
    { exact Hnd'. }
    { intros k' Hk'. rewrite Hl1, list_lookup_insert_ne; [apply Hknown; now right|].
      intros ->. contradiction. }
    exists d', frame'. cbn [for_each]. rewrite Hrun. cbn [mbind option_bind].
    split; [exact Hrest|]. split; [exact Hwf'|]. split; [exact Hcur'|].
    split; [exact Hframe'|]. split; [exact Hfw'|]. split; [exact Hfh'|].
    split; [exact Hbelow'|].
    split; [rewrite Hlen, Hl1; apply length_insert|].
    split; [congruence|]. split; [congruence|]. split.
    + intros k' [<-|Hk']; [|now apply Hdone].
      exists x', y', o. split; [|auto].
      rewrite (Hother k Hnotin), Hl1. now apply list_lookup_insert_eq.
    + intros k' Hk'.
      rewrite Hother by (intros Hin'; apply Hk'; now right).
      rewrite Hl1. apply list_lookup_insert_ne. intros ->. apply Hk'. now left.
Qed.

(** Every marker has a location. *)
Definition all_known (d : state) : Prop :=
  forall k, (k < length (oldLocations d))%nat ->
    exists loc, oldLocations d !! k = Some (Some loc).

(** Every marker has a location inside a frame of [fw] by [fh], off its
    first row and column, with an orientation in (-pi, pi]. *)
Definition all_inside (fw fh : Z) (d : state) : Prop :=
  forall k, (k < length (oldLocations d))%nat ->
    exists x y o,
      returnPositions d !! k = Some (Some (x, y, o)) /\
      (1 <= x < fw)%Z /\ (1 <= y < fh)%Z /\ - PI < o <= PI.

(** One cycle, [getImage] and [processFrame], with every location known. *)
Lemma tracking_cycle `{CvRuntime} (dp : Depth) (fw fh : Z) (d : state)
    (frame : IplImage) :
  wf_driver dp d -> windows_below fw fh d -> all_known d ->
  camera_frame dp frame -> width frame = fw -> height frame = fh ->
  exists d1,
    processFrame (getImage d (Some frame)) = Some (d1, []) /\
    wf_driver dp d1 /\ windows_below fw fh d1 /\
    length (oldLocations d1) = length (oldLocations d) /\
    cnt d1 = cnt d /\ running d1 = running d /\
    all_inside fw fh d1.
Proof.
  intros Hwf Hbelow Hknown Hframe Hfw Hfh.
  set (d0 := getImage d (Some frame)).
  destruct (Hwf) as (Hlt & _).
  destruct (track_loop dp fw fh (seq 0 (length (trackers d0))) d0 [] frame
              Hwf eq_refl Hframe Hfw Hfh Hbelow)
    as (d1 & frame1 & Hrun & Hwf1 & _ & _ & _ & _ & Hbelow1 & Hlen & Hc & Hr &
        Hdone & _).
  { apply NoDup_seq. }
  { intros k Hk. apply in_seq in Hk. apply Hknown.
    change (trackers d0) with (trackers d) in Hk. lia. }
  exists d1. split; [exact Hrun|]. split; [exact Hwf1|]. split; [exact Hbelow1|].
  split; [exact Hlen|]. split; [exact Hc|]. split; [exact Hr|].
  intros k Hk. apply Hdone, in_seq.
  change (trackers d0) with (trackers d).
  rewrite Hlen in Hk. change (oldLocations d0) with (oldLocations d) in Hk. lia.
Qed.

(** Cycles of [getImage] and [processFrame], one for each frame that the
    camera delivers. *)
Fixpoint run_cycles `{CvRuntime} (frames : list IplImage) (d : state)
  : option (state * list ConsoleLine) :=
  match frames with
  | [] => Some (d, [])
  | frame :: frames' =>
      '(d1, out1) ← processFrame (getImage d (Some frame));
      '(d2, out2) ← run_cycles frames' d1;
      Some (d2, out1 ++ out2)
  end.

(** X15: tracking never ends by itself.  Once every marker has a
    location, every further cycle of [getImage] and [processFrame] on
    colour frames of one size larger than the windows returns and prints
    nothing, whatever the frames show; after any number of such cycles
    every marker still has a location, inside the frame and off its first
    row and column, with an orientation in (-pi, pi], and counter and
    running flag are as before. *)
Theorem tracking_never_ends `{CvRuntime} (dp : Depth) (fw fh : Z)
    (frames : list IplImage) :
  forall (frame : IplImage) (d : state),
    wf_driver dp d -> windows_below fw fh d -> all_known d ->
    Forall (fun f => camera_frame dp f /\ width f = fw /\ height f = fh)
           (frame :: frames) ->
    exists d',
      run_cycles (frame :: frames) d = Some (d', []) /\
      length (returnPositions d') = length (returnPositions d) /\
      cnt d' = cnt d /\ running d' = running d /\
      all_inside fw fh d'.
Proof.
  unfold returnPositions.
  induction frames as [|frame2 frames IH]; intros frame d Hwf Hbelow Hknown Hall;
    inversion Hall as [|? ? (Hframe & Hfw & Hfh) Hall']; subst;
    destruct (tracking_cycle dp (width frame) (height frame) d frame
                Hwf Hbelow Hknown Hframe eq_refl eq_refl)
      as (d1 & Hrun & Hwf1 & Hbelow1 & Hlen1 & Hc1 & Hr1 & Hin1).
  - exists d1. cbn [run_cycles]. rewrite Hrun. cbn [mbind option_bind].
    auto.
  - destruct (IH frame2 d1 Hwf1 Hbelow1) as (d' & Hrest & Hlen & Hc & Hr & Hin).
    { intros k Hk. destruct (Hin1 k Hk) as (x & y & o & Hloc & _). eauto. }
    { exact Hall'. }
    exists d'. change (run_cycles (frame :: frame2 :: frames) d)
      with ('(d1, out1) ← processFrame (getImage d (Some frame));
            '(d2, out2) ← run_cycles (frame2 :: frames) d1;
            Some (d2, out1 ++ out2)).
    rewrite Hrun. cbn [mbind option_bind]. rewrite Hrest.
    cbn [mbind option_bind app].
    split; [reflexivity|]. split; [congruence|]. split; [congruence|].
    split; [congruence|exact Hin].
Qed.

Lemma tracking_never_ends_witness :
  exists d' x y o,
    @run_cycles Examples.plain_runtime
      [Examples.black_frame 640 480; Examples.black_frame 640 480]
      Examples.small_frame_driver = Some (d', []) /\
    returnPositions d' !! 0%nat = Some (Some (x, y, o)) /\
    (1 <= x < 640)%Z /\ (1 <= y < 480)%Z.
Proof.
  destruct (@tracking_never_ends Examples.plain_runtime IPL_DEPTH_8U 640 480
              [Examples.black_frame 640 480] (Examples.black_frame 640 480)
              Examples.small_frame_driver)
    as (d' & Hrun & Hlen & _ & _ & Hin).
  - unfold wf_driver. cbn.
    split; [reflexivity|]. split; [reflexivity|]. split; [|split; [|reflexivity]].
    + repeat constructor; cbn; try reflexivity;
        (eexists; split; [reflexivity|]; split; [cbn; lia|discriminate]).
    + repeat constructor; cbn; lia.
  - repeat constructor; cbn; lia.
  - intros [|k] Hk; [eexists; reflexivity|cbn in Hk; lia].
  - repeat constructor; cbn; lia.
  - destruct (Hin 0%nat) as (x & y & o & Hloc & Hx & Hy & _).
    { unfold returnPositions in Hlen. rewrite Hlen. cbn. lia. }
    exists d', x, y, o. split; [exact Hrun|]. split; [exact Hloc|].
    split; [exact Hx|exact Hy].
Defined.

(** What [locateMarker] of the windowed tracker hands back as the frame:
    the frame itself while the window image is a buffer of its own, the
    frame with the drawing written through once it is a sub-rectangle of
    the frame. *)
Lemma locate_frame `{CvRuntime} (w1 w2 : TrackerInWindowMode.state)
    (frame frame' : IplImage) (loc : location) :
  TrackerInWindowMode.locateMarker w1 frame = Some (w2, frame', loc) ->
  match TrackerInWindowMode.reducedImage w1 with
  | Some (TrackerInWindowMode.Buffer _) => frame' = frame
  | Some (TrackerInWindowMode.SubRectOfFrame rect) =>
      exists sub, frame' = TrackerInWindowMode.write_through frame rect sub
  | None => False
  end.
Proof.
  unfold TrackerInWindowMode.locateMarker.
  destruct (TrackerInWindowMode.reducedImage w1) as [[img|rect]|]; intros Hrun;
    repeat (cbn [mbind option_bind] in Hrun;
            match type of Hrun with
            | None = Some _ => discriminate Hrun
            | (?e ≫= _) = Some _ =>
                destruct e as [?|] eqn:?;
                [|cbn [mbind option_bind] in Hrun; discriminate Hrun]
            | context [let '(_, _) := ?p in _] => destruct p
            end);
    injection Hrun as _ <- _; [reflexivity|].
  match goal with
  | Hsub : (GetSubRect frame rect ≫= _) = Some _ |- _ =>
      destruct (GetSubRect frame rect) as [sub|];
      cbn [mbind option_bind] in Hsub; [|discriminate Hsub];
      injection Hsub as _ <-
  end.
  eauto.
Qed.

Lemma write_through_outside (arr sub : IplImage) (x0 y0 w h r c ch : Z) :
  ~ ((x0 <= c < x0 + w)%Z /\ (y0 <= r < y0 + h)%Z) ->
  data (TrackerInWindowMode.write_through arr (x0, y0, w, h) sub) r c ch
    = data arr r c ch.
Proof.
  intros Hout. cbn.
  destruct (Z.leb_spec x0 c), (Z.ltb_spec c (x0 + w)), (Z.leb_spec y0 r),
    (Z.ltb_spec r (y0 + h)); cbn; try reflexivity.
  exfalso. apply Hout. lia.
Qed.

(** X16: a tracking pass draws inside the window only.  The pass of
    [processFrame] for a marker with a known location returns, whether or
    not the [try] block of [cropFrame] raised, and leaves as current frame
    an image of the size and type of the frame that has, outside the
    window placed by [cropFrame], the samples of the frame. *)
Theorem tracking_draws_inside_window `{CvRuntime} (dp : Depth) (d : state)
    (out : list ConsoleLine) (k : nat) (frame : IplImage)
    (w : TrackerInWindowMode.state) (x y : Z) (o0 : R) :
  wf_driver dp d -> currentFrame d = Some frame ->
  windowedTrackers d !! k = Some w ->
  oldLocations d !! k = Some (Some (x, y, o0)) ->
  exists d' out' frame',
    process_kth (d, out) k = Some (d', out') /\
    currentFrame d' = Some frame' /\
    shaped frame' (width frame) (height frame) (depth frame) (nChannels frame) /\
    forall r c ch : Z,
      ~ ((fst (TrackerInWindowMode.window_corner w frame x y) <= c
            < fst (TrackerInWindowMode.window_corner w frame x y)
              + TrackerInWindowMode.windowWidth w)%Z /\
         (snd (TrackerInWindowMode.window_corner w frame x y) <= r
            < snd (TrackerInWindowMode.window_corner w frame x y)
              + TrackerInWindowMode.windowHeight w)%Z) ->
      data frame' r c ch = data frame r c ch.
Proof.
  intros Hwf Hcur Hw Hold.
  destruct (Hwf) as (Hlt & Hlw & Hta & Htw & Hdef).
  assert (Hk : (k < length (oldLocations d))%nat)
    by (apply lookup_lt_is_Some; eauto).
  assert (Hww : wf_window w) by (eapply Forall_lookup_1; eauto).
  destruct (cropFrame_runs w frame x y Hww)
    as (w1 & printed & Hcrop & Hwf1 & _ & _ & _ & HfR & HfI & HfS & Hpos &
        Href & _ & _).
  set (cx := fst (TrackerInWindowMode.window_corner w frame x y)).
  set (cy := snd (TrackerInWindowMode.window_corner w frame x y)).
  destruct (window_locate w1 frame cx cy (TrackerInWindowMode.windowWidth w)
              (TrackerInWindowMode.windowHeight w) Hwf1 HfR HfI HfS Hpos Href)
    as (w2 & frame' & mt' & xm & ym & o & _ & _ & Hrun & _ & Hshape & _).
  assert (Hfr := locate_frame _ _ _ _ _ Hrun).
  cbv beta iota delta [process_kth]. rewrite Hold. cbn [mbind option_bind].
  rewrite Hw. cbn [mbind option_bind]. rewrite Hcur. cbn [mbind option_bind].
  rewrite Hcrop. cbn [mbind option_bind]. rewrite Hrun. cbn [mbind option_bind].
  assert (Hassign : list_assign (oldLocations d) k
                      (Some ((xm + cx)%Z, (ym + cy)%Z, o))
                    = Some (<[k := Some ((xm + cx)%Z, (ym + cy)%Z, o)]> (oldLocations d)))
    by (apply list_assign_Some; auto).
  rewrite Hassign. cbn [mbind option_bind].
  eexists _, (out ++ printed), frame'.
  split; [reflexivity|]. split; [reflexivity|]. split; [exact Hshape|].
  intros r c ch Hout.
  destruct Href as [[red Hb]|[Hs _]].
  - rewrite Hb in Hfr. now rewrite Hfr.
  - rewrite Hs in Hfr. destruct Hfr as [sub ->].
    unfold window_rect. now apply write_through_outside.
Qed.

Lemma tracking_draws_inside_window_witness :
  exists d' out' frame',
    @process_kth Examples.plain_runtime (tracking_driver, []) 0
      = Some (d', out') /\
    currentFrame d' = Some frame' /\
    data frame' 200 300 0 = data (Examples.black_frame 640 480) 200 300 0.
Proof.
  destruct (@tracking_draws_inside_window Examples.plain_runtime IPL_DEPTH_8U
              tracking_driver [] 0 (Examples.black_frame 640 480)
              (Examples.window_tracker 7) 600 10 0)
    as (d' & out' & frame' & Hrun & Hcur & _ & Hsame).
  - unfold wf_driver. cbn.
    split; [reflexivity|]. split; [reflexivity|]. split; [|split; [|reflexivity]].
    + repeat constructor; cbn; try reflexivity;
        (eexists; split; [reflexivity|]; split; [cbn; lia|discriminate]).
    + repeat constructor; cbn; lia.
  - reflexivity.
  - reflexivity.
  - reflexivity.
  - exists d', out', frame'. split; [exact Hrun|]. split; [exact Hcur|].
    apply Hsame.
    change (TrackerInWindowMode.window_corner (Examples.window_tracker 7)
              (Examples.black_frame 640 480) 600 10) with (540%Z, 1%Z).
    cbn [fst snd Examples.window_tracker TrackerInWindowMode.windowWidth
         TrackerInWindowMode.windowHeight].
    lia.
Defined.

End DriverCycle.

(** ** The mode of a marker *)

Module ModeFacts.
Import cv LocateFacts StepFacts CameraDriver DriverFacts DriverCycle.





End ModeFacts.
